(** * Bracelets with fixed content: a shallow embedding of [bracelets.py]
      and [ferecrystal_isomers.py]

    The Python sources are Python 2 ([print] statements, [basestring]);
    [bracelets.py] imports [division] from [__future__], so [/] is true
    division there.  Integers are unbounded and modelled by [Z]; Python
    lists are [list]s read and written through [getitem] and [setitem],
    which implement negative indices and raise [IndexError] out of range. *)

From Stdlib Require Import ZArith Lia Bool String Ascii DecimalString.
From stdpp Require Import base list sorting.

Open Scope Z_scope.

(** ** Outcomes of running Python code *)

Inductive exn_kind : Type := KTypeError | KValueError.

(** [IndexError], [TypeError], [NameError], [KeyError] and
    [RuntimeError] are raised by the interpreter; [Invalid] is an exception
    raised by a [raise] statement of the source, with its message. *)
Inductive exn : Type :=
  | IndexError
  | TypeError
  | NameError
  | KeyError
  | RuntimeError
  | Invalid (k : exn_kind) (msg : string).

Inductive res (A : Type) : Type :=
  | Ok (a : A)
  | Raise (e : exn)
  | Timeout.

Arguments Ok {A} a.
Arguments Raise {A} e.
Arguments Timeout {A}.

Definition res_bind {A B} (m : res A) (k : A -> res B) : res B :=
  match m with
  | Ok a => k a
  | Raise e => Raise e
  | Timeout => Timeout
  end.

(** ** Python list indexing *)

(** [l[i]] resolves a negative index from the end of the list. *)
Definition norm_index (len : nat) (i : Z) : option nat :=
  if 0 <=? i then
    if i <? Z.of_nat len then Some (Z.to_nat i) else None
  else
    if - Z.of_nat len <=? i then Some (Z.to_nat (Z.of_nat len + i)) else None.

Definition getitem {A} (l : list A) (i : Z) : res A :=
  match norm_index (length l) i with
  | Some k => match l !! k with Some x => Ok x | None => Raise IndexError end
  | None => Raise IndexError
  end.

Definition setitem {A} (l : list A) (i : Z) (x : A) : res (list A) :=
  match norm_index (length l) i with
  | Some k => Ok (<[k:=x]> l)
  | None => Raise IndexError
  end.

(** [[x] * n]: an empty list when [n] is not positive. *)
Definition list_mul {A} (x : A) (n : Z) : list A := replicate (Z.to_nat n) x.

(** [sum(l)] on integers. *)
Definition sum (l : list Z) : Z := foldr Z.add 0 l.

(** [range(n)]. *)
Definition range (n : Z) : list Z := seqZ 0 n.

(** ** The double linked list *)

Module DoubleLinkedList.

Record t : Type := mk {
  n : list Z;
  n_items : Z;
  n_tot : Z;
  next : list Z;
  prev : list Z;
  _head : Z
}.

Definition init (component_list : list Z) : t :=
  let k := Z.of_nat (length component_list) in
  {| n := component_list;
     n_items := k;
     n_tot := sum component_list;
     next := (fun i => i - 1) <$> range (k + 1);
     prev := (fun i => i + 1) <$> range (k + 1);
     _head := k - 1 |}.

Definition set_n (d : t) (v : list Z) : t :=
  {| n := v; n_items := n_items d; n_tot := n_tot d;
     next := next d; prev := prev d; _head := _head d |}.

Definition set_next (d : t) (v : list Z) : t :=
  {| n := n d; n_items := n_items d; n_tot := n_tot d;
     next := v; prev := prev d; _head := _head d |}.

Definition set_prev (d : t) (v : list Z) : t :=
  {| n := n d; n_items := n_items d; n_tot := n_tot d;
     next := next d; prev := v; _head := _head d |}.

Definition set_head (d : t) (v : Z) : t :=
  {| n := n d; n_items := n_items d; n_tot := n_tot d;
     next := next d; prev := prev d; _head := v |}.

Definition add (j : Z) (d : t) : res t :=
  res_bind (getitem (next d) j) (fun nx =>
  res_bind (getitem (prev d) j) (fun pv =>
  res_bind (setitem (prev d) nx j) (fun prev1 =>
  let d := set_prev d prev1 in
  res_bind (setitem (next d) pv j) (fun next1 =>
  let d := set_next d next1 in
  res_bind (getitem (prev d) j) (fun pj =>
  if pj =? n_items d then Ok (set_head d j) else Ok d))))).

Definition head (d : t) : Z := _head d.

Definition remove (j : Z) (d : t) : res t :=
  res_bind (if j =? _head d
            then res_bind (getitem (next d) j) (fun nj => Ok (set_head d nj))
            else Ok d) (fun d =>
  res_bind (getitem (next d) j) (fun nx =>
  res_bind (getitem (prev d) j) (fun pv =>
  res_bind (setitem (next d) pv nx) (fun next1 =>
  let d := set_next d next1 in
  res_bind (setitem (prev d) nx pv) (fun prev1 =>
  Ok (set_prev d prev1)))))).

End DoubleLinkedList.

Abbreviation DLL := DoubleLinkedList.t.

(** ** The run-length encoding [lenenc]

    [lenenc] is a Python list whose first entry is the number of runs (an
    integer) and whose other entries are two-element lists
    [[symbol, length]]. *)

Inductive item : Type :=
  | Cnt (m : Z)
  | Run (s : Z) (l : Z).

Definition item_eqb (x y : item) : bool :=
  match x, y with
  | Cnt a, Cnt b => a =? b
  | Run s l, Run s' l' => (s =? s') && (l =? l')
  | _, _ => false
  end.

(** [x[0]] and [x[1]] of an entry; an integer cannot be indexed. *)
Definition item0 (x : item) : res Z :=
  match x with Run s _ => Ok s | Cnt _ => Raise TypeError end.

Definition item1 (x : item) : res Z :=
  match x with Run _ l => Ok l | Cnt _ => Raise TypeError end.

(** An entry used as a number ([lenenc[0]]): arithmetic on a list raises. *)
Definition item_int (x : item) : res Z :=
  match x with Cnt m => Ok m | Run _ _ => Raise TypeError end.

(** [v < x] for an integer [v] and an entry [x].  In Python 2 a number
    is smaller than any list. *)
Definition int_lt_item (v : Z) (x : item) : bool :=
  match x with Cnt m => v <? m | Run _ _ => true end.

(** ** The shared mutable state of a generation *)

Record state : Type := mkState {
  dll : DLL;
  lenenc : list item;
  run : list Z;
  (** ghost: the rings seen at the observation points, latest first *)
  seen : list DLL
}.

Definition M (A : Type) : Type := state -> res (A * state).

Definition ret {A} (a : A) : M A := fun s => Ok (a, s).

Definition bind {A B} (m : M A) (k : A -> M B) : M B :=
  fun s => match m s with
           | Ok (a, s') => k a s'
           | Raise e => Raise e
           | Timeout => Timeout
           end.

Definition lift {A} (r : res A) : M A :=
  fun s => match r with
           | Ok a => Ok (a, s)
           | Raise e => Raise e
           | Timeout => Timeout
           end.

Declare Scope py_scope.
Delimit Scope py_scope with py.
Notation "'let*' x ':=' c1 'in' c2" := (bind c1 (fun x => c2))
  (at level 10, x name, c1 at level 100, c2 at level 200) : py_scope.
Notation "c1 ';;' c2" := (bind c1 (fun _ => c2))
  (at level 100, c2 at level 200, right associativity) : py_scope.
Open Scope py_scope.

Definition get_dll : M DLL := fun s => Ok (dll s, s).
Definition put_dll (d : DLL) : M unit :=
  fun s => Ok (tt, mkState d (lenenc s) (run s) (seen s)).
Definition get_lenenc : M (list item) := fun s => Ok (lenenc s, s).
Definition put_lenenc (l : list item) : M unit :=
  fun s => Ok (tt, mkState (dll s) l (run s) (seen s)).
Definition get_run : M (list Z) := fun s => Ok (run s, s).
Definition put_run (r : list Z) : M unit :=
  fun s => Ok (tt, mkState (dll s) (lenenc s) r (seen s)).

(** Ghost step: record the current ring.  It reads nothing back. *)
Definition observe : M unit :=
  fun s => Ok (tt, mkState (dll s) (lenenc s) (run s) (dll s :: seen s)).

(** [dll.n[j]]. *)
Definition dll_n (j : Z) : M Z :=
  let* d := get_dll in lift (getitem (DoubleLinkedList.n d) j).

(** [dll.n[j] += v]. *)
Definition dll_n_add (j v : Z) : M unit :=
  let* d := get_dll in
  let* x := lift (getitem (DoubleLinkedList.n d) j) in
  let* n1 := lift (setitem (DoubleLinkedList.n d) j (x + v)) in
  put_dll (DoubleLinkedList.set_n d n1).

Definition dll_remove (j : Z) : M unit :=
  let* d := get_dll in
  let* d1 := lift (DoubleLinkedList.remove j d) in
  put_dll d1.

Definition dll_add (j : Z) : M unit :=
  let* d := get_dll in
  let* d1 := lift (DoubleLinkedList.add j d) in
  put_dll d1.

(** ** The class [Bracelets] *)

Module Bracelets.

(** [update_run_length(j, lenenc)]: mutates [lenenc] in place. *)
Definition update_run_length (j : Z) (le : list item) : res (list item) :=
  res_bind (getitem le (-1)) (fun last =>
  res_bind (item0 last) (fun s =>
  if s =? j then
    res_bind (item1 last) (fun l =>
    setitem le (-1) (Run s (l + 1)))
  else
    res_bind (getitem le 0) (fun c =>
    res_bind (item_int c) (fun m =>
    res_bind (setitem le 0 (Cnt (m + 1))) (fun le1 =>
    Ok (le1 ++ [Run j 1])))))).

(** [restore_run_length(lenenc)]. *)
Definition restore_run_length (le : list item) : res (list item) :=
  res_bind (getitem le (-1)) (fun last =>
  res_bind (item1 last) (fun l =>
  if l =? 1 then
    res_bind (getitem le 0) (fun c =>
    res_bind (item_int c) (fun m =>
    res_bind (setitem le 0 (Cnt (m - 1))) (fun le1 =>
    (* del lenenc[-1] *)
    Ok (removelast le1))))
  else
    res_bind (item0 last) (fun s =>
    setitem le (-1) (Run s (l - 1))))).

(** The [while] loop of [check_rev]:
    [while lenenc[i] == lenenc[m-i+1] and i <= m/2: i += 1].
    [m/2] is a true division; [i <= m/2] is [2*i <= m]. *)
Fixpoint check_rev_loop (fuel : nat) (le : list item) (m i : Z) : res Z :=
  match fuel with
  | O => Timeout
  | S fuel' =>
      res_bind (getitem le i) (fun x =>
      res_bind (getitem le (m - i + 1)) (fun y =>
      if item_eqb x y && (2 * i <=? m)
      then check_rev_loop fuel' le m (i + 1)
      else Ok i))
  end.

Definition check_rev (le : list item) : res Z :=
  res_bind (getitem le 0) (fun c =>
  res_bind (item_int c) (fun m =>
  res_bind (check_rev_loop (S (Z.to_nat m)) le m 1) (fun i =>
  if 2 * i >? m then Ok 0 else
  res_bind (getitem le i) (fun x =>
  res_bind (getitem le (m - i + 1)) (fun y =>
  res_bind (item0 x) (fun x0 =>
  res_bind (item0 y) (fun y0 =>
  if x0 <? y0 then Ok 1 else
  if x0 >? y0 then Ok (-1) else
  res_bind (item1 x) (fun x1 =>
  res_bind (item1 y) (fun y1 =>
  res_bind
    (if x1 <? y1 then
       res_bind (getitem le (i + 1)) (fun u =>
       res_bind (item0 u) (fun u0 => Ok (int_lt_item u0 y)))
     else Ok false) (fun left =>
  if left then Ok 1 else
  res_bind
    (if x1 >? y1 then
       res_bind (getitem le (m - i)) (fun w =>
       res_bind (item0 w) (fun w0 => Ok (x0 <? w0)))
     else Ok false) (fun right =>
  if right then Ok 1 else Ok (-1)))))))))))).

Section build.

(** The recursive call, one level down. *)
Variable rec : list Z -> Z -> Z -> Z -> Z -> Z -> bool -> M (list (list Z)).

(** The first half of the loop body: [j] is placed at position [t-1].
<<
    run[z-1] = t - z
    lenenc = self.update_run_length(j, lenenc)
    dll.n[j] -= 1
    if dll.n[j] == 0:
        dll.remove(j)
    a[t-1] = j
>> *)
Definition extend (a : list Z) (t z j : Z) : M (list Z) :=
  let* rn := get_run in
  let* rn1 := lift (setitem rn (z - 1) (t - z)) in
  put_run rn1 ;;
  let* le := get_lenenc in
  let* le1 := lift (update_run_length j le) in
  put_lenenc le1 ;;
  dll_n_add j (-1) ;;
  let* nj := dll_n j in
  (if nj =? 0 then dll_remove j else ret tt) ;;
  lift (setitem a (t - 1) j).

(** The second half of the loop body; it returns the next [j].
<<
    if dll.n[j] == 0:
        dll.add(j)
    dll.n[j] += 1
    lenenc = self.restore_run_length(lenenc)
    j = dll.next[j]
>> *)
Definition retract (j : Z) : M Z :=
  let* nj := dll_n j in
  (if nj =? 0 then dll_add j else ret tt) ;;
  dll_n_add j 1 ;;
  let* le := get_lenenc in
  let* le1 := lift (restore_run_length le) in
  put_lenenc le1 ;;
  let* d := get_dll in
  lift (getitem (DoubleLinkedList.next d) j).

(** The [while j >= a[t-p-1]] loop of [build_bracelets], followed by
    the final [a[t-1] = dll.n_tot - 1]. *)
Fixpoint while_loop (fuel : nat) (a : list Z) (t p r z b : Z) (RS : bool)
    (j : Z) : M (list (list Z)) :=
  match fuel with
  | O => fun _ => Timeout
  | S fuel' =>
      observe ;;
      let* d := get_dll in
      let* x := lift (getitem a (t - p - 1)) in
      if j >=? x then
        let* a := extend a t z j in
        let z2 := if negb (j =? DoubleLinkedList.n_items d - 1)
                  then t + 1 else z in
        let* y := lift (getitem a (t - p - 1)) in
        let p2 := if negb (j =? y) then t else p in
        let* le := get_lenenc in
        let* c := lift (check_rev le) in
        let* out :=
          (if c =? 0 then
             let* m := lift (res_bind (getitem le 0) item_int) in
             rec a (t + 1) p2 t z2 m false
           else if c =? 1 then
             rec a (t + 1) p2 r z2 b RS
           else ret []) in
        let* j' := retract j in
        let* rest := while_loop fuel' a t p r z b RS j' in
        ret (out ++ rest)
      else
        let* _ := lift (setitem a (t - 1) (DoubleLinkedList.n_tot d - 1)) in
        ret []
  end.

End build.

(** [build_bracelets(a, dll, lenenc, run, t, p, r, z, b, RS)].  The
    generator is run to its end; the result lists the objects it yields,
    in the order it yields them.  [dll], [lenenc] and [run] are the
    shared objects of the state; [a] is passed as a copy ([a[:]]) by
    every caller inside the recursion.

    [t - 1 > r + (dll.n_tot - r)/2] is a comparison with a true
    division: it is [2*(t-1) > 2*r + (dll.n_tot - r)]. *)
Fixpoint build_bracelets (fuel : nat) (a : list Z) (t p r z b : Z)
    (RS : bool) : M (list (list Z)) :=
  match fuel with
  | O => fun _ => Timeout
  | S fuel' =>
      observe ;;
      let* d := get_dll in
      let n_tot := DoubleLinkedList.n_tot d in
      let n_items := DoubleLinkedList.n_items d in
      let* RS :=
        (if 2 * (t - 1) >? 2 * r + (n_tot - r) then
           let* x := lift (getitem a (t - 2)) in
           let* y := lift (getitem a (n_tot - t + r + 1)) in
           if x >? y then ret false
           else if x <? y then ret true
           else ret RS
         else ret RS) in
      let* nlast := dll_n (-1) in
      if nlast =? n_tot - t + 1 then
        let* rn := get_run in
        let* rv := lift (getitem rn (t - p - 1)) in
        let p := if nlast >? rv then n_tot else p in
        let* RS :=
          (if (nlast >? 0) && negb (r + 1 =? t) then
             let* le := get_lenenc in
             let* e := lift (getitem le (b + 1)) in
             let* e0 := lift (item0 e) in
             let* e1 := lift (item1 e) in
             if (e0 =? n_items - 1) && (e1 >? nlast) then ret true
             else if negb (e0 =? n_items - 1) || (e1 <? nlast) then ret false
             else ret RS
           else ret RS) in
        if negb RS && (n_tot =? p) then ret [a] else ret []
      else
        let* n0 := dll_n 0 in
        if negb (n0 =? n_tot - t + 1) then
          while_loop (build_bracelets fuel')
            (S (length (DoubleLinkedList.next d)))
            a t p r z b RS (DoubleLinkedList.head d)
        else ret []
  end.

(** [get_bracelets(dll)], run to its end from a fresh state. *)
Definition get_bracelets (d : DLL) : res (list (list Z) * state) :=
  let n_tot := DoubleLinkedList.n_tot d in
  let run := list_mul 0 n_tot in
  let a := list_mul (DoubleLinkedList.n_items d - 1) n_tot in
  res_bind (setitem a 0 0) (fun a =>
  (dll_n_add 0 (-1) ;;
   put_lenenc [Cnt 1; Run 0 1] ;;
   let* n0 := dll_n 0 in
   (if n0 =? 0 then dll_remove 0 else ret tt) ;;
   build_bracelets (S (Z.to_nat n_tot)) a 2 1 1 2 1 false)
    (mkState d [] run [])).

(** Python's order on lists of integers: lexicographic, a proper prefix
    first. *)
Fixpoint list_leb (x y : list Z) : bool :=
  match x, y with
  | [], _ => true
  | _ :: _, [] => false
  | u :: x', v :: y' => (u <? v) || ((u =? v) && list_leb x' y')
  end.

Fixpoint insert_sorted (x : list Z) (l : list (list Z)) : list (list Z) :=
  match l with
  | [] => [x]
  | y :: l' => if list_leb x y then x :: l else y :: insert_sorted x l'
  end.

(** [sorted(l)].  The order is total and two lists that compare equal
    are the same list, so the result does not depend on the sorting
    algorithm. *)
Definition sorted (l : list (list Z)) : list (list Z) :=
  foldr insert_sorted [] l.

(** The object: [_components] and [_bracelets]. *)
Record t : Type := mk {
  _components : list Z;
  _bracelets : list (list Z)
}.

Definition bracelets (self : t) : list (list Z) := _bracelets self.

(** The statements of [__init__] after the two checks. *)
Definition construct (components : list Z) : res t :=
  let dll := DoubleLinkedList.init components in
  res_bind (get_bracelets dll) (fun '(l, _) =>
  Ok (mk components (sorted l))).

(** The body of [as_tuple] for one bracelet. *)
Fixpoint as_tuple_loop (curr n : Z) (l : list Z) : list (Z * Z) :=
  match l with
  | [] => [(curr, n)]
  | b :: l' =>
      if b =? curr then as_tuple_loop curr (n + 1) l'
      else (curr, n) :: as_tuple_loop b 1 l'
  end.

Definition as_tuple1 (brac : list Z) : list (Z * Z) :=
  as_tuple_loop 0 1 (drop 1 brac).

Definition as_tuple (self : t) : list (list (Z * Z)) :=
  as_tuple1 <$> bracelets self.

End Bracelets.

(** ** Python values that reach the constructors

    An entry of a content vector: [PInt] is a Python 2 [int], [PLong] a
    [long] (not an instance of [int]), [PBool] a [bool] (an instance of
    [int]), [PSeq] a list or a tuple.  Floats are left out. *)

Inductive pyval : Type :=
  | PNone
  | PInt (z : Z)
  | PLong (z : Z)
  | PBool (b : bool)
  | PStr (s : string)
  | PSeq.

(** The argument given as content vector: a list, a tuple, or another
    value. *)
Inductive pyarg : Type :=
  | AList (l : list pyval)
  | ATuple (l : list pyval)
  | AOther (v : pyval).

(** [isinstance(x, int)]. *)
Definition is_int (x : pyval) : bool :=
  match x with PInt _ | PBool _ => true | _ => false end.

(** The value of [x] in integer arithmetic ([0 + x] in [sum]); [None]
    where the addition raises [TypeError]. *)
Definition as_number (x : pyval) : option Z :=
  match x with
  | PInt z | PLong z => Some z
  | PBool b => Some (if b then 1 else 0)
  | _ => None
  end.

Fixpoint as_numbers (l : list pyval) : option (list Z) :=
  match l with
  | [] => Some []
  | x :: l' =>
      match as_number x, as_numbers l' with
      | Some z, Some zs => Some (z :: zs)
      | _, _ => None
      end
  end.

(** [Bracelets.__init__(components)]. *)
Definition Bracelets_init (components : pyarg) : res Bracelets.t :=
  match components with
  | AList l =>
      if Z.of_nat (length l) <? 2
      then Raise (Invalid KValueError "Components must have at least 2 items.")
      else match as_numbers l with
           | Some c => Bracelets.construct c
           | None => Raise TypeError   (* sum(component_list) *)
           end
  | _ => Raise (Invalid KTypeError "Components must be list.")
  end.

Fixpoint res_map {A B} (f : A -> res B) (l : list A) : res (list B) :=
  match l with
  | [] => Ok []
  | x :: l' =>
      res_bind (f x) (fun y =>
      res_bind (res_map f l') (fun ys => Ok (y :: ys)))
  end.

(** ** Strings *)

Definition ascii_uppercase : list string :=
  ["A"; "B"; "C"; "D"; "E"; "F"; "G"; "H"; "I"; "J"; "K"; "L"; "M";
   "N"; "O"; "P"; "Q"; "R"; "S"; "T"; "U"; "V"; "W"; "X"; "Y"; "Z"]%string.

(** ['%d' % z]. *)
Definition str_int (z : Z) : string := NilZero.string_of_int (Z.to_int z).

(** [s * n]. *)
Definition str_mul (s : string) (n : Z) : string :=
  foldr String.append EmptyString (replicate (Z.to_nat n) s).

(** [s[::-1]]. *)
Definition str_rev (s : string) : string :=
  string_of_list_ascii (rev (list_ascii_of_string s)).

(** [key in s]. *)
Fixpoint str_in (key s : string) : bool :=
  String.prefix key s ||
  match s with
  | EmptyString => false
  | String _ s' => str_in key s'
  end.

(** [s.count(key)]: occurrences that do not overlap, from the left. *)
Fixpoint str_count_go (key : string) (skip : nat) (s : string) : Z :=
  match s with
  | EmptyString => 0
  | String _ s' =>
      match skip with
      | S k => str_count_go key k s'
      | O => if String.prefix key s
             then 1 + str_count_go key (String.length key - 1) s'
             else str_count_go key 0 s'
      end
  end.

Definition str_count (s key : string) : Z :=
  match key with
  | EmptyString => Z.of_nat (String.length s) + 1
  | _ => str_count_go key 0 s
  end.

(** [s.replace(old, new)]. *)
Fixpoint str_replace_go (old new : string) (skip : nat) (s : string) : string :=
  match s with
  | EmptyString => EmptyString
  | String c s' =>
      match skip with
      | S k => str_replace_go old new k s'
      | O => if String.prefix old s
             then String.append new
                    (str_replace_go old new (String.length old - 1) s')
             else String c (str_replace_go old new 0 s')
      end
  end.

Fixpoint str_intersperse (new s : string) : string :=
  match s with
  | EmptyString => new
  | String c s' => String.append new (String c (str_intersperse new s'))
  end.

Definition str_replace (s old new : string) : string :=
  match old with
  | EmptyString => str_intersperse new s
  | _ => str_replace_go old new 0 s
  end.

Fixpoint str_insert_sorted (x : string) (l : list string) : list string :=
  match l with
  | [] => [x]
  | y :: l' => if String.leb x y then x :: l else y :: str_insert_sorted x l'
  end.

(** [sorted(l)] on strings. *)
Definition str_sorted (l : list string) : list string :=
  foldr str_insert_sorted [] l.

(** [Bracelets.as_string()]: one string per bracelet, a letter of
    [ascii_uppercase] per symbol. *)
Definition Bracelets_as_string (self : Bracelets.t) : res (list string) :=
  res_map (fun brace =>
    foldl (fun acc s =>
             res_bind acc (fun str =>
             res_bind (getitem ascii_uppercase s) (fun letter =>
             Ok (str ++ letter)%string)))
          (Ok EmptyString) brace)
    (Bracelets.bracelets self).

(** ** The class [Isomers] *)

(** The [elements] argument; the labels are strings, as the docstring of
    [__init__] asks. *)
Inductive elements_arg : Type :=
  | ENone
  | EList (l : list string)
  | ETuple (l : list string)
  | EOther.

(** A condition value: a [bool], an [int], or a pair (tuple or list). *)
Inductive cval : Type :=
  | VBool (b : bool)
  | VInt (z : Z)
  | VPair (lo hi : Z).

(** A conditions argument: [None], a [dict] with string keys (listed in
    its iteration order, keys distinct), or something else. *)
Inductive conds : Type :=
  | CNone
  | CDict (items : list (string * cval))
  | COther.

Module Isomers.

Record t : Type := mk {
  _composition : pyarg;
  _elements : option (list string);
  _bracelets : Bracelets.t;
  _all_isomers : list string
}.

(** The checks of [__init__] on [composition]. *)
Definition check_composition (composition : pyarg) : res unit :=
  match composition with
  | AList l | ATuple l =>
      if Z.of_nat (length l) <? 2
      then Raise (Invalid KValueError "Composition must have at least 2 items.")
      else if Z.of_nat (length l) >? 26
      then Raise (Invalid KValueError "Composition cannot have more than 26 items.")
      else if forallb is_int l then Ok tt
      else Raise (Invalid KTypeError "Values must be a integers.")
  | AOther _ => Raise (Invalid KTypeError "Composition must be list or tuple")
  end.

Definition len_arg (composition : pyarg) : Z :=
  match composition with
  | AList l | ATuple l => Z.of_nat (length l)
  | AOther _ => 0
  end.

(** [l.count(x)]. *)
Definition str_list_count (l : list string) (x : string) : Z :=
  Z.of_nat (length (filter (fun y => String.eqb y x = true) l)).

(** The checks of [__init__] on [elements]; it gives the labels, or
    [None]. *)
Definition check_elements (composition : pyarg) (elements : elements_arg)
    : res (option (list string)) :=
  match elements with
  | ENone => Ok None
  | EOther => Raise (Invalid KTypeError "Elements must be None, list, or tuple.")
  | EList l | ETuple l =>
      if negb (len_arg composition =? Z.of_nat (length l))
      then Raise (Invalid KValueError
                    "Elements must be of the same size as composition.")
      else if existsb (fun e => str_list_count l e >? 1) (removelast l)
      then Raise (Invalid KValueError "Element list contains duplicates.")
      else Ok (Some l)
  end.

(** The loop of [_isomers_from_bracelets] over the runs of one
    bracelet. *)
Fixpoint format_runs (elements : option (list string))
    (brace : list (Z * Z)) (istring : string) : res string :=
  match brace with
  | [] => Ok istring
  | (s, c) :: rest =>
      res_bind (match elements with
                | None => getitem ascii_uppercase s
                | Some els => getitem els s
                end) (fun letter =>
      let istring :=
        (istring ++ "(" ++ letter ++ ")" ++ str_int c)%string in
      let istring :=
        match rest with [] => istring | _ => (istring ++ "-")%string end in
      format_runs elements rest istring)
  end.

Definition _isomers_from_bracelets (elements : option (list string))
    (b : Bracelets.t) : res (list string) :=
  res_map (fun brace => format_runs elements brace EmptyString)
    (Bracelets.as_tuple b).

(** [Isomers.__init__(composition, elements)]. *)
Definition init (composition : pyarg) (elements : elements_arg) : res t :=
  res_bind (check_composition composition) (fun _ =>
  res_bind (check_elements composition elements) (fun els =>
  res_bind (Bracelets_init composition) (fun b =>
  res_bind (_isomers_from_bracelets els b) (fun all =>
  Ok (mk composition els b all))))).

Definition isomers (self : t) : list string := _all_isomers self.

(** [_as_tuples]: [self._elements[t[0]]] raises [TypeError] when
    [_elements] is [None]. *)
Definition _as_tuples (self : t) : res (list (list (string * Z))) :=
  res_map (fun brac =>
    res_map (fun '(s, c) =>
      match _elements self with
      | None => Raise TypeError
      | Some els => res_bind (getitem els s) (fun e => Ok (e, c))
      end) brac)
    (Bracelets.as_tuple (_bracelets self)).

Fixpoint join_runs (isomer : list (string * Z)) : string :=
  match isomer with
  | [] => EmptyString
  | (e, c) :: rest =>
      let piece := ("(" ++ e ++ ")" ++ str_int c)%string in
      match rest with
      | [] => piece
      | _ => (piece ++ "-" ++ join_runs rest)%string
      end
  end.

Definition _isomers_from_tuples (isomers : list (list (string * Z)))
    : list string :=
  join_runs <$> isomers.

(** [_transform_to_letter(element_string)], for labels [els].  The dict
    [element_indices] maps each label to its index; the labels are
    distinct after [__init__]. *)
Fixpoint element_index (els : list string) (e : string) : Z :=
  match els with
  | [] => 0
  | y :: els' => if String.eqb y e then 0 else 1 + element_index els' e
  end.

Definition _transform_to_letter (els : list string) (element_string : string)
    : res string :=
  foldl (fun acc element =>
           res_bind acc (fun str =>
           res_bind (getitem ascii_uppercase (element_index els element))
             (fun letter => Ok (str_replace str element letter))))
        (Ok element_string) (rev (str_sorted els)).

(** One key of the conditions against one isomer string: [true] when
    the isomer is rejected. *)
Definition interface_rejects (istring key : string) (val : cval) : res bool :=
  match val with
  | VBool v =>
      let interface := str_in key istring || str_in (str_rev key) istring in
      Ok (negb (Bool.eqb interface v))
  | VPair lo hi =>
      let occ := str_count istring key in
      let occ := if negb (String.eqb key (str_rev key))
                 then occ + str_count istring (str_rev key) else occ in
      Ok ((occ <? lo) || ((hi >? 0) && (occ >? hi)))
  | VInt _ => Raise TypeError   (* val[0] on an int *)
  end.

(** The inner [for key in inter_cond] loop, with its [break]. *)
Fixpoint interface_loop (istring : string) (inter_cond : list (string * cval))
    : res bool :=
  match inter_cond with
  | [] => Ok true
  | (key, val) :: rest =>
      res_bind (interface_rejects istring key val) (fun rej =>
      if rej then Ok false else interface_loop istring rest)
  end.

(** [inter_cond[newkey] = inter_cond.pop(key)] on a dict listed in its
    iteration order. *)
Definition dict_set {V} (d : list (string * V)) (k : string) (v : V)
    : list (string * V) :=
  if existsb (fun '(k', _) => String.eqb k' k) d
  then (fun '(k', v') => if String.eqb k' k then (k', v) else (k', v')) <$> d
  else d ++ [(k, v)].

Definition dict_pop {V} (d : list (string * V)) (k : string)
    : list (string * V) :=
  filter (fun '(k', _) => String.eqb k' k = false) d.

(** [d.get(k)] on a dict listed in its iteration order. *)
Fixpoint dict_get {V} (d : list (string * V)) (k : string) : option V :=
  match d with
  | [] => None
  | (k', v) :: d' => if String.eqb k' k then Some v else dict_get d' k
  end.

(** The loop that renames the keys,
<<
    for key in inter_cond:
        newkey = self._transform_to_letter(key)
        inter_cond[newkey] = inter_cond.pop(key)
>>
    iterates over the dict that its body changes.  Which keys such an
    iteration yields depends on the hash table and not on the source:
    [visits] lists the keys it yields, in order.  Each time the iterator
    is asked for a key it first compares the size of the dict with [size],
    the size at the start of the loop, and raises [RuntimeError] when they
    differ; the size shrinks when a key is renamed to a key that the dict
    holds already.  [pop] raises [KeyError] for a key that the dict does
    not hold. *)
Fixpoint rename_keys (els : list string) (size : nat)
    (inter_cond : list (string * cval)) (visits : list string)
    : res (list (string * cval)) :=
  if negb (Nat.eqb (length inter_cond) size) then Raise RuntimeError
  else
    match visits with
    | [] => Ok inter_cond
    | key :: rest =>
        res_bind (_transform_to_letter els key) (fun newkey =>
        match dict_get inter_cond key with
        | None => Raise KeyError
        | Some val =>
            rename_keys els size (dict_set (dict_pop inter_cond key) newkey val)
              rest
        end)
    end.

(** The loop over the isomers, for the conditions [inter_cond]. *)
Definition apply_interface (self : t) (isomers : list (list (string * Z)))
    (inter_cond : list (string * cval)) : res (list (list (string * Z))) :=
  res_bind
    (res_map (fun isomer =>
       let istring :=
         foldr String.append EmptyString
           ((fun '(e, c) => str_mul e c) <$> isomer) in
       res_bind (match _elements self with
                 | None => Ok istring
                 | Some els => _transform_to_letter els istring
                 end) (fun istring =>
       res_bind (interface_loop istring inter_cond) (fun keep =>
       Ok (isomer, keep)))) isomers) (fun marked =>
  Ok (fst <$> filter (fun x => snd x = true) marked)).

(** [_filter_interface(isomers, interface_conditions)]; [visits] are the
    keys that the renaming loop is given by its iterator. *)
Definition _filter_interface (self : t) (isomers : list (list (string * Z)))
    (interface_conditions : list (string * cval)) (visits : list string)
    : res (list (list (string * Z))) :=
  res_bind
    (match _elements self with
     | None => Ok interface_conditions
     | Some els =>
         rename_keys els (length interface_conditions) interface_conditions
           visits
     end) (fun inter_cond =>
  apply_interface self isomers inter_cond).

(** [_filter_thickness(isomers, thickness_conditions)].  Its first
    statement builds a dict from the name [thickness_conditons], which
    is bound nowhere: evaluating it raises [NameError], and the rest of
    the body is never reached. *)
Definition _filter_thickness (self : t) (isomers : list (list (string * Z)))
    (thickness_conditions : list (string * cval))
    : res (list (list (string * Z))) :=
  Raise NameError.

(** [if type(val) is int: conditions[key] = [val, val]] for every
    key. *)
Definition pair_ints (d : list (string * cval)) : list (string * cval) :=
  (fun '(k, v) =>
     match v with VInt z => (k, VPair z z) | _ => (k, v) end) <$> d.

(** [get_isomer_subset(thickness_conditions, interface_conditions)];
    [visits] are the keys that the renaming loop of [_filter_interface] is
    given by its iterator. *)
Definition get_isomer_subset (self : t)
    (thickness_conditions interface_conditions : conds)
    (visits : list string) : res (list string) :=
  res_bind (_as_tuples self) (fun isomer_subset =>
  res_bind
    (match thickness_conditions with
     | CNone => Ok isomer_subset
     | COther =>
         Raise (Invalid KValueError "Thickness conditions must be a dictionary.")
     | CDict d => _filter_thickness self isomer_subset (pair_ints d)
     end) (fun isomer_subset =>
  res_bind
    (match interface_conditions with
     | CNone => Ok isomer_subset
     | COther =>
         Raise (Invalid KValueError "Interface conditions must be a dictionary.")
     | CDict d => _filter_interface self isomer_subset (pair_ints d) visits
     end) (fun isomer_subset =>
  Ok (_isomers_from_tuples isomer_subset)))).

(** ['%d' % v]: a number is printed in decimal, [True] and [False] as 1
    and 0; another value raises [TypeError]. *)
Definition format_d (v : pyval) : res string :=
  match v with
  | PInt z | PLong z => Ok (str_int z)
  | PBool b => Ok (if b then "1" else "0")%string
  | _ => Raise TypeError
  end.

(** The entries of [_composition]; [__init__] stores a list or a tuple
    only. *)
Definition composition_items (composition : pyarg) : list pyval :=
  match composition with
  | AList l | ATuple l => l
  | AOther _ => []
  end.

(** [get_formula()]: [self._elements[i]] is read first, and raises
    [TypeError] when [_elements] is [None]. *)
Definition get_formula (self : t) : res string :=
  foldl (fun acc i =>
           res_bind acc (fun formula_string =>
           res_bind (match _elements self with
                     | None => Raise TypeError
                     | Some els => getitem els i
                     end) (fun e =>
           res_bind (getitem (composition_items (_composition self)) i) (fun v =>
           res_bind (format_d v) (fun d =>
           Ok (formula_string ++ "(" ++ e ++ ")" ++ d)%string)))))
        (Ok EmptyString) (range (len_arg (_composition self))).

End Isomers.

(** * Specification

    The definitions in which the theorems below are stated. *)

Import DoubleLinkedList Bracelets.

(** ** The ring of available symbols *)

(** The links of the symbols [av], listed from the head: each symbol
    points by [next] to the one after it ([-1] after the last) and by
    [prev] to the one before it ([p] before the first); the symbols
    decrease along the list. *)
Fixpoint chain (nxt prv : list Z) (p : Z) (av : list Z) : Prop :=
  match av with
  | [] => True
  | s :: av' =>
      0 ≤ s < p ∧ nxt !! Z.to_nat s = Some (hd (-1) av') ∧
      prv !! Z.to_nat s = Some p ∧ chain nxt prv s av'
  end.

(** [d] is the ring of the symbols [av] out of [K] symbols; index [K]
    of [next] and [prev] is the sentinel. *)
Record ring (K : nat) (av : list Z) (d : DLL) : Prop := mkRing {
  ring_items : n_items d = Z.of_nat K;
  ring_len_next : length (next d) = S K;
  ring_len_prev : length (prev d) = S K;
  ring_head : _head d = hd (-1) av;
  ring_chain : chain (next d) (prev d) (Z.of_nat K) av
}.

(** Two rings are the same up to the links stored at the sentinel. *)
Record dll_equiv (K : nat) (d d' : DLL) : Prop := mkEquiv {
  eq_n : n d = n d';
  eq_items : n_items d = n_items d';
  eq_tot : n_tot d = n_tot d';
  eq_head : _head d = _head d';
  eq_len_next : length (next d) = length (next d');
  eq_len_prev : length (prev d) = length (prev d');
  eq_next : take K (next d) = take K (next d');
  eq_prev : take K (prev d) = take K (prev d')
}.

(** The index that [prev[nx] = ...] writes: [-1] is the sentinel. *)
Definition sentinel_index (K : nat) (nx : Z) : nat :=
  if nx <? 0 then K else Z.to_nat nx.

(** [remove(j)] on a ring. *)
Definition removed (K : nat) (j : Z) (d : DLL) (p nx : Z) : DLL :=
  DoubleLinkedList.mk (n d) (n_items d) (n_tot d)
     (<[Z.to_nat p := nx]> (next d))
     (<[sentinel_index K nx := p]> (prev d))
     (if j =? _head d then nx else _head d).

(** The ring right after construction. *)
Fixpoint desc (m : nat) : list Z :=
  match m with
  | O => []
  | S m' => Z.of_nat m' :: desc m'
  end.

(** ** Run-length encodings *)

(** One more symbol at the end of a run-length encoding. *)
Fixpoint rle_snoc (runs : list (Z * Z)) (j : Z) : list (Z * Z) :=
  match runs with
  | [] => [(j, 1)]
  | [(s, l)] => if s =? j then [(s, l + 1)] else [(s, l); (j, 1)]
  | x :: rest => x :: rle_snoc rest j
  end.

(** The run-length encoding of a sequence. *)
Definition rle (pre : list Z) : list (Z * Z) := foldl rle_snoc [] pre.

(** A run as an entry of [lenenc]. *)
Definition run_item (x : Z * Z) : item := Run x.1 x.2.

(** The Python list that holds a run-length encoding. *)
Definition lenenc_of (runs : list (Z * Z)) : list item :=
  Cnt (Z.of_nat (length runs)) :: (run_item <$> runs).

(** Decompression. *)
Definition expand (runs : list (Z * Z)) : list Z :=
  concat ((λ x, replicate (Z.to_nat x.2) x.1) <$> runs).

(** Every run has a positive length. *)
Definition runs_pos (runs : list (Z * Z)) : Prop := Forall (λ x, 1 ≤ x.2) runs.

(** ** Words: leading zeros, windows of zeros, periods *)

(** The number of leading zeros. *)
Fixpoint lz (l : list Z) : nat :=
  match l with
  | x :: l' => if x =? 0 then S (lz l') else O
  | [] => O
  end.

(** Every window of [lz pre + 1] consecutive positions of [pre] holds a
    symbol that is not zero. *)
Definition nowin (pre : list Z) : Prop :=
  ∀ i : nat, (i + lz pre < length pre)%nat →
    ∃ x v, (i ≤ x ≤ i + lz pre)%nat ∧ pre !! x = Some v ∧ v ≠ 0.

(** [pre] has period [p]. *)
Definition periodic (p : nat) (pre : list Z) : Prop :=
  ∀ i v, (p ≤ i)%nat → pre !! i = Some v → pre !! (i - p)%nat = Some v.

(** Neighbouring runs hold different symbols. *)
Definition runs_adj (runs : list (Z * Z)) : Prop :=
  ∀ i x y, runs !! i = Some x → runs !! S i = Some y → x.1 ≠ y.1.

(** ** Counts and the invariants of the ring *)

(** Occurrences of a symbol. *)
Fixpoint count (s : Z) (l : list Z) : Z :=
  match l with
  | [] => 0
  | x :: l' => (if x =? s then 1 else 0) + count s l'
  end.

(** The state with another ring. *)
Definition with_dll (σ : state) (d : DLL) : state :=
  mkState d (lenenc σ) (run σ) (seen σ).

(** The ring holds exactly the symbols with a positive count. *)
Definition avail (av : list Z) (cnt : list Z) : Prop :=
  ∀ s, s ∈ av ↔ 0 ≤ s ∧ ∃ x, cnt !! Z.to_nat s = Some x ∧ 0 < x.

(** [d] is a well-formed ring of exactly the available symbols. *)
Definition ring_ok (K : nat) (d : DLL) : Prop :=
  ∃ av, ring K av d ∧ avail av (n d).

(** The counts of the ring against the content [c] and the prefix [pre]
    placed so far. *)
Record dinv (c : list Z) (pre : list Z) (d : DLL) : Prop := mkDinv {
  dinv_items : n_items d = Z.of_nat (length c);
  dinv_tot : n_tot d = sum c;
  dinv_len : length (n d) = length c;
  dinv_counts : ∀ (s : nat) x, c !! s = Some x →
                  n d !! s = Some (x - count (Z.of_nat s) pre);
  dinv_nonneg : Forall (λ v, 0 ≤ v) (n d);
  dinv_sum : sum (n d) = sum c - Z.of_nat (length pre)
}.

(** Two states that differ in the ghost trace, the contents of [run] and
    the sentinel's links only. *)
Record steq (K : nat) (σ σ' : state) : Prop := mkSteq {
  steq_dll : dll_equiv K (dll σ) (dll σ');
  steq_lenenc : lenenc σ = lenenc σ';
  steq_run : length (run σ) = length (run σ')
}.

(** The ring after [dll.n[j] -= 1] and the [remove(j)] that follows when
    the count reaches zero. *)
Definition placed (K : nat) (av1 : list Z) (s : Z) (av2 : list Z) (d : DLL) (x : Z)
    : DLL :=
  let d1 := set_n d (<[Z.to_nat s := x - 1]> (n d)) in
  if x - 1 =? 0
  then removed K s d1 (List.last av1 (Z.of_nat K)) (hd (-1) av2)
  else d1.

(** ** The invariants of the word under construction *)

(** The word [pre] placed so far, with its period [p]: it starts with
    symbol 0, has period [p], and no window of it holds more zeros in a
    row than its start. *)
Record winv (K : nat) (N : Z) (pre : list Z) (p : Z) : Prop := mkWinv {
  w_zero : pre !! 0%nat = Some 0;
  w_len : Z.of_nat (length pre) ≤ N;
  w_range : Forall (λ v, 0 ≤ v < Z.of_nat K) pre;
  w_p : 1 ≤ p ≤ Z.of_nat (length pre);
  w_per : periodic (Z.to_nat p) pre;
  w_last : lz pre = length pre ∨
           ∃ v, pre !! (Z.to_nat p - 1)%nat = Some v ∧ v ≠ 0;
  w_nowin : nowin pre
}.

(** The index [b] into [lenenc], against the position [r] of the
    last prefix that equals its reversal. *)
Definition binv (pre : list Z) (r b : Z) : Prop :=
  (r = Z.of_nat (length pre) ∧ b = Z.of_nat (length (rle pre)) ∧
   (length (rle pre) = 1%nat ∨
    rle pre !! 0%nat = rle pre !! (length (rle pre) - 1)%nat)) ∨
  (1 ≤ b < Z.of_nat (length (rle pre))).

(** ** The order of the output *)

(** [x] is strictly below [y] in the order that [sorted] uses. *)
Definition lex_lt (x y : list Z) : Prop := list_leb y x = false.

(** ** Content vectors *)

(** A valid content vector: at least two multiplicities, all positive. *)
Definition valid_content (c : list Z) : Prop :=
  (2 ≤ length c)%nat ∧ Forall (λ x, 1 ≤ x) c.

(** ** The list of the object *)

(** The strict lexicographic order on sequences of symbols. *)
Inductive lex : list Z → list Z → Prop :=
  | lex_nil y ys : lex [] (y :: ys)
  | lex_head x y xs ys : x < y → lex (x :: xs) (y :: ys)
  | lex_tail x xs ys : lex xs ys → lex (x :: xs) (x :: ys).

(** The constructor on a list of integers. *)
Definition Bracelets_of (c : list Z) : res Bracelets.t :=
  Bracelets_init (AList (PInt <$> c)).

(** ** The ring read through its links *)

(** The symbols reached from [j] by following [next], up to the
    sentinel (index [-1]). *)
Fixpoint walk (fuel : nat) (nxt : list Z) (j : Z) : list Z :=
  match fuel with
  | O => []
  | S fuel' =>
      if j <? 0 then []
      else match getitem nxt j with
           | Ok j' => j :: walk fuel' nxt j'
           | _ => [j]
           end
  end.

(** The traversal order of the ring: from [head()] along [next]. *)
Definition traversal (d : DLL) : list Z :=
  walk (length (next d)) (next d) (head d).

(** Symbol [s] has a positive remaining count. *)
Definition available (d : DLL) (s : Z) : Prop :=
  0 ≤ s ∧ ∃ x, n d !! Z.to_nat s = Some x ∧ 0 < x.

(** The ring holds the available symbols, and its head is the largest
    of them. *)
Record ring_sound (d : DLL) : Prop := mkSound {
  sound_members : ∀ s, s ∈ traversal d ↔ available d s;
  sound_head_max : ∀ s, available d s → s ≤ head d;
  sound_head_in : traversal d ≠ [] → available d (head d);
  sound_desc : StronglySorted (λ x y, y < x) (traversal d)
}.

(** ** Validation errors *)

(** The outcome is a [TypeError] or a [ValueError], raised by a check of
    the constructors or by the interpreter. *)
Definition type_or_value_error {A} (r : res A) : bool :=
  match r with
  | Raise TypeError | Raise (Invalid _ _) => true
  | _ => false
  end.

(** An entry that is an integer: an [int], a [long] or a [bool]. *)
Definition integral (v : pyval) : bool :=
  match v with
  | PInt _ | PLong _ | PBool _ => true
  | _ => false
  end.

(** The object of the unit tests: content [[3, 4, 5]] with labels. *)
Definition isomers_3_4_5 : res Isomers.t :=
  Isomers.init (AList [PInt 3; PInt 4; PInt 5])
               (EList ["VSe2"; "SnSe"; "SnSe2"]%string).

(** The keys that an iteration over the live dict of the renaming loop
    can yield: every yielded key is in the dict at that moment. *)
Fixpoint yields_ok (els : list string) (d : list (string * cval))
    (visits : list string) : bool :=
  match visits with
  | [] => true
  | key :: rest =>
      match Isomers.dict_get d key, Isomers._transform_to_letter els key with
      | Some val, Ok newkey =>
          yields_ok els (Isomers.dict_set (Isomers.dict_pop d key) newkey val) rest
      | Some _, _ => true
      | None, _ => false
      end
  end.

(** The iterator of a dict that is not empty yields a key at its first
    step, and it yields keys of the dict only. *)
Definition valid_visits (els : list string) (d : list (string * cval))
    (visits : list string) : bool :=
  match d, visits with
  | _ :: _, [] => false
  | _, _ => yields_ok els d visits
  end.

(** The labels of the unit tests. *)
Definition labels_3_4_5 : list string := ["VSe2"; "SnSe"; "SnSe2"]%string.

(** ** Sequences of [remove] and [add] *)

(** [dll.remove(j)] for each [j] of [js], in order. *)
Fixpoint remove_all (js : list Z) (d : DLL) : res DLL :=
  match js with
  | [] => Ok d
  | j :: js' => res_bind (remove j d) (remove_all js')
  end.

(** [dll.add(j)] for each [j] of [js], in order. *)
Fixpoint add_all (js : list Z) (d : DLL) : res DLL :=
  match js with
  | [] => Ok d
  | j :: js' => res_bind (add j d) (add_all js')
  end.

(** ** Letters *)

(** The letter of a symbol: [chr(65 + v)]. *)
Definition letter_of (v : Z) : ascii := ascii_of_nat (65 + Z.to_nat v).

(** ** Isomer strings, formulas and conditions *)

(** The labelled runs of one bracelet, as [_as_tuples] builds them. *)
Definition label_runs (els : list string) (brac : list (Z * Z))
    : res (list (string * Z)) :=
  res_map (λ '(s, c), res_bind (getitem els s) (λ e, Ok (e, c))) brac.

(** The integer printed for an entry of the composition. *)
Definition int_value (v : pyval) : Z :=
  match as_number v with Some z => z | None => 0 end.

(** The formula: one piece [(label)count] per entry, in order. *)
Definition formula_of (els : list string) (l : list pyval) : string :=
  foldr String.append EmptyString
    (zip_with (λ e v, "(" ++ e ++ ")" ++ str_int (int_value v))%string els l).

(** The value [True] written as the pair [(1, 0)]. *)
Definition true_as_pair (v : cval) : cval :=
  match v with VBool true => VPair 1 0 | _ => v end.

Definition dict_true_as_pair (d : list (string * cval)) : list (string * cval) :=
  (λ '(k, v), (k, true_as_pair v)) <$> d.

(** An interface condition that no isomer can fail: an integer or a
    pair without a positive bound. *)
Definition no_bound (v : cval) : Prop :=
  match v with
  | VInt z => z ≤ 0
  | VPair lo hi => lo ≤ 0 ∧ hi ≤ 0
  | VBool _ => False
  end.

(** The same after [get_isomer_subset] has turned the integers into
    pairs. *)
Definition no_bound_pair (v : cval) : Prop :=
  ∃ lo hi, v = VPair lo hi ∧ lo ≤ 0 ∧ hi ≤ 0.

(** The label of a symbol. *)
Definition label_of (els : list string) (s : Z) : string :=
  default EmptyString (els !! Z.to_nat s).

(** The isomer string of a run-length form under the labels [els]. *)
Definition isomer_string (els : list string) (runs : list (Z * Z)) : string :=
  Isomers.join_runs ((λ '(s, n), (label_of els s, n)) <$> runs).

(** * Verification *)

(** ** Python list access *)

Lemma norm_index_nonneg len i :
  0 ≤ i < Z.of_nat len → norm_index len i = Some (Z.to_nat i).
Proof.
  intros [H1 H2]. unfold norm_index.
  destruct (Z.leb_spec 0 i); [|lia]. destruct (Z.ltb_spec i (Z.of_nat len)); [done|lia].
Qed.

Lemma norm_index_m1 len : (0 < len)%nat → norm_index len (-1) = Some (len - 1)%nat.
Proof.
  intros H. unfold norm_index. simpl (0 <=? -1).
  destruct (Z.leb_spec (- Z.of_nat len) (-1)); [|lia]. f_equal. lia.
Qed.

Lemma getitem_nonneg {A} (l : list A) i x :
  0 ≤ i → l !! Z.to_nat i = Some x → getitem l i = Ok x.
Proof.
  intros Hi Hl. unfold getitem. rewrite norm_index_nonneg, Hl; [done|].
  apply lookup_lt_Some in Hl. lia.
Qed.

Lemma getitem_m1 {A} (l : list A) x :
  l !! (length l - 1)%nat = Some x → getitem l (-1) = Ok x.
Proof.
  intros Hl. unfold getitem. rewrite norm_index_m1, Hl; [done|].
  apply lookup_lt_Some in Hl. lia.
Qed.

Lemma setitem_nonneg {A} (l : list A) i x :
  0 ≤ i < Z.of_nat (length l) → setitem l i x = Ok (<[Z.to_nat i := x]> l).
Proof. intros Hi. unfold setitem. by rewrite norm_index_nonneg. Qed.

Lemma setitem_m1 {A} (l : list A) x :
  (0 < length l)%nat → setitem l (-1) x = Ok (<[(length l - 1)%nat := x]> l).
Proof. intros Hi. unfold setitem. by rewrite norm_index_m1. Qed.

Lemma getitem_Ok_lookup {A} (l : list A) i x :
  getitem l i = Ok x → 0 ≤ i → l !! Z.to_nat i = Some x.
Proof.
  unfold getitem, norm_index. intros H Hi.
  destruct (Z.leb_spec 0 i); [|lia].
  destruct (Z.ltb_spec i (Z.of_nat (length l))); [|done].
  destruct (l !! Z.to_nat i); congruence.
Qed.

(** ** The ring of available symbols *)

Lemma dll_equiv_refl K d : dll_equiv K d d.
Proof. by split. Qed.

Lemma dll_equiv_sym K d d' : dll_equiv K d d' → dll_equiv K d' d.
Proof. intros []. by split. Qed.

Lemma dll_equiv_trans K d1 d2 d3 :
  dll_equiv K d1 d2 → dll_equiv K d2 d3 → dll_equiv K d1 d3.
Proof. intros [] []. split; congruence. Qed.

Lemma take_lookup_eq {A} (K : nat) (l l' : list A) (i : nat) :
  take K l = take K l' → (i < K)%nat → l !! i = l' !! i.
Proof.
  intros H Hi. rewrite <- (lookup_take_lt l K i), <- (lookup_take_lt l' K i) by done.
  by rewrite H.
Qed.

Lemma chain_bounds nxt prv p av s : chain nxt prv p av → s ∈ av → 0 ≤ s < p.
Proof.
  revert p. induction av as [|x av IH]; intros p Hc Hs; [by apply elem_of_nil in Hs|].
  destruct Hc as (Hx & _ & _ & Hc). apply elem_of_cons in Hs as [->|Hs]; [done|].
  specialize (IH _ Hc Hs). lia.
Qed.

Lemma chain_frame nxt prv nxt' prv' p av :
  chain nxt prv p av →
  (∀ s, 0 ≤ s < p → nxt' !! Z.to_nat s = nxt !! Z.to_nat s) →
  (∀ s, 0 ≤ s < p → prv' !! Z.to_nat s = prv !! Z.to_nat s) →
  chain nxt' prv' p av.
Proof.
  revert p. induction av as [|x av IH]; intros p Hc Hn Hp; [done|].
  destruct Hc as (Hx & H1 & H2 & Hc). simpl. rewrite Hn, Hp by done.
  split_and!; try done; try lia.
  apply IH; [done|intros; apply Hn; lia|intros; apply Hp; lia].
Qed.

Lemma ring_equiv K av d d' : ring K av d → dll_equiv K d d' → ring K av d'.
Proof.
  intros [] []. split; try congruence.
  eapply chain_frame; [done|..]; intros s Hs; symmetry;
    eapply take_lookup_eq; eauto; lia.
Qed.

Lemma last_cons_def {A} (x p : A) l : List.last (x :: l) p = List.last l x.
Proof.
  revert x p. induction l as [|y l IH]; intros x p; [reflexivity|].
  change (List.last (x :: y :: l) p) with (List.last (y :: l) p).
  rewrite (IH y p), (IH y x). reflexivity.
Qed.

Lemma last_elem_of {A} (l : list A) d : l ≠ [] → List.last l d ∈ l.
Proof.
  induction l as [|x l IH]; [done|]. intros _. rewrite last_cons_def.
  destruct l as [|y l]; [simpl; apply elem_of_cons; by left|].
  apply elem_of_cons; right.
  rewrite (last_cons_def y x), <- (last_cons_def y d). by apply IH.
Qed.

Lemma chain_lookup nxt prv p av1 j av2 :
  chain nxt prv p (av1 ++ j :: av2) →
  nxt !! Z.to_nat j = Some (hd (-1) av2) ∧
  prv !! Z.to_nat j = Some (List.last av1 p) ∧
  0 ≤ j < List.last av1 p ∧ List.last av1 p ≤ p ∧ chain nxt prv j av2.
Proof.
  revert p. induction av1 as [|x av1 IH]; intros p Hc.
  - destruct Hc as (Hx & H1 & H2 & Hc). simpl. split_and!; try done; lia.
  - destruct Hc as (Hx & H1 & H2 & Hc). specialize (IH _ Hc).
    rewrite last_cons_def.
    destruct IH as (? & ? & ? & ? & ?). split_and!; try done; lia.
Qed.

Lemma chain_hd_bound nxt prv p av :
  chain nxt prv p av → 0 ≤ p → -1 ≤ hd (-1) av < p.
Proof. destruct av; simpl; [lia|]. intros (? & _). lia. Qed.

Lemma chain_hd_ge nxt prv p av s : chain nxt prv p av → s ∈ av → s ≤ hd (-1) av.
Proof.
  intros Hc Hs. destruct av as [|x av]; [by apply elem_of_nil in Hs|].
  simpl. destruct Hc as (_ & _ & _ & Hc). apply elem_of_cons in Hs as [->|Hs]; [lia|].
  pose proof (chain_bounds _ _ _ _ _ Hc Hs). lia.
Qed.

Lemma chain_remove (K : nat) nxt prv p av1 j av2 :
  chain nxt prv p (av1 ++ j :: av2) → p ≤ Z.of_nat K →
  length nxt = S K → length prv = S K →
  chain (<[Z.to_nat (List.last av1 p) := hd (-1) av2]> nxt)
        (<[sentinel_index K (hd (-1) av2) := List.last av1 p]> prv)
        p (av1 ++ av2).
Proof.
  intros Hc Hp Hln Hlp. revert p Hc Hp. induction av1 as [|x av1 IH]; intros p Hc Hp.
  - destruct Hc as (Hx & H1 & H2 & Hc). simpl.
    destruct av2 as [|y av2]; [done|].
    destruct Hc as (Hy & H3 & H4 & Hc). simpl.
    unfold sentinel_index. destruct (Z.ltb_spec y 0); [lia|].
    rewrite list_lookup_insert_ne by lia.
    rewrite list_lookup_insert_eq by lia.
    split_and!; try done; try lia.
    eapply chain_frame; [done|..]; intros s Hs;
      rewrite list_lookup_insert_ne; auto; lia.
  - destruct Hc as (Hx & H1 & H2 & Hc).
    rewrite last_cons_def.
    pose proof (chain_lookup _ _ _ _ _ _ Hc) as (Hj1 & Hj2 & Hj3 & Hj4 & Hc2).
    pose proof (chain_hd_bound _ _ _ _ Hc2 ltac:(lia)) as Hb.
    specialize (IH x Hc ltac:(lia)).
    simpl. split_and!; [lia|lia| | |done].
    + destruct av1 as [|y av1].
      * simpl. rewrite list_lookup_insert_eq; [done|lia].
      * assert (List.last (y :: av1) x ≠ x).
        { assert (List.last (y :: av1) x ∈ (y :: av1) ++ j :: av2) as Hin
            by (apply elem_of_app; left; by apply last_elem_of).
          pose proof (chain_bounds _ _ _ _ _ Hc Hin). lia. }
        rewrite list_lookup_insert_ne by lia. done.
    + rewrite list_lookup_insert_ne; [done|].
      unfold sentinel_index. destruct (Z.ltb_spec (hd (-1) av2) 0); lia.
Qed.

Lemma remove_eq K j d p nx :
  length (next d) = S K → length (prev d) = S K →
  next d !! Z.to_nat j = Some nx → prev d !! Z.to_nat j = Some p →
  0 ≤ j → 0 ≤ p ≤ Z.of_nat K → -1 ≤ nx < Z.of_nat K →
  remove j d = Ok (removed K j d p nx).
Proof.
  intros Hln Hlp Hn Hp Hj Hpb Hnb. unfold remove.
  rewrite (getitem_nonneg _ _ _ Hj Hn).
  assert (res_bind (if j =? _head d then res_bind (Ok nx) (λ nj, Ok (set_head d nj)) else Ok d)
    = res_bind (Ok (set_head d (if j =? _head d then nx else _head d)))) as ->.
  { destruct (j =? _head d); simpl; [done|]. by destruct d. }
  simpl. rewrite (getitem_nonneg _ _ _ Hj Hn). simpl.
  rewrite (getitem_nonneg _ _ _ Hj Hp). simpl.
  rewrite setitem_nonneg by lia. simpl.
  unfold removed, sentinel_index. destruct (Z.ltb_spec nx 0).
  - assert (nx = -1) as -> by lia. rewrite setitem_m1 by lia. simpl.
    rewrite Hlp. replace (S K - 1)%nat with K by lia. done.
  - rewrite setitem_nonneg by (simpl; lia). done.
Qed.

Lemma ring_remove K av1 j av2 d :
  ring K (av1 ++ j :: av2) d →
  ring K (av1 ++ av2)
    (removed K j d (List.last av1 (Z.of_nat K)) (hd (-1) av2)).
Proof.
  intros [H1 H2 H3 H4 H5].
  pose proof (chain_lookup _ _ _ _ _ _ H5) as (Hj1 & Hj2 & Hj3 & Hj4 & Hc2).
  split; simpl; try done.
  - by rewrite length_insert.
  - by rewrite length_insert.
  - rewrite H4. destruct av1 as [|x av1]; simpl.
    + by rewrite Z.eqb_refl.
    + destruct (Z.eqb_spec j x); [|done]. subst.
      destruct H5 as (_ & _ & _ & H5).
      assert (x ∈ av1 ++ x :: av2) as Hin by (apply elem_of_app; right; left).
      pose proof (chain_bounds _ _ _ _ _ H5 Hin). lia.
  - apply (chain_remove K _ _ _ av1 j av2); try done.
Qed.

Lemma remove_ring K av1 j av2 d :
  ring K (av1 ++ j :: av2) d →
  remove j d = Ok (removed K j d (List.last av1 (Z.of_nat K)) (hd (-1) av2)).
Proof.
  intros [H1 H2 H3 H4 H5].
  pose proof (chain_lookup _ _ _ _ _ _ H5) as (Hj1 & Hj2 & Hj3 & Hj4 & Hc2).
  pose proof (chain_hd_bound _ _ _ _ Hc2 ltac:(lia)).
  apply remove_eq; try done; lia.
Qed.

(** [add(j)] undoes [remove(j)], also after changes that are undone
    up to the sentinel's links. *)
Lemma add_restore K av1 j av2 d d1 :
  ring K (av1 ++ j :: av2) d →
  dll_equiv K (removed K j d (List.last av1 (Z.of_nat K)) (hd (-1) av2)) d1 →
  ∃ d2, add j d1 = Ok d2 ∧ n d2 = n d1 ∧
        dll_equiv K (set_n d (n d1)) d2.
Proof.
  intros [H1 H2 H3 H4 H5] [E1 E2 E3 E4 E5 E6 E7 E8]. simpl in *.
  rewrite length_insert in E5, E6.
  pose proof (chain_lookup _ _ _ _ _ _ H5) as (Hj1 & Hj2 & Hj3 & Hj4 & Hc2).
  pose proof (chain_hd_bound _ _ _ _ Hc2 ltac:(lia)) as Hb.
  set (p := List.last av1 (Z.of_nat K)) in *. set (nx := hd (-1) av2) in *.
  assert (next d1 !! Z.to_nat j = Some nx) as Hn1.
  { rewrite <- (take_lookup_eq K _ _ _ E7) by lia.
    rewrite list_lookup_insert_ne by lia. done. }
  assert (prev d1 !! Z.to_nat j = Some p) as Hp1.
  { rewrite <- (take_lookup_eq K _ _ _ E8) by lia.
    rewrite list_lookup_insert_ne; [done|].
    unfold sentinel_index. destruct (Z.ltb_spec nx 0); lia. }
  unfold add.
  rewrite (getitem_nonneg _ _ _ (proj1 Hj3) Hn1). simpl.
  rewrite (getitem_nonneg _ _ _ (proj1 Hj3) Hp1). simpl.
  assert (setitem (prev d1) nx j = Ok (<[sentinel_index K nx := j]> (prev d1))) as ->.
  { unfold sentinel_index. destruct (Z.ltb_spec nx 0).
    - assert (nx = -1) as -> by lia. rewrite setitem_m1 by lia.
      rewrite <- E6, H3. replace (S K - 1)%nat with K by lia. done.
    - rewrite setitem_nonneg by lia. done. }
  simpl. rewrite setitem_nonneg by lia. simpl.
  assert (getitem (<[sentinel_index K nx:=j]> (prev d1)) j = Ok p) as ->.
  { apply getitem_nonneg; [lia|]. rewrite list_lookup_insert_ne; [done|].
    unfold sentinel_index. destruct (Z.ltb_spec nx 0); lia. }
  simpl.
  assert (take K (<[Z.to_nat p:=j]> (next d1)) = take K (next d)) as Hnext.
  { destruct (decide (Z.to_nat p < K)%nat) as [Hlt|Hge].
    - rewrite take_insert_lt by done. rewrite <- E7.
      rewrite take_insert_lt by done. rewrite list_insert_insert_eq.
      rewrite <- take_insert_lt by done. f_equal. apply list_insert_id.
      destruct av1 as [|x av1] using rev_ind; [simpl in *; subst p; lia|].
      clear IHav1. subst p. rewrite last_last in *.
      rewrite <- app_assoc in H5. simpl in H5.
      by pose proof (chain_lookup _ _ _ _ _ _ H5) as (-> & _).
    - rewrite take_insert_ge by lia. rewrite <- E7. rewrite take_insert_ge by lia. done. }
  assert (take K (<[sentinel_index K nx:=j]> (prev d1)) = take K (prev d)) as Hprev.
  { destruct (decide (sentinel_index K nx < K)%nat) as [Hlt|Hge].
    - rewrite take_insert_lt by done. rewrite <- E8.
      rewrite take_insert_lt by done. rewrite list_insert_insert_eq.
      rewrite <- take_insert_lt by done. f_equal. apply list_insert_id.
      unfold sentinel_index in *. destruct (Z.ltb_spec nx 0); [lia|].
      destruct av2 as [|y av2]; [simpl in *; subst nx; lia|].
      simpl in *. subst nx. by destruct Hc2 as (_ & _ & -> & _).
    - rewrite take_insert_ge by lia. rewrite <- E8. rewrite take_insert_ge by lia. done. }
  assert (_head d = if p =? Z.of_nat K then j else _head d1) as Hhead.
  { rewrite <- E4, H4. destruct av1 as [|x av1] using rev_ind.
    - simpl in *. subst p. rewrite !Z.eqb_refl. done.
    - clear IHav1. subst p. rewrite last_last in *.
      assert (x ∈ (av1 ++ [x]) ++ j :: av2) as Hin
        by (apply elem_of_app; left; apply elem_of_app; right; left).
      pose proof (chain_bounds _ _ _ _ _ H5 Hin).
      destruct (Z.eqb_spec x (Z.of_nat K)); [lia|].
      assert (hd (-1) ((av1 ++ [x]) ++ j :: av2) ≠ j).
      { pose proof (chain_hd_ge _ _ _ _ _ H5 Hin). lia. }
      destruct (Z.eqb_spec j (hd (-1) ((av1 ++ [x]) ++ j :: av2))); [congruence|done]. }
  rewrite <- E2, H1.
  destruct (Z.eqb_spec p (Z.of_nat K)) as [Hpk|Hpk].
  - eexists. split; [done|]. split; [done|]. split; simpl; try done; try congruence.
    all: rewrite ?length_insert; congruence.
  - eexists. split; [done|]. split; [done|]. split; simpl; try done; try congruence.
    all: rewrite ?length_insert; congruence.
Qed.

Lemma hd_desc m : hd (-1) (desc m) = Z.of_nat m - 1.
Proof. destruct m; simpl; lia. Qed.

Lemma elem_of_desc m s : s ∈ desc m ↔ 0 ≤ s < Z.of_nat m.
Proof.
  induction m as [|m IH]; simpl.
  - rewrite elem_of_nil. lia.
  - rewrite elem_of_cons, IH. lia.
Qed.

Lemma init_lookup_next (K : nat) (s : Z) :
  0 ≤ s ≤ Z.of_nat K →
  ((λ i, i - 1) <$> range (Z.of_nat K + 1)) !! Z.to_nat s = Some (s - 1).
Proof.
  intros Hs. unfold range. rewrite list_lookup_fmap, lookup_seqZ_lt by lia.
  simpl. f_equal. lia.
Qed.

Lemma init_lookup_prev (K : nat) (s : Z) :
  0 ≤ s ≤ Z.of_nat K →
  ((λ i, i + 1) <$> range (Z.of_nat K + 1)) !! Z.to_nat s = Some (s + 1).
Proof.
  intros Hs. unfold range. rewrite list_lookup_fmap, lookup_seqZ_lt by lia.
  simpl. f_equal. lia.
Qed.

Lemma ring_init (c : list Z) : ring (length c) (desc (length c)) (init c).
Proof.
  set (K := length c). split; simpl; fold K.
  - done.
  - unfold range. rewrite length_fmap, length_seqZ. lia.
  - unfold range. rewrite length_fmap, length_seqZ. lia.
  - by rewrite hd_desc.
  - assert (∀ m, (m ≤ K)%nat →
      chain ((λ i, i - 1) <$> range (Z.of_nat K + 1))
            ((λ i, i + 1) <$> range (Z.of_nat K + 1)) (Z.of_nat m) (desc m)) as H.
    { induction m as [|m IH]; intros Hm; [done|]. simpl.
      rewrite init_lookup_next, init_lookup_prev, hd_desc by lia.
      split_and!; try lia; try (f_equal; lia). apply IH. lia. }
    by apply H.
Qed.

(** ** Run-length encodings *)

Lemma rle_snoc_app init s l j :
  rle_snoc (init ++ [(s, l)]) j =
  init ++ (if s =? j then [(s, l + 1)] else [(s, l); (j, 1)]).
Proof.
  induction init as [|x init IH]; [done|].
  simpl. rewrite IH. destruct (init ++ [(s, l)]) eqn:E; [by destruct init|].
  by destruct x.
Qed.

Lemma rle_app pre j : rle (pre ++ [j]) = rle_snoc (rle pre) j.
Proof. unfold rle. by rewrite foldl_app. Qed.

Lemma rle_snoc_nonempty runs j : rle_snoc runs j ≠ [].
Proof.
  destruct runs as [|[s l] [|y r]]; simpl; try done. by destruct (s =? j).
Qed.

Lemma rle_nonempty pre : pre ≠ [] → rle pre ≠ [].
Proof.
  destruct pre as [|x pre] using rev_ind; [done|]. intros _.
  rewrite rle_app. apply rle_snoc_nonempty.
Qed.

Lemma length_lenenc_of runs : length (lenenc_of runs) = S (length runs).
Proof. unfold lenenc_of. simpl. by rewrite length_fmap. Qed.

Arguments lenenc_of : simpl never.
Arguments getitem : simpl never.
Arguments setitem : simpl never.

Lemma lookup_snoc_last {A} (l : list A) x :
  (l ++ [x]) !! (length (l ++ [x]) - 1)%nat = Some x.
Proof.
  rewrite length_app. simpl. apply list_lookup_middle. lia.
Qed.

Lemma insert_snoc_last {A} (l : list A) x y :
  <[(length (l ++ [x]) - 1)%nat := y]> (l ++ [x]) = l ++ [y].
Proof.
  rewrite length_app. simpl.
  replace (length l + 1 - 1)%nat with (length l + 0)%nat by lia.
  by rewrite insert_app_r.
Qed.

Lemma lenenc_of_app init x :
  lenenc_of (init ++ [x]) =
  (Cnt (Z.of_nat (length init) + 1) :: (run_item <$> init)) ++ [run_item x].
Proof.
  unfold lenenc_of. rewrite length_app, fmap_app. simpl. do 2 f_equal. lia.
Qed.

Lemma getitem_lenenc runs i x :
  1 ≤ i → runs !! Z.to_nat (i - 1) = Some x →
  getitem (lenenc_of runs) i = Ok (run_item x).
Proof.
  intros Hi Hx. apply getitem_nonneg; [lia|].
  replace (Z.to_nat i) with (S (Z.to_nat (i - 1))) by lia.
  unfold lenenc_of. simpl. by rewrite list_lookup_fmap, Hx.
Qed.

Lemma getitem_lenenc_0 runs :
  getitem (lenenc_of runs) 0 = Ok (Cnt (Z.of_nat (length runs))).
Proof. by apply getitem_nonneg. Qed.

Lemma update_run_length_spec runs j :
  runs ≠ [] →
  update_run_length j (lenenc_of runs) = Ok (lenenc_of (rle_snoc runs j)).
Proof.
  intros Hne. destruct runs as [|[s l] init _] using rev_ind; [done|].
  rewrite rle_snoc_app. unfold update_run_length.
  rewrite (getitem_m1 _ (Run s l)) by (rewrite lenenc_of_app; apply lookup_snoc_last).
  simpl. destruct (Z.eqb_spec s j) as [->|Hsj].
  - rewrite setitem_m1 by (rewrite length_lenenc_of; lia).
    rewrite !lenenc_of_app, insert_snoc_last. done.
  - unfold lenenc_of. rewrite !length_app, !fmap_app. simpl.
    rewrite <- app_assoc. simpl. do 2 f_equal. f_equal. lia.
Qed.

Lemma runs_pos_snoc runs j : runs_pos runs → runs_pos (rle_snoc runs j).
Proof.
  unfold runs_pos. destruct runs as [|[s l] init _] using rev_ind.
  - intros _. simpl. by repeat constructor.
  - intros Hpos. destruct (proj1 (Forall_app _ _ _) Hpos) as [H1 H2].
    rewrite rle_snoc_app. apply Forall_app. split; [done|].
    apply Forall_inv in H2. simpl in H2.
    destruct (s =? j); repeat constructor; simpl; lia.
Qed.

Lemma runs_pos_rle pre : runs_pos (rle pre).
Proof.
  induction pre as [|x pre IH] using rev_ind; [constructor|].
  rewrite rle_app. by apply runs_pos_snoc.
Qed.

Lemma restore_run_length_spec runs j :
  runs ≠ [] → runs_pos runs →
  restore_run_length (lenenc_of (rle_snoc runs j)) = Ok (lenenc_of runs).
Proof.
  intros Hne Hpos. destruct runs as [|[s l] init _] using rev_ind; [done|].
  destruct (proj1 (Forall_app _ _ _) Hpos) as [_ Hpos'].
  apply Forall_inv in Hpos'. simpl in Hpos'.
  rewrite rle_snoc_app. unfold restore_run_length.
  destruct (Z.eqb_spec s j) as [->|Hsj].
  - rewrite (getitem_m1 _ (Run j (l + 1))) by (rewrite lenenc_of_app; apply lookup_snoc_last).
    simpl. destruct (Z.eqb_spec (l + 1) 1); [lia|].
    rewrite setitem_m1 by (rewrite length_lenenc_of; lia).
    rewrite !lenenc_of_app, insert_snoc_last. do 3 f_equal.
    unfold run_item. simpl. f_equal. lia.
  - change [(s, l); (j, 1)] with ([(s, l)] ++ [(j, 1)]). rewrite app_assoc.
    rewrite (getitem_m1 _ (Run j 1)) by (rewrite lenenc_of_app; apply lookup_snoc_last).
    cbn [res_bind item1 item0]. rewrite Z.eqb_refl, getitem_lenenc_0.
    cbn [res_bind item_int].
    rewrite setitem_nonneg by (rewrite length_lenenc_of; lia). cbn [res_bind].
    rewrite (lenenc_of_app (init ++ [(s, l)])).
    change (<[Z.to_nat 0:=?c]> ((?a :: ?l) ++ ?y)) with ((c :: l) ++ y).
    rewrite removelast_last. unfold lenenc_of. do 3 f_equal.
    rewrite !length_app. simpl. lia.
Qed.

Lemma run_item_inj x y : run_item x = run_item y → x = y.
Proof. destruct x, y. unfold run_item. simpl. congruence. Qed.

Lemma item_eqb_run x y : item_eqb (run_item x) (run_item y) = true → x = y.
Proof.
  destruct x as [s l], y as [s' l']. unfold run_item. simpl.
  intros [H1 H2]%andb_prop. apply Z.eqb_eq in H1, H2. congruence.
Qed.

Lemma lookup_runs (runs : list (Z * Z)) i :
  1 ≤ i ≤ Z.of_nat (length runs) → ∃ x, runs !! Z.to_nat (i - 1) = Some x.
Proof.
  intros Hi. destruct (runs !! Z.to_nat (i - 1)) eqn:E; [eauto|].
  apply lookup_ge_None in E. lia.
Qed.

Lemma check_rev_loop_spec runs fuel i :
  let m := Z.of_nat (length runs) in
  1 ≤ i → 2 * i ≤ m + 2 → i ≤ m → m + 2 - 2 * i < 2 * Z.of_nat fuel →
  ∃ i', check_rev_loop fuel (lenenc_of runs) m i = Ok i' ∧
        i ≤ i' ∧ 2 * i' ≤ m + 2 ∧ i' ≤ m ∧
        (i < i' → runs !! Z.to_nat (i - 1) = runs !! Z.to_nat (m - i)).
Proof.
  intros m. revert i. induction fuel as [|fuel IH]; intros i H1 H2 H3 H4; [lia|].
  destruct (lookup_runs runs i) as [x Hx]; [lia|].
  destruct (lookup_runs runs (m - i + 1)) as [y Hy]; [lia|].
  cbn [check_rev_loop].
  assert (1 ≤ m - i + 1) as H5 by lia.
  rewrite (getitem_lenenc _ _ _ H1 Hx), (getitem_lenenc _ _ _ H5 Hy).
  cbn [res_bind].
  destruct (item_eqb (run_item x) (run_item y)) eqn:Heq; cbn [andb].
  - destruct (Z.leb_spec (2 * i) m).
    + destruct (IH (i + 1)) as (i' & E & ? & ? & ? & ?); try lia.
      exists i'. split_and!; try done; try lia.
      intros _. apply item_eqb_run in Heq. subst y. rewrite Hx, <- Hy.
      f_equal. lia.
    + exists i. split_and!; try done; lia.
  - exists i. split_and!; try done; lia.
Qed.

Lemma check_rev_spec runs :
  runs ≠ [] →
  ∃ c, check_rev (lenenc_of runs) = Ok c ∧ (c = 0 ∨ c = 1 ∨ c = -1) ∧
       (length runs = 1%nat → c = 0) ∧
       (c = 0 → (2 ≤ length runs)%nat → runs !! 0%nat = runs !! (length runs - 1)%nat).
Proof.
  intros Hne. set (m := Z.of_nat (length runs)).
  assert (1 ≤ m) as Hm by (destruct runs; [done|simpl in *; lia]).
  unfold check_rev. rewrite getitem_lenenc_0. cbn [res_bind item_int]. fold m.
  destruct (check_rev_loop_spec runs (S (Z.to_nat m)) 1) as (i & E & Hi1 & Hi2 & Hi3 & Hi4);
    try (fold m; lia).
  fold m in E, Hi2, Hi3, Hi4. rewrite E. cbn [res_bind].
  destruct (Z.gtb_spec (2 * i) m) as [Hgt|Hle].
  - exists 0. split_and!; try done; [by left|].
    intros _ Hlen. assert (1 < i) as Hlt by lia. specialize (Hi4 Hlt).
    change (Z.to_nat (1 - 1)) with 0%nat in Hi4. rewrite Hi4. f_equal. lia.
  - destruct (lookup_runs runs i) as [[x0 x1] Hx]; [lia|].
    destruct (lookup_runs runs (m - i + 1)) as [[y0 y1] Hy]; [lia|].
    destruct (lookup_runs runs (i + 1)) as [[u0 u1] Hu]; [lia|].
    destruct (lookup_runs runs (m - i)) as [[w0 w1] Hw]; [lia|].
    assert (1 ≤ m - i + 1) as H5 by lia.
    assert (1 ≤ i + 1) as H6 by lia.
    assert (1 ≤ m - i) as H7 by lia.
    rewrite (getitem_lenenc _ _ _ Hi1 Hx), (getitem_lenenc _ _ _ H5 Hy).
    cbn [res_bind item0 item1 run_item fst snd].
    assert (∀ c, (c = 1 ∨ c = -1) →
      ∃ c0, Ok c = Ok c0 ∧ (c0 = 0 ∨ c0 = 1 ∨ c0 = -1) ∧
        (length runs = 1%nat → c0 = 0) ∧
        (c0 = 0 → (2 ≤ length runs)%nat → runs !! 0%nat = runs !! (length runs - 1)%nat)) as Hfin.
    { intros c Hc. exists c. split_and!; [done|lia|lia|lia]. }
    destruct (x0 <? y0); [apply Hfin; lia|].
    destruct (x0 >? y0); [apply Hfin; lia|].
    destruct (x1 <? y1).
    + rewrite (getitem_lenenc _ _ _ H6 Hu).
      cbn [res_bind item0 item1 run_item fst snd int_lt_item]. apply Hfin; lia.
    + cbn [res_bind]. destruct (x1 >? y1).
      * rewrite (getitem_lenenc _ _ _ H7 Hw).
        cbn [res_bind item0 item1 run_item fst snd].
        destruct (x0 <? w0); apply Hfin; lia.
      * cbn [res_bind]. apply Hfin; lia.
Qed.

(** ** Words: leading zeros, windows of zeros, periods *)

Lemma lz_le l : (lz l ≤ length l)%nat.
Proof. induction l as [|x l IH]; simpl; [lia|]. destruct (x =? 0); lia. Qed.

Lemma lz_lookup_lt l i : (i < lz l)%nat → l !! i = Some 0.
Proof.
  revert i. induction l as [|x l IH]; intros i; simpl; [lia|].
  destruct (Z.eqb_spec x 0); [|lia]. subst. destruct i; [done|].
  intros. apply IH. lia.
Qed.

Lemma lz_lookup_eq l : (lz l < length l)%nat → ∃ v, l !! lz l = Some v ∧ v ≠ 0.
Proof.
  induction l as [|x l IH]; simpl; [lia|].
  destruct (Z.eqb_spec x 0); [|by eauto]. intros. apply IH. lia.
Qed.

Lemma lz_all l : (∀ i v, l !! i = Some v → v = 0) → lz l = length l.
Proof.
  induction l as [|x l IH]; intros H; [done|]. simpl.
  rewrite (H 0%nat x eq_refl). simpl. f_equal. apply IH.
  intros i v Hi. by apply (H (S i)).
Qed.

Lemma lz_app_short l j : (lz l < length l)%nat → lz (l ++ [j]) = lz l.
Proof.
  induction l as [|x l IH]; simpl; [lia|].
  destruct (x =? 0); [|done]. intros. f_equal. apply IH. lia.
Qed.

Lemma lz_app_full l j :
  lz l = length l → lz (l ++ [j]) = if j =? 0 then S (length l) else length l.
Proof.
  induction l as [|x l IH]; simpl.
  - by destruct (j =? 0).
  - destruct (x =? 0); [|done]. intros Hl. rewrite IH by lia. by destruct (j =? 0).
Qed.

Lemma lz_app_nonzero l j : j ≠ 0 → lz (l ++ [j]) = lz l.
Proof.
  intros Hj. pose proof (lz_le l).
  destruct (decide (lz l = length l)) as [E|E].
  - rewrite lz_app_full by done. destruct (Z.eqb_spec j 0); [done|]. done.
  - apply lz_app_short. lia.
Qed.

Lemma window_zero_or_not (pre : list Z) (i : nat) :
  (∀ x, (i ≤ x < length pre)%nat → pre !! x = Some 0) ∨
  (∃ x v, (i ≤ x < length pre)%nat ∧ pre !! x = Some v ∧ v ≠ 0).
Proof.
  destruct (decide (Forall (λ v, v = 0) (drop i pre))) as [H|H].
  - left. intros x Hx. rewrite Forall_lookup in H.
    destruct (pre !! x) as [v|] eqn:E; [|apply lookup_ge_None in E; lia].
    f_equal. apply (H (x - i)%nat). rewrite lookup_drop, <- E. f_equal. lia.
  - right. apply not_Forall_Exists in H; [|apply _].
    apply Exists_exists in H as (v & Hv & Hne).
    apply list_elem_of_lookup in Hv as (k & Hk). rewrite lookup_drop in Hk.
    exists (i + k)%nat, v. split_and!; try done; try lia.
    apply lookup_lt_Some in Hk. lia.
Qed.

(** Appending [j] keeps [nowin] when [j] is at least the symbol one period
    back: the step of the search. *)
Lemma nowin_snoc pre p j y :
  nowin pre → periodic p pre → (1 ≤ p ≤ length pre)%nat →
  (lz pre = length pre ∨ ∃ v, pre !! (p - 1)%nat = Some v ∧ v ≠ 0) →
  pre !! (length pre - p)%nat = Some y → 0 ≤ y ≤ j →
  nowin (pre ++ [j]).
Proof.
  intros Hnw Hper Hp HQ Hy Hj i Hi.
  rewrite length_app in Hi. simpl in Hi.
  pose proof (lz_le pre) as Hle.
  destruct (decide (j = 0)) as [->|Hj0].
  - destruct (decide (lz pre = length pre)) as [E|E].
    { rewrite lz_app_full in Hi by done. simpl in Hi. lia. }
    rewrite lz_app_short in * by lia.
    destruct (decide (i + lz pre < length pre)%nat) as [Hlt|Hge].
    { destruct (Hnw i Hlt) as (x & v & ? & Hx & ?). exists x, v.
      split_and!; try done; try lia.
      rewrite lookup_app_l; [done|]. by eapply lookup_lt_Some. }
    assert (i + lz pre = length pre)%nat as Hi' by lia.
    destruct (window_zero_or_not pre i) as [Hz|(x & v & Hx & Hv & Hne)].
    2:{ exists x, v. split_and!; try done; try lia.
        rewrite lookup_app_l; [done|lia]. }
    exfalso. assert (y = 0) as -> by lia.
    destruct (decide (p ≤ i)%nat) as [Hpi|Hpi].
    + destruct (Hnw (i - p)%nat ltac:(lia)) as (x & v & Hx & Hv & Hne).
      destruct (decide (x = length pre - p)%nat) as [->|Hxne]; [congruence|].
      assert (pre !! (x + p)%nat = Some 0) as Hxp by (apply Hz; lia).
      apply Hper in Hxp; [|lia].
      replace (x + p - p)%nat with x in Hxp by lia. congruence.
    + destruct HQ as [?|(v & Hv & Hne)]; [done|].
      rewrite Hz in Hv by lia. congruence.
  - rewrite lz_app_nonzero in * by done.
    destruct (decide (i + lz pre < length pre)%nat) as [Hlt|Hge].
    { destruct (Hnw i Hlt) as (x & v & ? & Hx & ?). exists x, v.
      split_and!; try done; try lia.
      rewrite lookup_app_l; [done|]. by eapply lookup_lt_Some. }
    exists (length pre), j. split_and!; try done; try lia.
    by apply list_lookup_middle.
Qed.

Lemma nowin_nil_zero : nowin [0].
Proof. intros i. simpl. lia. Qed.

(** A word that is not all zeros cannot end with more zeros than it
    starts with. *)
Lemma nowin_tail_zeros pre :
  nowin pre → (lz pre < length pre)%nat →
  (∀ x, (length pre - S (lz pre) ≤ x < length pre)%nat → pre !! x = Some 0) →
  False.
Proof.
  intros Hnw Hlt Hz.
  pose proof (lz_lookup_eq pre Hlt) as (v0 & Hv0 & Hne0).
  assert (S (lz pre) ≤ length pre)%nat as Hle by lia.
  destruct (Hnw (length pre - S (lz pre))%nat ltac:(lia)) as (x & v & Hx & Hv & Hne).
  rewrite Hz in Hv by lia. congruence.
Qed.

(** ** Run-length encodings and the words they encode *)

Lemma expand_app r1 r2 : expand (r1 ++ r2) = expand r1 ++ expand r2.
Proof. unfold expand. by rewrite fmap_app, concat_app. Qed.

Lemma expand_snoc runs j :
  runs_pos runs → expand (rle_snoc runs j) = expand runs ++ [j].
Proof.
  intros Hpos. destruct runs as [|[s l] init _] using rev_ind; [done|].
  destruct (proj1 (Forall_app _ _ _) Hpos) as [_ Hl]. apply Forall_inv in Hl. simpl in Hl.
  rewrite rle_snoc_app, !expand_app. destruct (Z.eqb_spec s j) as [->|Hne].
  - unfold expand. simpl. rewrite !app_nil_r, <- app_assoc. f_equal.
    replace (Z.to_nat (l + 1)) with (S (Z.to_nat l)) by lia.
    by rewrite replicate_S_end.
  - unfold expand. simpl. rewrite !app_nil_r, <- app_assoc. done.
Qed.

Lemma expand_rle pre : expand (rle pre) = pre.
Proof.
  induction pre as [|x pre IH] using rev_ind; [done|].
  rewrite rle_app, expand_snoc, IH; [done|apply runs_pos_rle].
Qed.

Lemma runs_adj_snoc runs j : runs_adj runs → runs_adj (rle_snoc runs j).
Proof.
  intros Hadj. destruct runs as [|[s l] init _] using rev_ind.
  - intros [|i] x y; simpl; intros; simplify_eq.
  - rewrite rle_snoc_app. intros i x y Hx Hy.
    destruct (decide (S i < length init + 1)%nat) as [Hlt|Hge].
    + (* both inside the old encoding, up to the length of its last run *)
      assert (∃ x' y', (init ++ [(s, l)]) !! i = Some x' ∧
                       (init ++ [(s, l)]) !! S i = Some y' ∧
                       x'.1 = x.1 ∧ y'.1 = y.1) as (x' & y' & Hx' & Hy' & <- & <-).
      { rewrite lookup_app_l in Hx by lia. rewrite lookup_app_l by lia.
        exists x. destruct (decide (S i < length init)%nat).
        - rewrite lookup_app_l in Hy by lia. rewrite lookup_app_l by lia. eauto.
        - assert (S i = length init) as Hi by lia. rewrite Hi in *.
          rewrite list_lookup_middle by done.
          rewrite lookup_app_r in Hy by lia. rewrite Nat.sub_diag in Hy.
          exists (s, l). split_and!; try done.
          destruct (s =? j); simpl in Hy; by simplify_eq. }
      by eapply Hadj.
    + destruct (Z.eqb_spec s j) as [->|Hne].
      * apply lookup_lt_Some in Hy. rewrite length_app in Hy. simpl in Hy. lia.
      * assert (i = length init) as -> by
          (apply lookup_lt_Some in Hy; rewrite length_app in Hy; simpl in Hy; lia).
        rewrite list_lookup_middle in Hx by done.
        rewrite lookup_app_r in Hy by lia.
        replace (S (length init) - length init)%nat with 1%nat in Hy by lia.
        simpl in Hy. by simplify_eq.
Qed.

Lemma runs_adj_rle pre : runs_adj (rle pre).
Proof.
  induction pre as [|x pre IH] using rev_ind.
  - intros i x y Hx. done.
  - rewrite rle_app. by apply runs_adj_snoc.
Qed.

Lemma lz_replicate_app (k : nat) (l : list Z) :
  lz (replicate k 0 ++ l) = (k + lz l)%nat.
Proof. induction k as [|k IH]; simpl; [done|]. by rewrite IH. Qed.

(** When the encoding of [pre] has at least two runs and [pre] starts with
    [0], the first run is the leading zeros. *)
Lemma rle_first_run pre s l r2 rest :
  rle pre = (s, l) :: r2 :: rest → pre !! 0%nat = Some 0 →
  s = 0 ∧ lz pre = Z.to_nat l ∧ (lz pre < length pre)%nat ∧ 1 ≤ l.
Proof.
  intros Hr H0. pose proof (expand_rle pre) as He.
  pose proof (runs_pos_rle pre) as Hpos. pose proof (runs_adj_rle pre) as Hadj.
  rewrite Hr in He, Hpos, Hadj. destruct r2 as [s2 l2].
  apply Forall_cons in Hpos as [Hl Hpos]. apply Forall_cons in Hpos as [Hl2 _].
  simpl in Hl, Hl2.
  specialize (Hadj 0%nat (s, l) (s2, l2) eq_refl eq_refl). simpl in Hadj.
  unfold expand in He. simpl in He.
  assert (s = 0) as ->.
  { rewrite <- He in H0. destruct (Z.to_nat l) eqn:E; [lia|]. simpl in H0. congruence. }
  split; [done|].
  destruct (Z.to_nat l2) as [|k2] eqn:E2; [lia|].
  rewrite <- He. rewrite lz_replicate_app. simpl.
  destruct (Z.eqb_spec s2 0); [done|].
  rewrite !length_app, length_replicate. simpl. split_and!; lia.
Qed.

(** The last run of the encoding is the end of the word. *)
Lemma rle_last_run pre init s l :
  rle pre = init ++ [(s, l)] →
  (Z.to_nat l ≤ length pre)%nat ∧
  ∀ x, (length pre - Z.to_nat l ≤ x < length pre)%nat → pre !! x = Some s.
Proof.
  intros Hr. pose proof (expand_rle pre) as He. rewrite Hr, expand_app in He.
  unfold expand at 2 in He. simpl in He. rewrite app_nil_r in He.
  rewrite <- He. rewrite length_app, length_replicate. split; [lia|].
  intros x Hx. rewrite lookup_app_r by lia.
  apply lookup_replicate_2. lia.
Qed.

Lemma length_rle_le pre : (length (rle pre) ≤ length pre)%nat.
Proof.
  induction pre as [|x pre IH] using rev_ind; [done|].
  rewrite rle_app, length_app. simpl.
  destruct (rle pre) as [|[s l] init _] using rev_ind; [simpl; lia|].
  rewrite rle_snoc_app. rewrite length_app in *. simpl in *.
  destruct (s =? x); simpl; lia.
Qed.

(** ** Counts *)

Arguments update_run_length : simpl never.
Arguments restore_run_length : simpl never.
Arguments check_rev : simpl never.
Arguments remove : simpl never.
Arguments add : simpl never.

Lemma count_app s l1 l2 : count s (l1 ++ l2) = count s l1 + count s l2.
Proof. induction l1 as [|x l1 IH]; simpl; [done|]. rewrite IH. lia. Qed.

Lemma count_replicate s k v :
  count s (replicate k v) = if v =? s then Z.of_nat k else 0.
Proof.
  induction k as [|k IH]; simpl; [by destruct (v =? s)|].
  rewrite IH. destruct (v =? s); lia.
Qed.

Lemma count_nonneg s l : 0 ≤ count s l.
Proof. induction l as [|x l IH]; simpl; [done|]. destruct (x =? s); lia. Qed.

Lemma sum_insert (l : list Z) (i : nat) x v :
  l !! i = Some x → sum (<[i:=v]> l) = sum l - x + v.
Proof.
  revert i. induction l as [|y l IH]; intros [|i] H; simpl in *; try done.
  - simplify_eq. lia.
  - fold (sum l). fold (sum (<[i:=v]> l)). rewrite (IH i H). lia.
Qed.

Lemma sum_nonneg (l : list Z) : Forall (λ v, 0 ≤ v) l → 0 ≤ sum l.
Proof. induction 1; simpl; [done|]. fold (sum l). lia. Qed.

Lemma sum_ge_one (l : list Z) i x :
  Forall (λ v, 0 ≤ v) l → l !! i = Some x → x ≤ sum l.
Proof.
  intros Hall. revert i. induction Hall as [|v l Hv Hall IH]; intros i Hi; [done|].
  pose proof (sum_nonneg l Hall). simpl. fold (sum l).
  destruct i as [|i]; simpl in Hi; [simplify_eq; lia|].
  specialize (IH i Hi). lia.
Qed.

Lemma sum_ge_two (l : list Z) i j x y :
  Forall (λ v, 0 ≤ v) l → i ≠ j → l !! i = Some x → l !! j = Some y →
  x + y ≤ sum l.
Proof.
  intros Hall. revert i j. induction Hall as [|v l Hv Hall IH]; intros i j Hne Hi Hj; [done|].
  simpl. fold (sum l).
  destruct i as [|i], j as [|j]; simpl in Hi, Hj; try done.
  - simplify_eq. pose proof (sum_ge_one l j y Hall Hj). lia.
  - simplify_eq. pose proof (sum_ge_one l i x Hall Hi). lia.
  - assert (i ≠ j) as Hne' by congruence. specialize (IH i j Hne' Hi Hj). lia.
Qed.

Lemma sum_nonneg_zero (l : list Z) i x :
  Forall (λ v, 0 ≤ v) l → l !! i = Some x → sum l = x →
  ∀ j y, j ≠ i → l !! j = Some y → y = 0.
Proof.
  intros Hall Hi Hs j y Hne Hj.
  pose proof (sum_ge_two l i j x y Hall ltac:(congruence) Hi Hj).
  pose proof (Forall_lookup_1 _ _ _ _ Hall Hj). simpl in *. lia.
Qed.

(** *** Steps of the state monad *)

Lemma bind_eq {A B} (m : M A) (k : A → M B) σ :
  bind m k σ = match m σ with
               | Ok (a, σ') => k a σ'
               | Raise e => Raise e
               | Timeout => Timeout
               end.
Proof. done. Qed.

Lemma bind_lift {A B} (r : res A) x (k : A → M B) σ :
  r = Ok x → bind (lift r) k σ = k x σ.
Proof. intros ->. done. Qed.

Lemma dll_n_eq j x σ :
  getitem (n (dll σ)) j = Ok x → dll_n j σ = Ok (x, σ).
Proof. intros H. unfold dll_n. simpl. unfold bind, get_dll, lift. by rewrite H. Qed.

Lemma dll_n_add_eq j v x σ :
  0 ≤ j → n (dll σ) !! Z.to_nat j = Some x →
  dll_n_add j v σ =
  Ok (tt, with_dll σ (set_n (dll σ) (<[Z.to_nat j := x + v]> (n (dll σ))))).
Proof.
  intros Hj H. unfold dll_n_add, bind, get_dll, lift, put_dll.
  rewrite (getitem_nonneg _ _ _ Hj H).
  rewrite setitem_nonneg; [done|]. apply lookup_lt_Some in H. lia.
Qed.

(** *** Invariants of the search *)

Lemma steq_refl K σ : steq K σ σ.
Proof. split; [apply dll_equiv_refl|done|done]. Qed.

Lemma steq_trans K σ1 σ2 σ3 : steq K σ1 σ2 → steq K σ2 σ3 → steq K σ1 σ3.
Proof. intros [] []. split; [by eapply dll_equiv_trans|congruence|congruence]. Qed.

Lemma steq_sym K σ1 σ2 : steq K σ1 σ2 → steq K σ2 σ1.
Proof. intros []. split; [by apply dll_equiv_sym|done|done]. Qed.

Lemma dinv_equiv c pre d d' :
  dinv c pre d → dll_equiv (length c) d d' → dinv c pre d'.
Proof.
  intros [H1 H2 H3 H4 H5 H6] [E1 E2 E3 E4 E5 E6 E7 E8].
  split; rewrite <- ?E1, <- ?E2, <- ?E3; done.
Qed.

Lemma ring_ok_equiv K d d' : ring_ok K d → dll_equiv K d d' → ring_ok K d'.
Proof.
  intros (av & Hr & Ha) He. exists av. split; [by eapply ring_equiv|].
  by rewrite <- (eq_n _ _ _ He).
Qed.

Lemma chain_prefix_gt nxt prv p av1 s av2 x :
  chain nxt prv p (av1 ++ s :: av2) → x ∈ av1 → s < x.
Proof.
  revert p. induction av1 as [|y av1 IH]; intros p Hc Hx; [by apply elem_of_nil in Hx|].
  destruct Hc as (_ & _ & _ & Hc). apply elem_of_cons in Hx as [->|Hx]; [|by eapply IH].
  assert (s ∈ av1 ++ s :: av2) as Hin by (apply elem_of_app; right; left).
  pose proof (chain_bounds _ _ _ _ _ Hc Hin). lia.
Qed.

Lemma ring_split_notin K av1 s av2 d x :
  ring K (av1 ++ s :: av2) d → x ∈ av1 ++ av2 → x ≠ s.
Proof.
  intros [_ _ _ _ Hc] Hx. apply elem_of_app in Hx as [Hx|Hx].
  - pose proof (chain_prefix_gt _ _ _ _ _ _ _ Hc Hx). lia.
  - pose proof (chain_lookup _ _ _ _ _ _ Hc) as (_ & _ & _ & _ & Hc2).
    pose proof (chain_bounds _ _ _ _ _ Hc2 Hx). lia.
Qed.

Lemma avail_decr av1 s av2 cnt x K d :
  ring K (av1 ++ s :: av2) d → avail (av1 ++ s :: av2) cnt →
  cnt !! Z.to_nat s = Some x →
  avail (if x - 1 =? 0 then av1 ++ av2 else av1 ++ s :: av2)
        (<[Z.to_nat s := x - 1]> cnt).
Proof.
  intros Hr Ha Hx s'.
  assert (0 ≤ s ∧ 0 < x) as [Hs0 Hx0].
  { destruct (proj1 (Ha s)) as (? & x' & ? & ?); [apply elem_of_app; right; left|].
    split; [done|]. assert (x' = x) by congruence. lia. }
  assert (Z.to_nat s < length cnt)%nat as Hlt by (by eapply lookup_lt_Some).
  destruct (decide (s' = s)) as [->|Hne].
  - rewrite list_lookup_insert_eq by done.
    destruct (Z.eqb_spec (x - 1) 0) as [E|E].
    + split.
      * intros Hin. by apply (ring_split_notin _ _ _ _ _ _ Hr) in Hin.
      * intros (_ & x' & ? & ?). simplify_eq. lia.
    + split; [intros _; split; [done|]; exists (x - 1); split; [done|lia]|].
      intros _. apply elem_of_app; right; left.
  - destruct (decide (0 ≤ s')) as [Hs'|Hs'].
    2:{ split; [|intros []; lia].
        intros Hin. assert (s' ∈ av1 ++ s :: av2) as Hin'.
        { destruct (x - 1 =? 0); [|done]. apply elem_of_app in Hin as [?|?];
            apply elem_of_app; [by left|right; by right]. }
        apply Ha in Hin' as []. lia. }
    rewrite list_lookup_insert_ne by lia. split.
    + intros Hin. apply Ha. destruct (x - 1 =? 0); [|done].
      apply elem_of_app in Hin as [?|?]; apply elem_of_app; [by left|right; by right].
    + intros Hin. apply Ha in Hin. destruct (x - 1 =? 0); [|done].
      apply elem_of_app in Hin as [?|Hin]; apply elem_of_app; [by left|].
      apply elem_of_cons in Hin as [?|?]; [done|by right].
Qed.

(** ** The two halves of the loop body *)

Lemma dll_remove_eq j d1 σ :
  remove j (dll σ) = Ok d1 → dll_remove j σ = Ok (tt, with_dll σ d1).
Proof. intros H. unfold dll_remove, bind, get_dll, lift, put_dll. by rewrite H. Qed.

Lemma dll_add_eq j d1 σ :
  add j (dll σ) = Ok d1 → dll_add j σ = Ok (tt, with_dll σ d1).
Proof. intros H. unfold dll_add, bind, get_dll, lift, put_dll. by rewrite H. Qed.

Lemma ring_set_n K av d v : ring K av d → ring K av (set_n d v).
Proof. intros []. by split. Qed.

Lemma extend_eq K a t z s σ pre av1 av2 x :
  ring K (av1 ++ s :: av2) (dll σ) →
  n (dll σ) !! Z.to_nat s = Some x →
  lenenc σ = lenenc_of (rle pre) → pre ≠ [] →
  0 ≤ z - 1 < Z.of_nat (length (run σ)) →
  0 ≤ t - 1 < Z.of_nat (length a) →
  extend a t z s σ =
  Ok (<[Z.to_nat (t - 1) := s]> a,
      mkState (placed K av1 s av2 (dll σ) x)
              (lenenc_of (rle (pre ++ [s])))
              (<[Z.to_nat (z - 1) := t - z]> (run σ))
              (seen σ)).
Proof.
  intros Hr Hx Hle Hne Hz Ht.
  pose proof (ring_chain _ _ _ Hr) as Hc.
  pose proof (chain_lookup _ _ _ _ _ _ Hc) as (_ & _ & Hs & _).
  unfold extend.
  rewrite bind_eq. cbn [get_run]. rewrite (bind_lift _ _ _ _ (setitem_nonneg _ _ _ Hz)).
  rewrite bind_eq. cbn [put_run]. rewrite bind_eq. cbn [get_lenenc lenenc].
  rewrite Hle.
  rewrite (bind_lift _ _ _ _ (update_run_length_spec _ s (rle_nonempty _ Hne))).
  rewrite bind_eq. cbn [put_lenenc]. rewrite bind_eq.
  rewrite (dll_n_add_eq s (-1) x); [|lia|done].
  rewrite bind_eq. 
  erewrite dll_n_eq.
  2:{ cbn [dll with_dll set_n n]. apply getitem_nonneg; [lia|].
      apply list_lookup_insert_eq. by eapply lookup_lt_Some. }
  rewrite bind_eq. rewrite <- rle_app. unfold placed.
  replace (x + -1) with (x - 1) by lia.
  destruct (Z.eqb_spec (x - 1) 0) as [E|E].
  - erewrite dll_remove_eq.
    2:{ cbn [dll with_dll]. apply (remove_ring K av1 s av2). by apply ring_set_n. }
    unfold lift. rewrite setitem_nonneg by done. done.
  - cbn [ret]. unfold lift. rewrite setitem_nonneg by done. done.
Qed.

Lemma dll_equiv_set_n K d d' v :
  dll_equiv K d d' → dll_equiv K (set_n d v) (set_n d' v).
Proof. intros []. by split. Qed.

Lemma retract_eq K s σ σ2 pre av1 av2 x :
  ring K (av1 ++ s :: av2) (dll σ) →
  n (dll σ) !! Z.to_nat s = Some x → pre ≠ [] →
  dll_equiv K (placed K av1 s av2 (dll σ) x) (dll σ2) →
  lenenc σ2 = lenenc_of (rle (pre ++ [s])) →
  ∃ σ3, retract s σ2 = Ok (hd (-1) av2, σ3) ∧
        dll_equiv K (dll σ) (dll σ3) ∧ lenenc σ3 = lenenc_of (rle pre) ∧
        run σ3 = run σ2 ∧ seen σ3 = seen σ2.
Proof.
  intros Hr Hx Hne He Hle.
  pose proof (ring_chain _ _ _ Hr) as Hc.
  pose proof (chain_lookup _ _ _ _ _ _ Hc) as (Hnx & _ & Hs & Hp & _).
  assert (Z.to_nat s < length (n (dll σ)))%nat as Hlt by (by eapply lookup_lt_Some).
  assert (n (dll σ2) = <[Z.to_nat s := x - 1]> (n (dll σ))) as Hn2.
  { rewrite <- (eq_n _ _ _ He). unfold placed. by destruct (x - 1 =? 0). }
  assert (n (dll σ2) !! Z.to_nat s = Some (x - 1)) as Hx2.
  { rewrite Hn2. by apply list_lookup_insert_eq. }
  assert (<[Z.to_nat s := x - 1 + 1]> (n (dll σ2)) = n (dll σ)) as Hback.
  { rewrite Hn2, list_insert_insert_eq. apply list_insert_id.
    rewrite Hx. f_equal. lia. }
  (* the ring after the optional [add] *)
  assert (∃ d2, (if x - 1 =? 0 then dll_add s else ret tt) σ2 = Ok (tt, with_dll σ2 d2) ∧
                n d2 = n (dll σ2) ∧
                dll_equiv K (set_n (dll σ) (n (dll σ2))) d2) as (d2 & Hadd & Hnd2 & He2).
  { unfold placed in He. destruct (Z.eqb_spec (x - 1) 0) as [E|E].
    - destruct (add_restore K av1 s av2 _ _
        (ring_set_n _ _ _ (<[Z.to_nat s := x - 1]> (n (dll σ))) Hr) He)
        as (d2 & Ha & Hn & Heq).
      exists d2. split; [by apply dll_add_eq|]. split; [done|].
      by destruct (dll σ).
    - exists (dll σ2). split; [by destruct σ2|]. split; [done|].
      rewrite Hn2. done. }
  unfold retract.
  rewrite bind_eq, (dll_n_eq _ _ _ (getitem_nonneg _ _ _ (proj1 Hs) Hx2)).
  rewrite bind_eq, Hadd.
  rewrite bind_eq, (dll_n_add_eq s 1 (x - 1)); [|lia|cbn [dll with_dll]; by rewrite Hnd2].
  cbn [dll with_dll]. rewrite Hnd2, Hback.
  rewrite bind_eq. cbn [get_lenenc lenenc with_dll]. rewrite Hle, rle_app.
  rewrite (bind_lift _ _ _ _
    (restore_run_length_spec _ s (rle_nonempty _ Hne) (runs_pos_rle _))).
  rewrite bind_eq. cbn [put_lenenc]. rewrite bind_eq. cbn [get_dll dll].
  assert (dll_equiv K (dll σ) (set_n d2 (n (dll σ)))) as Hfin.
  { apply (dll_equiv_set_n _ _ _ (n (dll σ))) in He2. by destruct (dll σ). }
  unfold lift. rewrite (getitem_nonneg _ s (hd (-1) av2)); [|lia|].
  2:{ rewrite <- (take_lookup_eq K _ _ _ (eq_next _ _ _ Hfin)); [done|].
      pose proof (ring_items _ _ _ Hr). lia. }
  eexists. split; [done|]. by split_and!.
Qed.

(** ** Placing a symbol *)

Lemma placed_dinv c pre av1 s av2 d x :
  dinv c pre d → ring (length c) (av1 ++ s :: av2) d →
  avail (av1 ++ s :: av2) (n d) → n d !! Z.to_nat s = Some x →
  dinv c (pre ++ [s]) (placed (length c) av1 s av2 d x).
Proof.
  intros [H1 H2 H3 H4 H5 H6] Hr Ha Hx.
  assert (0 ≤ s ∧ 0 < x) as [Hs0 Hx0].
  { destruct (proj1 (Ha s)) as (? & x' & ? & ?); [apply elem_of_app; right; left|].
    split; [done|]. assert (x' = x) by congruence. lia. }
  assert (n (placed (length c) av1 s av2 d x) = <[Z.to_nat s := x - 1]> (n d)) as Hn.
  { unfold placed. by destruct (x - 1 =? 0). }
  assert (n_items (placed (length c) av1 s av2 d x) = n_items d) as Hi.
  { unfold placed. by destruct (x - 1 =? 0). }
  assert (n_tot (placed (length c) av1 s av2 d x) = n_tot d) as Ht.
  { unfold placed. by destruct (x - 1 =? 0). }
  split; rewrite ?Hn, ?Hi, ?Ht; try done.
  - by rewrite length_insert.
  - intros s' x' Hs'. rewrite count_app. simpl.
    destruct (decide (s' = Z.to_nat s)) as [->|Hne].
    + rewrite list_lookup_insert_eq by (by eapply lookup_lt_Some).
      rewrite (H4 _ _ Hs') in Hx. simplify_eq.
      rewrite Z2Nat.id by done. rewrite Z.eqb_refl. f_equal. lia.
    + rewrite list_lookup_insert_ne by done. rewrite (H4 _ _ Hs').
      destruct (Z.eqb_spec s (Z.of_nat s')); [lia|]. f_equal. lia.
  - apply Forall_insert; [done|lia].
  - rewrite (sum_insert _ _ _ _ Hx), H6, length_app. simpl. lia.
Qed.

Lemma placed_ring_ok K av1 s av2 d x :
  ring K (av1 ++ s :: av2) d → avail (av1 ++ s :: av2) (n d) →
  n d !! Z.to_nat s = Some x →
  ring_ok K (placed K av1 s av2 d x).
Proof.
  intros Hr Ha Hx. pose proof (avail_decr _ _ _ _ _ _ _ Hr Ha Hx) as Ha'.
  unfold placed. destruct (x - 1 =? 0).
  - exists (av1 ++ av2). split; [|done].
    apply (ring_remove K av1 s av2). by apply ring_set_n.
  - exists (av1 ++ s :: av2). split; [|done]. by apply ring_set_n.
Qed.

(** *** The word placed so far *)

Lemma winv_snoc K N pre p j y :
  winv K N pre p → pre !! Z.to_nat (Z.of_nat (length pre) - p) = Some y →
  y ≤ j < Z.of_nat K → Z.of_nat (length pre) < N →
  winv K N (pre ++ [j])
    (if negb (j =? y) then Z.of_nat (length pre) + 1 else p).
Proof.
  intros [H1 H2 H3 H4 H5 H6 H7] Hy Hj HN.
  assert (0 ≤ y) as Hy0.
  { apply (Forall_lookup_1 _ _ _ _ H3) in Hy. simpl in Hy. lia. }
  assert (pre !! (length pre - Z.to_nat p)%nat = Some y) as Hy'.
  { rewrite <- Hy. f_equal. lia. }
  split.
  - rewrite lookup_app_l; [done|]. by eapply lookup_lt_Some.
  - rewrite length_app. simpl. lia.
  - apply Forall_app. split; [done|]. apply Forall_singleton. lia.
  - rewrite length_app. simpl. destruct (negb (j =? y)); lia.
  - destruct (Z.eqb_spec j y) as [->|Hne]; simpl.
    + intros i v Hi Hv. destruct (decide (i < length pre)%nat) as [Hlt|Hge].
      * rewrite lookup_app_l in Hv by done. rewrite lookup_app_l by lia.
        by apply H5.
      * assert (i = length pre) as ->.
        { apply lookup_lt_Some in Hv. rewrite length_app in Hv. simpl in Hv. lia. }
        rewrite list_lookup_middle in Hv by done. simplify_eq.
        rewrite lookup_app_l by lia. done.
    + intros i v Hi Hv. apply lookup_lt_Some in Hv.
      rewrite length_app in Hv. simpl in Hv. lia.
  - destruct (Z.eqb_spec j y) as [->|Hne]; simpl.
    + destruct H6 as [Hall|(v & Hv & Hvne)].
      * left. rewrite lz_app_full by done.
        assert (y = 0) as ->.
        { pose proof (lz_lookup_lt pre (length pre - Z.to_nat p)%nat ltac:(lia)).
          congruence. }
        rewrite length_app. simpl. lia.
      * right. exists v. split; [|done]. rewrite lookup_app_l; [done|].
        by eapply lookup_lt_Some.
    + right. exists j. split; [|lia].
      replace (Z.to_nat (Z.of_nat (length pre) + 1) - 1)%nat with (length pre) by lia.
      by apply list_lookup_middle.
  - eapply (nowin_snoc pre (Z.to_nat p) j y); try done; lia.
Qed.

(** *** The index [b] into the run-length encoding *)

Lemma length_rle_snoc runs j :
  (length (rle_snoc runs j) = S (length runs)) ∨
  (∃ init l, runs = init ++ [(j, l)] ∧ rle_snoc runs j = init ++ [(j, l + 1)]).
Proof.
  destruct runs as [|[s l] init _] using rev_ind; [by left|].
  rewrite rle_snoc_app. destruct (Z.eqb_spec s j) as [->|Hne].
  - right. eauto.
  - left. rewrite !length_app. simpl. lia.
Qed.

Lemma binv_snoc_1 K N pre p r b j c :
  winv K N (pre ++ [j]) p → binv pre r b →
  check_rev (lenenc_of (rle (pre ++ [j]))) = Ok c → c = 1 →
  binv (pre ++ [j]) r b.
Proof.
  intros Hw Hb Hc ->. pose proof (w_zero _ _ _ _ Hw) as H0.
  assert (pre ++ [j] ≠ []) as Hne by (by destruct pre).
  destruct (check_rev_spec _ (rle_nonempty _ Hne)) as (c & Hc' & _ & Hone & _).
  rewrite Hc in Hc'. simplify_eq.
  right. rewrite rle_app in *.
  destruct Hb as [(-> & -> & Hpal)|Hlt].
  2:{ destruct (length_rle_snoc (rle pre) j) as [->|(init & l & E1 & E2)]; [lia|].
      rewrite E2. rewrite E1 in Hlt. rewrite !length_app in *. simpl in *. lia. }
  destruct (length_rle_snoc (rle pre) j) as [E|(init & l & Hr & Hr')]; [rewrite E; lia|].
  exfalso. destruct Hpal as [Hlen|Hpal].
  { rewrite Hr' in Hone. rewrite Hr in Hlen. rewrite length_app in *. simpl in *.
    specialize (Hone Hlen). lia. }
  (* at least two runs, the first equal to the last: [pre] starts and ends
     with the same run of zeros, and [j] makes the last one longer *)
  rewrite Hr in Hpal. rewrite length_app in Hpal. simpl in Hpal.
  replace (length init + 1 - 1)%nat with (length init) in Hpal by lia.
  rewrite (list_lookup_middle init [] (j, l) (length init) eq_refl) in Hpal.
  destruct init as [|x1 init]; simpl in Hpal.
  { rewrite Hr' in Hone. specialize (Hone eq_refl). lia. }
  simplify_eq.
  assert (pre ≠ []) as Hpne.
  { intros ->. done. }
  assert (pre !! 0%nat = Some 0) as H0'.
  { destruct pre; [done|]. done. }
  assert (∃ r2 rest, rle pre = (j, l) :: r2 :: rest) as (r2 & rest & Hr2).
  { rewrite Hr. destruct init; simpl; eauto. }
  destruct (rle_first_run _ _ _ _ _ Hr2 H0') as (-> & Hlz & Hlzlt & Hl).
  rewrite <- rle_app in Hr'.
  change ((0, l) :: init ++ [(0, l + 1)]) with (((0, l) :: init) ++ [(0, l + 1)]) in Hr'.
  destruct (rle_last_run _ _ _ _ Hr') as [Hlen Hz].
  apply (nowin_tail_zeros (pre ++ [0])).
  - apply (w_nowin _ _ _ _ Hw).
  - rewrite lz_app_short by done. rewrite length_app. simpl. lia.
  - rewrite lz_app_short by done. intros x Hx. apply Hz.
    rewrite length_app in *. simpl in *. lia.
Qed.

Lemma binv_snoc_0 pre j c :
  pre ≠ [] →
  check_rev (lenenc_of (rle (pre ++ [j]))) = Ok c → c = 0 →
  binv (pre ++ [j]) (Z.of_nat (length pre) + 1)
       (Z.of_nat (length (rle (pre ++ [j])))).
Proof.
  intros Hne Hc ->.
  assert (pre ++ [j] ≠ []) as Hne' by (by destruct pre).
  destruct (check_rev_spec _ (rle_nonempty _ Hne')) as (c & Hc' & _ & _ & Hpal).
  rewrite Hc in Hc'. simplify_eq. left. split_and!; [rewrite length_app; simpl; lia|done|].
  pose proof (rle_nonempty _ Hne') as Hrne.
  destruct (decide (length (rle (pre ++ [j])) = 1%nat)); [by left|right].
  apply Hpal; [done|]. destruct (rle (pre ++ [j])); [done|]. simpl in *. lia.
Qed.

(** ** The loop of [build_bracelets] *)

Lemma list_leb_app_common pre x y :
  list_leb (pre ++ x) (pre ++ y) = list_leb x y.
Proof.
  induction pre as [|w pre IH]; [done|]. simpl.
  rewrite Z.ltb_irrefl, Z.eqb_refl. simpl. done.
Qed.

Lemma lex_lt_at (L : nat) x y u v :
  take L x = take L y → x !! L = Some u → y !! L = Some v → u < v →
  lex_lt x y.
Proof.
  intros Ht Hx Hy Huv. unfold lex_lt.
  rewrite <- (take_drop_middle _ _ _ Hx), <- (take_drop_middle _ _ _ Hy), Ht.
  rewrite list_leb_app_common. simpl.
  destruct (Z.ltb_spec v u); [lia|]. destruct (Z.eqb_spec v u); [lia|]. done.
Qed.

Section search.

Variable c : list Z.

Let K : nat := length c.
Let N : Z := sum c.

(** What holds when [build_bracelets] is entered with the prefix [pre]
    placed. *)
Record inv (a : list Z) (t p r z b : Z) (σ : state) (pre : list Z) : Prop := mkInv {
  i_t : t = Z.of_nat (length pre) + 1;
  i_a : a = pre ++ replicate (Z.to_nat N - length pre) (Z.of_nat K - 1);
  i_w : winv K N pre p;
  i_d : dinv c pre (dll σ);
  i_ring : ring_ok K (dll σ);
  i_le : lenenc σ = lenenc_of (rle pre);
  i_run : length (run σ) = Z.to_nat N;
  i_r : 1 ≤ r ≤ Z.of_nat (length pre);
  i_z : 2 ≤ z ≤ t;
  i_b : binv pre r b
}.

(** A yielded bracelet that extends [pre]. *)
Record good_out (pre y : list Z) : Prop := mkGood {
  g_len : length y = Z.to_nat N;
  g_pre : take (length pre) y = pre;
  g_count : ∀ (s : nat) x, c !! s = Some x → count (Z.of_nat s) y = x
}.

Record post (σ σ' : state) (pre : list Z) (out : list (list Z)) : Prop := mkPost {
  p_steq : steq K σ σ';
  p_seen : ∃ new, seen σ' = new ++ seen σ ∧ Forall (ring_ok K) new;
  p_out : Forall (good_out pre) out;
  p_sorted : StronglySorted (λ x y, lex_lt y x) out
}.

Lemma good_out_shorter pre s y : good_out (pre ++ [s]) y → good_out pre y.
Proof.
  intros [H1 H2 H3]. split; try done.
  rewrite length_app in H2. simpl in H2.
  rewrite <- (take_app_length pre [s]) at 2. rewrite <- H2.
  rewrite take_take. f_equal. lia.
Qed.

Lemma good_out_at pre s y :
  good_out (pre ++ [s]) y → y !! length pre = Some s.
Proof.
  intros [H1 H2 H3]. rewrite length_app in H2. simpl in H2.
  rewrite <- (lookup_take_lt y (length pre + 1)) by lia.
  rewrite H2. by apply list_lookup_middle.
Qed.

Lemma post_refl_seen σ pre d :
  ring_ok K d →
  post σ (mkState (dll σ) (lenenc σ) (run σ) (d :: seen σ)) pre [].
Proof.
  intros Hd. split; [by split; [apply dll_equiv_refl|..]| | |]; simpl.
  - exists [d]. split; [done|]. by apply Forall_singleton.
  - constructor.
  - constructor.
Qed.

Lemma lookup_shape (pre : list Z) v rest (i : nat) :
  (i < length pre)%nat → (pre ++ v :: rest) !! i = pre !! i.
Proof. intros. by rewrite lookup_app_l. Qed.

Lemma insert_shape (pre : list Z) v s rest :
  <[length pre := s]> (pre ++ v :: rest) = (pre ++ [s]) ++ rest.
Proof.
  rewrite <- app_assoc. simpl.
  replace (length pre) with (length pre + 0)%nat at 1 by lia.
  by rewrite insert_app_r.
Qed.

Section loop.

Variable rec : list Z → Z → Z → Z → Z → Z → bool → M (list (list Z)).
Variables (pre : list Z) (t p r z b : Z) (RS : bool).

Hypothesis Hrec : ∀ a2 t2 p2 r2 z2 b2 RS2 σ2 s,
  inv a2 t2 p2 r2 z2 b2 σ2 (pre ++ [s]) →
  ∃ out σ', rec a2 t2 p2 r2 z2 b2 RS2 σ2 = Ok (out, σ') ∧
            post σ2 σ' (pre ++ [s]) out.
Hypothesis Hw : winv K N pre p.
Hypothesis HL : Z.of_nat (length pre) < N.
Hypothesis Ht : t = Z.of_nat (length pre) + 1.
Hypothesis Hr : 1 ≤ r ≤ Z.of_nat (length pre).
Hypothesis Hz : 2 ≤ z ≤ t.
Hypothesis Hb : binv pre r b.

Lemma loop_spec suffix : ∀ done lf v σ,
  dinv c pre (dll σ) → ring K (done ++ suffix) (dll σ) →
  avail (done ++ suffix) (n (dll σ)) →
  lenenc σ = lenenc_of (rle pre) → length (run σ) = Z.to_nat N →
  (length suffix < lf)%nat →
  ∃ out σ',
    while_loop rec lf
      (pre ++ v :: replicate (Z.to_nat N - length pre - 1) (Z.of_nat K - 1))
      t p r z b RS (hd (-1) suffix) σ = Ok (out, σ') ∧
    post σ σ' pre out ∧
    Forall (λ y, ∃ u, y !! length pre = Some u ∧ u ≤ hd (-1) suffix) out.
Proof.
  pose proof (w_zero _ _ _ _ Hw) as H0.
  assert (pre ≠ []) as Hpne by (intros ->; done).
  pose proof (w_p _ _ _ _ Hw) as Hp.
  destruct (lookup_lt_is_Some_2 pre (Z.to_nat (Z.of_nat (length pre) - p)) ltac:(lia))
    as [y Hy].
  assert (0 ≤ y < Z.of_nat K) as Hyr.
  { apply (Forall_lookup_1 _ _ _ _ (w_range _ _ _ _ Hw) Hy). }
  assert (∀ v rest, getitem (pre ++ v :: rest) (t - p - 1) = Ok y) as Hget.
  { intros v rest. apply getitem_nonneg; [lia|].
    replace (t - p - 1) with (Z.of_nat (length pre) - p) by lia.
    rewrite lookup_shape; [done|]. by eapply lookup_lt_Some. }
  induction suffix as [|s suffix IH]; intros done lf v σ Hd Hring Hav Hle Hrun Hlf.
  - (* the ring is exhausted: [j] is the sentinel *)
    destruct lf as [|lf]; [lia|]. cbn [while_loop hd].
    rewrite bind_eq. cbn [observe]. rewrite bind_eq. cbn [get_dll].
    rewrite (bind_lift _ _ _ _ (Hget _ _)).
    destruct (Z.geb_spec (-1) y); [lia|].
    rewrite (bind_lift _ (<[Z.to_nat (t - 1) :=
       n_tot (dll σ) - 1]> (pre ++ v :: replicate (Z.to_nat N - length pre - 1) (Z.of_nat K - 1)))).
    2:{ apply setitem_nonneg. rewrite length_app. simpl. rewrite length_replicate. lia. }
    eexists _, _. split; [done|]. split; [|constructor].
    apply post_refl_seen. by exists (done ++ []).
  - destruct lf as [|lf]; [simpl in Hlf; lia|]. cbn [while_loop hd].
    rewrite bind_eq. cbn [observe]. rewrite bind_eq. cbn [get_dll].
    rewrite (bind_lift _ _ _ _ (Hget _ _)).
    set (σo := mkState (dll σ) (lenenc σ) (run σ) (dll σ :: seen σ)).
    assert (ring_ok K (dll σ)) as Hrok by (by exists (done ++ s :: suffix)).
    destruct (Z.geb_spec s y) as [Hge|Hlt].
    2:{ rewrite (bind_lift _ (<[Z.to_nat (t - 1) :=
          n_tot (dll σ) - 1]> (pre ++ v :: replicate (Z.to_nat N - length pre - 1) (Z.of_nat K - 1)))).
        2:{ apply setitem_nonneg. rewrite length_app. simpl. rewrite length_replicate. lia. }
        eexists _, _. split; [done|]. split; [|constructor].
        by apply post_refl_seen. }
    (* [s] is placed *)
    assert (s ∈ done ++ s :: suffix) as Hin by (apply elem_of_app; right; left).
    destruct (proj1 (Hav s) Hin) as (Hs0 & x & Hx & Hx0).
    pose proof (chain_bounds _ _ _ _ _ (ring_chain _ _ _ Hring) Hin) as Hsb.
    rewrite bind_eq.
    rewrite (extend_eq K _ t z s σo pre done suffix x); try done.
    2:{ subst σo. simpl. lia. }
    2:{ rewrite length_app. simpl. rewrite length_replicate. lia. }
    replace (Z.to_nat (t - 1)) with (length pre) by lia.
    rewrite insert_shape.
    set (a1 := (pre ++ [s]) ++ replicate (Z.to_nat N - length pre - 1) (Z.of_nat K - 1)).
    set (σ1 := mkState _ _ _ _).
    assert (getitem a1 (t - p - 1) = Ok y) as Hy1.
    { subst a1. rewrite <- app_assoc. apply Hget. }
    rewrite (bind_lift _ _ _ _ Hy1).
    rewrite bind_eq. cbn [get_lenenc]. subst σ1. cbn [lenenc]. set (σ1 := mkState _ _ _ _).
    assert (pre ++ [s] ≠ []) as Hne1 by (by destruct pre).
    destruct (check_rev_spec _ (rle_nonempty _ Hne1)) as (cr & Hcr & Hcr3 & _).
    rewrite (bind_lift _ _ _ _ Hcr).
    (* the invariant of the call one level down *)
    set (p2 := if negb (s =? y) then t else p).
    set (z2 := if negb (s =? n_items (dll σo) - 1) then t + 1 else z).
    assert (winv K N (pre ++ [s]) p2) as Hw2.
    { subst p2. rewrite Ht. apply winv_snoc; try done; lia. }
    assert (∀ r2 b2, 1 ≤ r2 ≤ t → binv (pre ++ [s]) r2 b2 →
              inv a1 (t + 1) p2 r2 z2 b2 σ1 (pre ++ [s])) as Hinv.
    { intros r2 b2 Hr2 Hb2. split; try done.
      - rewrite length_app. simpl. lia.
      - subst a1. f_equal. f_equal. rewrite length_app. simpl. lia.
      - by apply placed_dinv.
      - by eapply placed_ring_ok.
      - subst σ1. simpl. rewrite length_insert. done.
      - rewrite length_app. simpl. lia.
      - subst z2. destruct (negb (s =? n_items (dll σo) - 1)); lia. }
    assert (∃ out1 σ2,
      (if cr =? 0
       then let* m := lift (res_bind (getitem (lenenc_of (rle (pre ++ [s]))) 0) item_int) in
            rec a1 (t + 1) p2 t z2 m false
       else if cr =? 1 then rec a1 (t + 1) p2 r z2 b RS else ret []) σ1 = Ok (out1, σ2) ∧
      post σ1 σ2 (pre ++ [s]) out1) as (out1 & σ2 & Hout & Hpost).
    { destruct Hcr3 as [->|[->| ->]];
        [change (0 =? 0) with true|
         change (1 =? 0) with false; change (1 =? 1) with true|
         change (-1 =? 0) with false; change (-1 =? 1) with false]; cbv iota.
      - rewrite getitem_lenenc_0. cbn [res_bind item_int].
        rewrite (bind_lift _ _ _ _ eq_refl).
        apply Hrec. apply Hinv; [lia|]. rewrite Ht.
        by apply (binv_snoc_0 _ _ _ Hpne Hcr).
      - apply Hrec. apply Hinv; [lia|].
        by apply (binv_snoc_1 K N _ p2 _ _ _ _ Hw2 Hb Hcr).
      - eexists _, _. split; [done|]. split; [apply steq_refl| | |]; try constructor.
        exists []. split; [done|constructor]. }
    rewrite bind_eq, Hout.
    destruct Hpost as [[Hq1 Hq2 Hq3] (new1 & Hnew1 & Hnew1ok) Hgood1 Hsort1].
    destruct (retract_eq K s σo σ2 pre done suffix x) as (σ3 & Hret & He3 & Hle3 & Hrun3 & Hseen3);
      [exact Hring|exact Hx|exact Hpne|exact Hq1|by rewrite <- Hq2|].
    rewrite bind_eq, Hret.
    destruct (IH (done ++ [s]) lf s σ3) as (rest & σ4 & Hrest & Hpost4 & Hle4).
    { by eapply dinv_equiv. }
    { rewrite <- app_assoc. by eapply ring_equiv. }
    { rewrite <- app_assoc. by rewrite <- (eq_n _ _ _ He3). }
    { done. }
    { rewrite Hrun3, <- Hq3. subst σ1. simpl. by rewrite length_insert. }
    { simpl in Hlf. lia. }
    rewrite bind_eq.
    replace (pre ++ s :: replicate (Z.to_nat N - length pre - 1) (Z.of_nat K - 1)) with a1
      in Hrest by (subst a1; by rewrite <- app_assoc).
    rewrite Hrest. cbn [ret].
    destruct Hpost4 as [Hq4 (new4 & Hnew4 & Hnew4ok) Hgood4 Hsort4].
    eexists _, _. split; [reflexivity|]. split; [split|].
    + eapply steq_trans; [|exact Hq4]. split; [exact He3|by rewrite Hle, Hle3|].
      rewrite Hrun3, <- Hq3. subst σ1 σo. simpl. by rewrite length_insert.
    + exists (new4 ++ new1 ++ [dll σ]). split.
      * rewrite Hnew4, Hseen3, Hnew1. subst σ1 σo. simpl. by rewrite <- !app_assoc.
      * rewrite !Forall_app. split_and!; try done. by apply Forall_singleton.
    + apply Forall_app. split; [|done].
      eapply Forall_impl; [done|]. intros y0. apply good_out_shorter.
    + apply StronglySorted_app. split_and!; try done.
      intros y1 y2 Hy1in Hy2in.
      pose proof (proj1 (Forall_forall _ _) Hgood1 _ Hy1in) as Hg1.
      pose proof (proj1 (Forall_forall _ _) Hgood4 _ Hy2in) as Hg2.
      pose proof (proj1 (Forall_forall _ _) Hle4 _ Hy2in) as (u & Hu & Hule).
      apply (lex_lt_at (length pre) y2 y1 u s); try done.
      * rewrite (g_pre _ _ Hg2). symmetry. apply (g_pre _ _ (good_out_shorter _ _ _ Hg1)).
      * by apply good_out_at.
      * pose proof (chain_lookup _ _ _ _ _ _ (ring_chain _ _ _ Hring)) as (_ & _ & _ & _ & Hc2).
        pose proof (chain_hd_bound _ _ _ _ Hc2 ltac:(lia)). lia.
    + apply Forall_app. split.
      * eapply Forall_impl; [done|]. intros y0 Hg. exists s. split; [|simpl; lia].
        by apply good_out_at.
      * eapply Forall_impl; [done|]. intros y0 (u & Hu & Hule). exists u. split; [done|].
        pose proof (chain_lookup _ _ _ _ _ _ (ring_chain _ _ _ Hring)) as (_ & _ & _ & _ & Hc2).
        pose proof (chain_hd_bound _ _ _ _ Hc2 ltac:(lia)). simpl. lia.
Qed.

End loop.

End search.

(** ** The recursion of [build_bracelets] *)

Lemma chain_length nxt prv p av :
  chain nxt prv p av → 0 ≤ p → Z.of_nat (length av) ≤ p.
Proof.
  revert p. induction av as [|s av IH]; intros p Hc Hp; [simpl; lia|].
  destruct Hc as (Hs & _ & _ & Hc). specialize (IH _ Hc ltac:(lia)). simpl. lia.
Qed.

Lemma count_shape (pre : list Z) (k : nat) (v s : Z) :
  count s (pre ++ replicate k v) =
  count s pre + (if v =? s then Z.of_nat k else 0).
Proof. by rewrite count_app, count_replicate. Qed.

Lemma getitem_in_range {A} (l : list A) i :
  0 ≤ i < Z.of_nat (length l) →
  ∃ x, getitem l i = Ok x ∧ l !! Z.to_nat i = Some x.
Proof.
  intros Hi. destruct (lookup_lt_is_Some_2 l (Z.to_nat i)) as [x Hx]; [lia|].
  exists x. split; [|done]. apply getitem_nonneg; [lia|done].
Qed.

Section build_correct.

Variable c : list Z.

Lemma completion_counts a t p r z b σ pre x :
  inv c a t p r z b σ pre →
  getitem (n (dll σ)) (-1) = Ok x → x = sum c - t + 1 →
  good_out c pre a.
Proof.
  intros [Ht Ha Hw Hd Hring Hle Hrun Hr Hz Hb] Hx Hxe.
  pose proof (w_len _ _ _ _ Hw) as Hlen.
  destruct Hd as [D1 D2 D3 D4 D5 D6].
  split.
  - rewrite Ha, length_app, length_replicate. lia.
  - rewrite Ha. by rewrite take_app_length.
  - intros s cs Hs. rewrite Ha, count_shape.
    pose proof (D4 _ _ Hs) as Hns.
    assert (s < length c)%nat as Hslt by (by eapply lookup_lt_Some).
    assert (n (dll σ) !! (length c - 1)%nat = Some x) as Hx'.
    { unfold getitem in Hx. rewrite norm_index_m1 in Hx by lia.
      rewrite D3 in Hx. destruct (n (dll σ) !! (length c - 1)%nat); congruence. }
    destruct (Z.eqb_spec (Z.of_nat (length c) - 1) (Z.of_nat s)) as [E|E].
    + replace (length c - 1)%nat with s in Hx' by lia.
      rewrite Hns in Hx'. simplify_eq. lia.
    + assert (cs - count (Z.of_nat s) pre = 0); [|lia].
      eapply (sum_nonneg_zero _ _ _ D5 Hx'); [lia| |done]. lia.
Qed.

Lemma build_spec fuel : ∀ a t p r z b RS σ pre,
  inv c a t p r z b σ pre →
  (Z.to_nat (sum c) + 1 - length pre ≤ fuel)%nat →
  ∃ out σ', build_bracelets fuel a t p r z b RS σ = Ok (out, σ') ∧
            post c σ σ' pre out ∧ seen σ' ≠ [].
Proof.
  induction fuel as [|fuel IH]; intros a t p r z b RS σ pre Hinv Hfuel.
  { pose proof (w_len _ _ _ _ (i_w _ _ _ _ _ _ _ _ _ Hinv)). lia. }
  pose proof Hinv as [Ht Ha Hw Hd Hring Hle Hrun Hr Hz Hb].
  pose proof (w_len _ _ _ _ Hw) as Hlen. pose proof (w_p _ _ _ _ Hw) as Hp.
  pose proof (w_zero _ _ _ _ Hw) as H0.
  assert (1 ≤ Z.of_nat (length c)) as HK.
  { pose proof (Forall_lookup_1 _ _ _ _ (w_range _ _ _ _ Hw) H0). simpl in *. lia. }
  assert (length a = Z.to_nat (sum c)) as Hla.
  { rewrite Ha, length_app, length_replicate. lia. }
  cbn [build_bracelets]. rewrite bind_eq. cbn [observe]. rewrite bind_eq. cbn [get_dll dll].
  set (σo := mkState (dll σ) (lenenc σ) (run σ) (dll σ :: seen σ)).
  rewrite (dinv_tot _ _ _ Hd), (dinv_items _ _ _ Hd).
  (* the update of [RS] reads two positions of [a] *)
  assert (∃ RS1,
    (if 2 * (t - 1) >? 2 * r + (sum c - r)
     then let* x := lift (getitem a (t - 2)) in
          let* y := lift (getitem a (sum c - t + r + 1)) in
          if x >? y then ret false else if x <? y then ret true else ret RS
     else ret RS) σo = Ok (RS1, σo)) as (RS1 & HRS1).
  { destruct (Z.gtb_spec (2 * (t - 1)) (2 * r + (sum c - r))); [|by eexists].
    destruct (getitem_in_range a (t - 2)) as (x & Hx & _); [lia|].
    destruct (getitem_in_range a (sum c - t + r + 1)) as (y & Hy & _); [lia|].
    rewrite (bind_lift _ _ _ _ Hx), (bind_lift _ _ _ _ Hy).
    destruct (x >? y); [by eexists|]. destruct (x <? y); by eexists. }
  rewrite bind_eq, HRS1.
  destruct (lookup_lt_is_Some_2 (n (dll σ)) (length (n (dll σ)) - 1)%nat) as [nlast Hnl].
  { rewrite (dinv_len _ _ _ Hd). lia. }
  pose proof (getitem_m1 _ _ Hnl) as Hnl'.
  rewrite bind_eq, (dll_n_eq _ _ σo Hnl').
  assert (ring_ok (length c) (dll σ)) as Hrok by done.
  destruct (Z.eqb_spec nlast (sum c - t + 1)) as [Heq|Hneq].
  - (* completion *)
    rewrite bind_eq. cbn [get_run].
    destruct (getitem_in_range (run σ) (t - p - 1)) as (rv & Hrv & _); [lia|].
    rewrite (bind_lift _ _ _ _ Hrv).
    set (p' := if nlast >? rv then sum c else p).
    assert (∃ RS2,
      (if (nlast >? 0) && negb (r + 1 =? t)
       then let* le := get_lenenc in
            let* e := lift (getitem le (b + 1)) in
            let* e0 := lift (item0 e) in
            let* e1 := lift (item1 e) in
            if (e0 =? Z.of_nat (length c) - 1) && (e1 >? nlast) then ret true
            else if negb (e0 =? Z.of_nat (length c) - 1) || (e1 <? nlast)
                 then ret false else ret RS1
       else ret RS1) σo = Ok (RS2, σo)) as (RS2 & HRS2).
    { destruct ((nlast >? 0) && negb (r + 1 =? t)) eqn:Hcond; [|by eexists].
      apply andb_prop in Hcond as [_ Hrt]. apply negb_true_iff, Z.eqb_neq in Hrt.
      destruct Hb as [(Hbr & _)|Hb]; [lia|].
      destruct (lookup_runs (rle pre) (b + 1)) as [[e0 e1] He]; [lia|].
      assert (1 ≤ b + 1) as Hb1 by lia.
      rewrite bind_eq. subst σo. cbn [get_lenenc lenenc]. rewrite Hle.
      rewrite (bind_lift _ _ _ _ (getitem_lenenc _ _ _ Hb1 He)).
      unfold run_item. cbn [item0 item1 fst snd].
      rewrite (bind_lift _ e0 _ _ eq_refl), (bind_lift _ e1 _ _ eq_refl).
      destruct ((e0 =? Z.of_nat (length c) - 1) && (e1 >? nlast)); [by eexists|].
      destruct (negb (e0 =? Z.of_nat (length c) - 1) || (e1 <? nlast)); by eexists. }
    rewrite bind_eq, HRS2.
    destruct (negb RS2 && (sum c =? p')).
    + eexists _, _. split; [reflexivity|]. split; [split|by subst σo].
      * by split; [apply dll_equiv_refl|..].
      * exists [dll σ]. split; [done|]. by apply Forall_singleton.
      * apply Forall_singleton. by eapply completion_counts.
      * repeat constructor.
    + eexists _, _. split; [reflexivity|]. split; [by apply post_refl_seen|by subst σo].
  - (* one more symbol *)
    assert (Z.of_nat (length pre) < sum c) as HL.
    { destruct (decide (Z.of_nat (length pre) = sum c)) as [E|E]; [|lia].
      pose proof (dinv_sum _ _ _ Hd) as Hs. rewrite E in Hs.
      pose proof (sum_ge_one _ _ _ (dinv_nonneg _ _ _ Hd) Hnl).
      pose proof (Forall_lookup_1 _ _ _ _ (dinv_nonneg _ _ _ Hd) Hnl). simpl in *. lia. }
    destruct (getitem_in_range (n (dll σ)) 0) as (n0 & Hn0 & _).
    { rewrite (dinv_len _ _ _ Hd). lia. }
    rewrite bind_eq, (dll_n_eq _ _ σo Hn0).
    destruct (negb (n0 =? sum c - t + 1)).
    2:{ eexists _, _. split; [reflexivity|]. split; [by apply post_refl_seen|by subst σo]. }
    destruct Hring as (av & Hrg & Hav).
    assert (a = pre ++ (Z.of_nat (length c) - 1) ::
                replicate (Z.to_nat (sum c) - length pre - 1) (Z.of_nat (length c) - 1)) as Ha'.
    { rewrite Ha at 1. f_equal.
      destruct (Z.to_nat (sum c) - length pre)%nat as [|k] eqn:E; [lia|].
      simpl. do 2 f_equal. lia. }
    rewrite Ha'. unfold head. rewrite (ring_head _ _ _ Hrg).
    destruct (loop_spec c (build_bracelets fuel) pre t p r z b RS1) with
      (suffix := av) (done := @nil Z) (lf := S (length (next (dll σ))))
      (v := Z.of_nat (length c) - 1) (σ := σo)
      as (out & σ' & Hloop & Hpost & _); try done.
    { intros a2 t2 p2 r2 z2 b2 RS2 σ2 s Hinv2.
      destruct (IH a2 t2 p2 r2 z2 b2 RS2 σ2 (pre ++ [s]) Hinv2) as (o2 & σ2' & Ho2 & Hp2 & _).
      { rewrite length_app. simpl. lia. }
      by exists o2, σ2'. }
    { rewrite (ring_len_next _ _ _ Hrg).
      pose proof (chain_length _ _ _ _ (ring_chain _ _ _ Hrg) ltac:(lia)). lia. }
    exists out, σ'. split; [exact Hloop|].
    destruct Hpost as [Hq (new & Hnew & Hnewok) Hgood Hsort]. split; [split; try done|].
    + destruct Hq. by split.
    + exists (new ++ [dll σ]). split; [by rewrite Hnew, <- app_assoc|].
      apply Forall_app. split; [done|]. by apply Forall_singleton.
    + rewrite Hnew. subst σo. by destruct new.
Qed.

End build_correct.

(** ** The generator [get_bracelets] *)

Lemma sum_ge_length (c : list Z) :
  Forall (λ x, 1 ≤ x) c → Z.of_nat (length c) ≤ sum c.
Proof. induction 1; simpl; [done|]. fold (sum l). lia. Qed.

Lemma desc_snoc (m : nat) : ∃ av1, desc (S m) = av1 ++ [0].
Proof.
  induction m as [|m [av1 IH]]; [by exists []|].
  exists (Z.of_nat (S m) :: av1). change (desc (S (S m))) with (Z.of_nat (S m) :: desc (S m)).
  by rewrite IH.
Qed.

Lemma avail_init (c : list Z) :
  Forall (λ x, 1 ≤ x) c → avail (desc (length c)) c.
Proof.
  intros Hpos s. rewrite elem_of_desc. split.
  - intros Hs. split; [lia|].
    destruct (lookup_lt_is_Some_2 c (Z.to_nat s)) as [x Hx]; [lia|].
    exists x. split; [done|]. pose proof (Forall_lookup_1 _ _ _ _ Hpos Hx). simpl in *. lia.
  - intros (Hs & x & Hx & _). apply lookup_lt_Some in Hx. lia.
Qed.

Lemma dinv_init (c : list Z) :
  Forall (λ x, 1 ≤ x) c → dinv c [] (init c).
Proof.
  intros Hpos. split; simpl; try done.
  - intros s x Hx. rewrite Hx. f_equal. lia.
  - eapply Forall_impl; [done|]. simpl. lia.
  - lia.
Qed.

Section top.

Variable c : list Z.
Hypothesis Hvalid : valid_content c.

(** The generator runs to its end; [post] relates its last state to the
    state at the first call of [build_bracelets]. *)
Lemma get_bracelets_post :
  ∃ out σ' av1 x0,
    get_bracelets (init c) = Ok (out, σ') ∧
    desc (length c) = av1 ++ [0] ∧ c !! 0%nat = Some x0 ∧
    post c (mkState (placed (length c) av1 0 [] (init c) x0) [Cnt 1; Run 0 1]
                    (replicate (Z.to_nat (sum c)) 0) [])
         σ' [0] out ∧
    seen σ' ≠ [].
Proof.
  destruct Hvalid as [Hlen Hpos].
  pose proof (sum_ge_length c Hpos) as HN.
  destruct (desc_snoc (length c - 1)) as [av1 Hav1].
  replace (S (length c - 1)) with (length c) in Hav1 by lia.
  pose proof (ring_init c) as Hring. rewrite Hav1 in Hring.
  pose proof (avail_init c Hpos) as Hav. rewrite Hav1 in Hav.
  destruct (lookup_lt_is_Some_2 c 0%nat) as [x0 Hx0]; [lia|].
  unfold get_bracelets. cbn [n_tot n_items init].
  unfold list_mul.
  rewrite setitem_nonneg by (rewrite length_replicate; lia). cbn [res_bind].
  set (σ0 := mkState (init c) [] (replicate (Z.to_nat (sum c)) 0) []).
  rewrite bind_eq, (dll_n_add_eq 0 (-1) x0 σ0); [|lia|done].
  rewrite bind_eq. cbn [put_lenenc]. rewrite bind_eq.
  erewrite dll_n_eq.
  2:{ apply getitem_nonneg; [lia|]. cbn [dll with_dll set_n n].
      apply list_lookup_insert_eq. simpl. lia. }
  rewrite bind_eq.
  set (σ1 := mkState (placed (length c) av1 0 [] (init c) x0) [Cnt 1; Run 0 1]
                     (replicate (Z.to_nat (sum c)) 0) []).
  assert ((if x0 + -1 =? 0 then dll_remove 0 else ret tt)
            (mkState (dll (with_dll σ0 (set_n (dll σ0) (<[Z.to_nat 0 := x0 + -1]> (n (dll σ0))))))
               [Cnt 1; Run 0 1]
               (run (with_dll σ0 (set_n (dll σ0) (<[Z.to_nat 0 := x0 + -1]> (n (dll σ0))))))
               (seen (with_dll σ0 (set_n (dll σ0) (<[Z.to_nat 0 := x0 + -1]> (n (dll σ0)))))))
          = Ok (tt, σ1)) as ->.
  { subst σ1. unfold placed. replace (x0 + -1) with (x0 - 1) by lia.
    destruct (Z.eqb_spec (x0 - 1) 0).
    - erewrite dll_remove_eq; [done|]. cbn [dll with_dll].
      apply (remove_ring (length c) av1 0 []). by apply ring_set_n.
    - done. }
  destruct (build_spec c (S (Z.to_nat (sum c)))
    (<[Z.to_nat 0:=0]> (replicate (Z.to_nat (sum c)) (Z.of_nat (length c) - 1)))
    2 1 1 2 1 false σ1 [0]) as (out & σ' & Hbuild & Hpost & Hne).
  { split; try done.
    - destruct (Z.to_nat (sum c)) as [|k] eqn:E; [lia|]. simpl. by rewrite Nat.sub_0_r.
    - split; [done|simpl; lia|repeat constructor; lia|simpl; lia| |by left|
              apply nowin_nil_zero].
      intros i v Hi Hv. apply lookup_lt_Some in Hv. simpl in *. lia.
    - apply (placed_dinv c [] av1 0 [] (init c) x0); try done. by apply dinv_init.
    - by apply (placed_ring_ok (length c) av1 0 [] (init c) x0).
    - simpl. by rewrite length_replicate.
    - left. simpl. split_and!; try done. by left. }
  { simpl. lia. }
  by exists out, σ', av1, x0.
Qed.

Lemma get_bracelets_spec :
  ∃ out σ',
    get_bracelets (init c) = Ok (out, σ') ∧
    Forall (good_out c [0]) out ∧
    StronglySorted (λ x y, lex_lt y x) out ∧
    Forall (ring_ok (length c)) (seen σ') ∧ seen σ' ≠ [].
Proof.
  destruct get_bracelets_post as (out & σ' & av1 & x0 & Hbuild & _ & _ & Hpost & Hne).
  exists out, σ'. split; [exact Hbuild|].
  destruct Hpost as [_ (new & Hnew & Hok) Hgood Hsort]. split_and!; try done.
  rewrite Hnew. simpl. by rewrite app_nil_r.
Qed.

End top.

(** ** The exposed list: [sorted] *)

Lemma lex_lt_lex x y : lex_lt x y ↔ lex x y.
Proof.
  unfold lex_lt. revert x. induction y as [|v y IH]; intros x.
  - split; [by destruct x|]. inversion 1.
  - destruct x as [|u x]; simpl.
    + split; [constructor|done].
    + destruct (Z.ltb_spec v u); simpl.
      * split; [done|]. inversion 1; subst; [lia|lia].
      * destruct (Z.eqb_spec v u); simpl.
        -- subst. rewrite IH. split; [by constructor|]. inversion 1; subst; [lia|done].
        -- split; [intros _; constructor; lia|done].
Qed.

Lemma lex_irrefl x : ¬ lex x x.
Proof. induction x; inversion 1; subst; [lia|done]. Qed.

Lemma insert_sorted_greatest x l :
  Forall (λ y, lex_lt y x) l → insert_sorted x l = l ++ [x].
Proof.
  induction 1 as [|y l Hy Hall IH]; [done|]. simpl.
  unfold lex_lt in Hy. rewrite Hy. by rewrite IH.
Qed.

Lemma sorted_decreasing out :
  StronglySorted (λ x y, lex_lt y x) out → sorted out = reverse out.
Proof.
  induction 1 as [|x l Hs IH Hall]; [done|].
  unfold sorted in *. simpl. rewrite IH, reverse_cons.
  apply insert_sorted_greatest. by apply Forall_reverse.
Qed.

Lemma StronglySorted_reverse {A} (R : relation A) l :
  StronglySorted R l → StronglySorted (flip R) (reverse l).
Proof.
  induction 1 as [|x l Hs IH Hall]; [constructor|].
  rewrite reverse_cons. apply StronglySorted_app. split_and!; [|done|repeat constructor].
  intros y1 y2 Hy1 Hy2. apply list_elem_of_singleton in Hy2 as ->.
  rewrite elem_of_reverse in Hy1. unfold flip.
  rewrite Forall_forall in Hall. by apply Hall.
Qed.

Lemma StronglySorted_lex_NoDup l : StronglySorted lex l → NoDup l.
Proof.
  induction 1 as [|x l Hs IH Hall]; constructor; [|done].
  intros Hin. apply (lex_irrefl x). by apply (proj1 (Forall_forall _ _) Hall).
Qed.

Lemma as_numbers_PInt (c : list Z) : as_numbers (PInt <$> c) = Some c.
Proof. induction c as [|x c IH]; [done|]. csimpl. by rewrite IH. Qed.

Lemma Bracelets_of_valid c :
  valid_content c →
  ∃ out, Bracelets_of c = Ok (Bracelets.mk c (reverse out)) ∧
         Forall (good_out c [0]) out ∧
         StronglySorted (λ x y, lex_lt y x) out.
Proof.
  intros Hv. destruct (get_bracelets_spec c Hv) as (out & σ' & Hg & Hgood & Hsort & _).
  exists out. split_and!; try done.
  unfold Bracelets_of, Bracelets_init. rewrite length_fmap.
  destruct Hv as [Hlen _]. destruct (Z.ltb_spec (Z.of_nat (length c)) 2); [lia|].
  rewrite as_numbers_PInt. unfold construct. rewrite Hg. simpl.
  by rewrite sorted_decreasing.
Qed.

(** ** The ring read through its links *)

Lemma walk_chain nxt prv av : ∀ p fuel,
  chain nxt prv p av → (length av < fuel)%nat →
  walk fuel nxt (hd (-1) av) = av.
Proof.
  induction av as [|s av IH]; intros p fuel Hc Hf.
  - destruct fuel; [simpl in Hf; lia|]. done.
  - destruct fuel as [|fuel]; [simpl in Hf; lia|].
    destruct Hc as (Hs & Hn & _ & Hc). cbn [walk hd].
    destruct (Z.ltb_spec s 0); [lia|].
    rewrite (getitem_nonneg _ _ _ (proj1 Hs) Hn).
    f_equal. apply (IH s); [done|]. simpl in Hf. lia.
Qed.

Lemma traversal_ring K av d : ring K av d → traversal d = av.
Proof.
  intros [H1 H2 H3 H4 H5]. unfold traversal, head. rewrite H4.
  apply (walk_chain _ _ _ _ _ H5).
  pose proof (chain_length _ _ _ _ H5 ltac:(lia)). lia.
Qed.

Lemma chain_desc nxt prv av : ∀ p,
  chain nxt prv p av → StronglySorted (λ x y, y < x) av.
Proof.
  induction av as [|s av IH]; intros p Hc; constructor.
  - destruct Hc as (_ & _ & _ & Hc). by apply (IH s).
  - destruct Hc as (_ & _ & _ & Hc). apply Forall_forall. intros y Hy.
    pose proof (chain_bounds _ _ _ _ _ Hc Hy). lia.
Qed.

Lemma ring_ok_sound K d : ring_ok K d → ring_sound d.
Proof.
  intros (av & Hring & Hav). pose proof (traversal_ring _ _ _ Hring) as Ht.
  split.
  - intros s. rewrite Ht. apply Hav.
  - intros s Hs. apply Hav in Hs. unfold head. rewrite (ring_head _ _ _ Hring).
    by apply (chain_hd_ge _ _ _ _ _ (ring_chain _ _ _ Hring)).
  - rewrite Ht. intros Hne. apply Hav. unfold head. rewrite (ring_head _ _ _ Hring).
    destruct av; [done|]. by left.
  - rewrite Ht. by apply (chain_desc _ _ _ _ (ring_chain _ _ _ Hring)).
Qed.

Lemma remove_add_ring K av d j :
  ring K av d → j ∈ av →
  ∃ d1 d2, remove j d = Ok d1 ∧ add j d1 = Ok d2 ∧ ring K av d2 ∧ n d2 = n d.
Proof.
  intros Hring Hj. apply list_elem_of_split in Hj as (av1 & av2 & ->).
  pose proof (remove_ring _ _ _ _ _ Hring) as Hrem.
  destruct (add_restore K av1 j av2 d _ Hring (dll_equiv_refl _ _)) as (d2 & Hadd & Hn & He).
  eexists _, d2. split; [exact Hrem|]. split; [exact Hadd|]. split.
  - eapply ring_equiv; [|exact He]. by apply ring_set_n.
  - rewrite Hn. done.
Qed.

(** ** The expansions of run-length forms *)

Lemma expand_cons s l runs :
  expand ((s, l) :: runs) = replicate (Z.to_nat l) s ++ expand runs.
Proof. done. Qed.

Lemma expand_as_tuple_loop l : ∀ curr k,
  0 ≤ k → expand (as_tuple_loop curr k l) = replicate (Z.to_nat k) curr ++ l.
Proof.
  induction l as [|b l IH]; intros curr k Hk; simpl.
  - rewrite expand_cons. done.
  - destruct (Z.eqb_spec b curr) as [->|Hne].
    + rewrite IH by lia. replace (Z.to_nat (k + 1)) with (Z.to_nat k + 1)%nat by lia.
      rewrite replicate_add. simpl. by rewrite <- app_assoc.
    + rewrite expand_cons, IH by lia. done.
Qed.

Lemma expand_as_tuple1 y rest : y = 0 :: rest → expand (as_tuple1 y) = y.
Proof.
  intros ->. unfold as_tuple1. simpl. rewrite drop_0.
  by rewrite expand_as_tuple_loop.
Qed.

Lemma good_out_zero c y : good_out c [0] y → ∃ rest, y = 0 :: rest.
Proof.
  intros [_ H _]. simpl in H. destruct y as [|x y]; [done|].
  simpl in H. rewrite take_0 in H. exists y. congruence.
Qed.

Lemma sum_nonneg_valid c : valid_content c → 0 ≤ sum c.
Proof. intros [_ H]. pose proof (sum_ge_length c H). lia. Qed.

Lemma StronglySorted_mono {A} (R R' : relation A) l :
  (∀ x y, R x y → R' x y) → StronglySorted R l → StronglySorted R' l.
Proof.
  intros HR. induction 1 as [|x l Hs IH Hall]; constructor; [done|].
  eapply Forall_impl; [exact Hall|]. intros y. apply HR.
Qed.

(** ** Theorems on the generated list *)

(** C2: for a content vector of at least two positive multiplicities,
    the constructor returns an object, and every bracelet of its list has
    length [sum(content)] and holds symbol [i] exactly [content[i]]
    times. *)
Theorem C2_length_and_counts (c : list Z) :
  valid_content c →
  ∃ B, Bracelets_of c = Ok B ∧
       Forall (λ y, Z.of_nat (length y) = sum c ∧
                    ∀ (i : nat) x, c !! i = Some x → count (Z.of_nat i) y = x)
              (bracelets B).
Proof.
  intros Hv. destruct (Bracelets_of_valid c Hv) as (out & HB & Hgood & _).
  eexists. split; [exact HB|]. unfold bracelets. simpl.
  apply Forall_reverse. eapply Forall_impl; [exact Hgood|].
  intros y [H1 _ H3]. split; [|done].
  pose proof (sum_nonneg_valid c Hv). lia.
Qed.

(** An instance of [C2_length_and_counts]. *)
Lemma C2_length_and_counts_witness :
  valid_content [1; 2; 3] ∧
  ∃ B, Bracelets_of [1; 2; 3] = Ok B ∧
       Forall (λ y, Z.of_nat (length y) = sum [1; 2; 3] ∧
                    ∀ (i : nat) x, [1; 2; 3] !! i = Some x → count (Z.of_nat i) y = x)
              (bracelets B).
Proof.
  assert (valid_content [1; 2; 3]) as Hv.
  { split; [simpl; lia|]. repeat constructor; lia. }
  split; [exact Hv|]. exact (C2_length_and_counts [1; 2; 3] Hv).
Defined.

(** C3: for a content vector of at least two positive multiplicities,
    the list of the object is strictly increasing in the lexicographic
    order, and so holds no bracelet twice. *)
Theorem C3_strictly_increasing (c : list Z) :
  valid_content c →
  ∃ B, Bracelets_of c = Ok B ∧
       StronglySorted lex (bracelets B) ∧ NoDup (bracelets B).
Proof.
  intros Hv. destruct (Bracelets_of_valid c Hv) as (out & HB & _ & Hsort).
  eexists. split; [exact HB|]. unfold bracelets. simpl.
  assert (StronglySorted lex (reverse out)) as Hs.
  { apply StronglySorted_reverse in Hsort.
    eapply StronglySorted_mono; [|exact Hsort].
    intros x y Hxy. unfold flip in Hxy. by apply lex_lt_lex. }
  split; [done|]. by apply StronglySorted_lex_NoDup.
Qed.

(** An instance of [C3_strictly_increasing]. *)
Lemma C3_strictly_increasing_witness :
  valid_content [3; 4; 5] ∧
  ∃ B, Bracelets_of [3; 4; 5] = Ok B ∧
       StronglySorted lex (bracelets B) ∧ NoDup (bracelets B).
Proof.
  assert (valid_content [3; 4; 5]) as Hv.
  { split; [simpl; lia|]. repeat constructor; lia. }
  split; [exact Hv|]. exact (C3_strictly_increasing [3; 4; 5] Hv).
Defined.

(** C5: for a content vector of at least two positive multiplicities,
    expanding the run-length form that [as_tuple] gives for a bracelet of
    the list gives the bracelet back, for the whole list in order. *)
Theorem C5_round_trip (c : list Z) :
  valid_content c →
  ∃ B, Bracelets_of c = Ok B ∧ expand <$> as_tuple B = bracelets B.
Proof.
  intros Hv. destruct (Bracelets_of_valid c Hv) as (out & HB & Hgood & _).
  eexists. split; [exact HB|]. unfold as_tuple, bracelets. simpl.
  apply Forall_reverse in Hgood. revert Hgood.
  generalize (reverse out). intros l Hl.
  induction Hl as [|y l Hy Hl IH]; [done|]. csimpl. rewrite IH. f_equal.
  destruct (good_out_zero _ _ Hy) as [rest Hrest]. by eapply expand_as_tuple1.
Qed.

(** An instance of [C5_round_trip]. *)
Lemma C5_round_trip_witness :
  valid_content [1; 2; 3] ∧
  ∃ B, Bracelets_of [1; 2; 3] = Ok B ∧ expand <$> as_tuple B = bracelets B.
Proof.
  assert (valid_content [1; 2; 3]) as Hv.
  { split; [simpl; lia|]. repeat constructor; lia. }
  split; [exact Hv|]. exact (C5_round_trip [1; 2; 3] Hv).
Defined.

(** C6: on a well-formed ring that holds [j], [remove(j)] followed at
    once by [add(j)] succeeds and leaves the traversal order and the
    value of [head()] as they were before. *)
Theorem C6_remove_add_idempotent (K : nat) (av : list Z) (d : DLL) (j : Z) :
  ring K av d → j ∈ traversal d →
  ∃ d1 d2, remove j d = Ok d1 ∧ add j d1 = Ok d2 ∧
           traversal d2 = traversal d ∧ head d2 = head d ∧ n d2 = n d.
Proof.
  intros Hring Hj. rewrite (traversal_ring _ _ _ Hring) in Hj.
  destruct (remove_add_ring K av d j Hring Hj) as (d1 & d2 & H1 & H2 & Hring2 & Hn).
  exists d1, d2. split_and!; try done.
  - by rewrite (traversal_ring _ _ _ Hring), (traversal_ring _ _ _ Hring2).
  - unfold head. by rewrite (ring_head _ _ _ Hring), (ring_head _ _ _ Hring2).
Qed.

(** An instance of [C6_remove_add_idempotent]. *)
Lemma C6_remove_add_idempotent_witness :
  ring 3 [2; 1; 0] (init [3; 4; 5]) ∧ 1 ∈ traversal (init [3; 4; 5]) ∧
  ∃ d1 d2, remove 1 (init [3; 4; 5]) = Ok d1 ∧ add 1 d1 = Ok d2 ∧
           traversal d2 = traversal (init [3; 4; 5]) ∧
           head d2 = head (init [3; 4; 5]) ∧ n d2 = n (init [3; 4; 5]).
Proof.
  assert (ring 3 [2; 1; 0] (init [3; 4; 5])) as Hring by exact (ring_init [3; 4; 5]).
  assert (1 ∈ traversal (init [3; 4; 5])) as Hin.
  { vm_compute. apply elem_of_cons. right. apply elem_of_cons. by left. }
  split; [exact Hring|]. split; [exact Hin|].
  exact (C6_remove_add_idempotent 3 [2; 1; 0] (init [3; 4; 5]) 1 Hring Hin).
Defined.

(** C7 as stated fails: right after construction from [[3, 4, 5]] the
    head is symbol 2, the largest index and not the smallest. *)
Lemma C7_head_is_largest_counterexample :
  head (init [3; 4; 5]) = 2 ∧ traversal (init [3; 4; 5]) = [2; 1; 0].
Proof. split; reflexivity. Qed.

(** C7, amended: for a content vector of at least two positive
    multiplicities, right after construction the ring holds every symbol
    and [head()] is the largest index; the generation runs to its end, and
    at each of its observation points (every entry of [build_bracelets] and
    every test of its loop) the ring holds exactly the symbols with a
    positive remaining count, in decreasing order from [head()], which is
    the largest of them. *)
Theorem C7_ring_invariant (c : list Z) :
  valid_content c →
  ring_sound (init c) ∧ head (init c) = Z.of_nat (length c) - 1 ∧
  ∃ out σ', get_bracelets (init c) = Ok (out, σ') ∧
            seen σ' ≠ [] ∧ Forall ring_sound (seen σ').
Proof.
  intros Hv. split_and!.
  - apply (ring_ok_sound (length c)). exists (desc (length c)).
    split; [apply ring_init|]. apply avail_init. by destruct Hv.
  - done.
  - destruct (get_bracelets_spec c Hv) as (out & σ' & Hg & _ & _ & Hseen & Hne).
    exists out, σ'. split_and!; try done.
    eapply Forall_impl; [exact Hseen|]. intros d. apply ring_ok_sound.
Qed.

(** An instance of [C7_ring_invariant]. *)
Lemma C7_ring_invariant_witness :
  valid_content [3; 4; 5] ∧
  ring_sound (init [3; 4; 5]) ∧
  head (init [3; 4; 5]) = Z.of_nat (length [3; 4; 5]) - 1 ∧
  ∃ out σ', get_bracelets (init [3; 4; 5]) = Ok (out, σ') ∧
            seen σ' ≠ [] ∧ Forall ring_sound (seen σ').
Proof.
  assert (valid_content [3; 4; 5]) as Hv.
  { split; [simpl; lia|]. repeat constructor; lia. }
  split; [exact Hv|]. exact (C7_ring_invariant [3; 4; 5] Hv).
Defined.

(** ** Content vectors [[1, m]] *)

Lemma prelude_one_m (m : Z) (r : list Z) (k : M (list (list Z))) :
  (dll_n_add 0 (-1);;
   put_lenenc [Cnt 1; Run 0 1];;
   let* n0 := dll_n 0 in
   (if n0 =? 0 then dll_remove 0 else ret ());;
   k) (mkState (init [1; m]) [] r []) =
  k (mkState (DoubleLinkedList.mk [0; m] 2 (sum [1; m]) [-1; -1; 1] [1; 2; 1] 1)
             [Cnt 1; Run 0 1] r []).
Proof. reflexivity. Qed.

Lemma get_bracelets_one_m (m : Z) :
  1 ≤ m →
  ∃ σ', get_bracelets (init [1; m]) =
        Ok ([0 :: replicate (Z.to_nat m) 1], σ').
Proof.
  intros Hm. unfold get_bracelets. cbn [n_tot n_items init length].
  assert (sum [1; m] = 1 + m) as Hsum by (simpl; lia).
  unfold list_mul. rewrite Hsum.
  replace (Z.to_nat (1 + m)) with (S (Z.to_nat m)) by lia.
  cbn [replicate]. rewrite setitem_nonneg by (simpl; lia). cbn [res_bind].
  change (<[Z.to_nat 0:=0]> ((Z.of_nat 2 - 1) :: replicate (Z.to_nat m) (Z.of_nat 2 - 1)))
    with (0 :: replicate (Z.to_nat m) 1).
  eexists. rewrite prelude_one_m, Hsum.
  cbn [build_bracelets]. rewrite bind_eq. cbn [observe]. rewrite bind_eq.
  cbn [get_dll dll n_tot n_items].
  destruct (Z.gtb_spec (2 * (2 - 1)) (2 * 1 + (1 + m - 1))) as [Hgt|_]; [lia|].
  rewrite bind_eq. cbn [ret]. rewrite bind_eq.
  erewrite dll_n_eq by reflexivity.
  replace (1 + m - 2 + 1) with m by lia. rewrite Z.eqb_refl.
  rewrite bind_eq. cbn [get_run run].
  erewrite bind_lift by reflexivity.
  change (1 + 1 =? 2) with true. cbn [negb]. rewrite andb_false_r.
  rewrite bind_eq. cbn [ret negb andb].
  destruct (Z.gtb_spec m 0) as [_|Hle]; [|lia].
  rewrite Z.eqb_refl. reflexivity.
Qed.

Lemma Bracelets_of_one_m (m : Z) :
  1 ≤ m →
  Bracelets_of [1; m] = Ok (Bracelets.mk [1; m] [0 :: replicate (Z.to_nat m) 1]).
Proof.
  intros Hm. destruct (get_bracelets_one_m m Hm) as [σ' Hg].
  unfold Bracelets_of, Bracelets_init. cbn [fmap list_fmap length].
  change (Z.of_nat 2 <? 2) with false. cbv iota.
  cbn [as_numbers as_number]. unfold construct. rewrite Hg. done.
Qed.

(** ** Theorems on values *)

(** C1: the object built from [[1, 2, 3]] lists exactly the six
    bracelets of the specification, in its order, and [as_tuple] gives
    their six run-length forms in the same order.  The generator itself
    yields the six in the opposite order; [sorted] in [__init__] puts
    them in this one. *)
Theorem C1_bracelets_1_2_3 :
  ∃ B, Bracelets_init (AList [PInt 1; PInt 2; PInt 3]) = Ok B ∧
       bracelets B =
         [[0; 1; 1; 2; 2; 2]; [0; 1; 2; 1; 2; 2]; [0; 1; 2; 2; 1; 2];
          [0; 1; 2; 2; 2; 1]; [0; 2; 1; 1; 2; 2]; [0; 2; 1; 2; 1; 2]] ∧
       as_tuple B =
         [[(0, 1); (1, 2); (2, 3)];
          [(0, 1); (1, 1); (2, 1); (1, 1); (2, 2)];
          [(0, 1); (1, 1); (2, 2); (1, 1); (2, 1)];
          [(0, 1); (1, 1); (2, 3); (1, 1)];
          [(0, 1); (2, 1); (1, 2); (2, 2)];
          [(0, 1); (2, 1); (1, 1); (2, 1); (1, 1); (2, 1)]] ∧
       res_bind (get_bracelets (init [1; 2; 3])) (λ r, Ok r.1) =
         Ok (reverse (bracelets B)).
Proof.
  eexists. split; [vm_compute; reflexivity|]. split_and!; vm_compute; reflexivity.
Qed.

(** C4 as stated fails: the content [[2, 3]] has two symbols and gives
    two bracelets. *)
Lemma C4_two_symbols_counterexample :
  Bracelets_init (AList [PInt 2; PInt 3]) =
  Ok (Bracelets.mk [2; 3] [[0; 0; 1; 1; 1]; [0; 1; 0; 1; 1]]).
Proof. vm_compute. reflexivity. Qed.

(** C4, amended: for the content [[1, m]] with [m >= 1] the object
    lists exactly one bracelet, a 0 followed by [m] times 1. *)
Theorem C4_one_and_m (m : Z) :
  1 ≤ m →
  ∃ B, Bracelets_of [1; m] = Ok B ∧
       bracelets B = [0 :: replicate (Z.to_nat m) 1] ∧
       length (bracelets B) = 1%nat.
Proof.
  intros Hm. eexists. split; [by apply Bracelets_of_one_m|]. done.
Qed.

(** An instance of [C4_one_and_m]. *)
Lemma C4_one_and_m_witness :
  1 ≤ 4 ∧
  ∃ B, Bracelets_of [1; 4] = Ok B ∧
       bracelets B = [0 :: replicate (Z.to_nat 4) 1] ∧
       length (bracelets B) = 1%nat.
Proof.
  assert (1 ≤ 4) as Hm by lia.
  split; [exact Hm|]. exact (C4_one_and_m 4 Hm).
Defined.

(** ** Validation errors *)

Lemma as_numbers_not_integral l :
  forallb integral l = false → as_numbers l = None.
Proof.
  induction l as [|x l IH]; [done|]. cbn [forallb as_numbers].
  destruct x; cbn [integral as_number andb]; try done;
    intros H; rewrite (IH H); done.
Qed.

Lemma is_int_not_integral l :
  forallb integral l = false → forallb is_int l = false.
Proof.
  induction l as [|x l IH]; [done|]. cbn [forallb].
  destruct x; cbn [integral is_int andb]; try done; apply IH.
Qed.

(** C8 as stated fails: the "Isomers" and "Bracelets" constructors take
    the content [[1, 0]], which holds a multiplicity below 1, and return an
    object. *)
Lemma C8_zero_multiplicity_counterexample :
  Bracelets_init (AList [PInt 1; PInt 0]) = Ok (Bracelets.mk [1; 0] [[0]]) ∧
  Isomers.init (AList [PInt 1; PInt 0]) ENone =
  Ok (Isomers.mk (AList [PInt 1; PInt 0]) None (Bracelets.mk [1; 0] [[0]])
        ["(A)1"%string]).
Proof. split; vm_compute; reflexivity. Qed.

(** C8, amended: on a list that has fewer than two entries or holds an
    entry that is not an integer, [Bracelets(components)] and
    [Isomers(composition, elements)] fail with a [TypeError] or a
    [ValueError].  A multiplicity below 1 is not refused for itself. *)
Theorem C8_validation_errors (l : list pyval) (e : elements_arg) :
  (length l < 2)%nat ∨ forallb integral l = false →
  type_or_value_error (Bracelets_init (AList l)) = true ∧
  type_or_value_error (Isomers.init (AList l) e) = true.
Proof.
  intros Hl. split.
  - unfold Bracelets_init.
    destruct (Z.ltb_spec (Z.of_nat (length l)) 2) as [Hlt|Hge]; [done|].
    destruct Hl as [Hl|Hl]; [lia|]. by rewrite (as_numbers_not_integral l Hl).
  - unfold Isomers.init, Isomers.check_composition.
    destruct (Z.ltb_spec (Z.of_nat (length l)) 2) as [Hlt|Hge]; [done|].
    destruct (Z.gtb_spec (Z.of_nat (length l)) 26) as [Hgt|Hle]; [done|].
    destruct Hl as [Hl|Hl]; [lia|]. by rewrite (is_int_not_integral l Hl).
Qed.

(** An instance of [C8_validation_errors]: a list with a string. *)
Lemma C8_validation_errors_witness :
  type_or_value_error (Bracelets_init (AList [PStr "a"; PInt 2])) = true ∧
  type_or_value_error (Isomers.init (AList [PStr "a"; PInt 2]) ENone) = true.
Proof.
  apply (C8_validation_errors [PStr "a"; PInt 2] ENone). right. reflexivity.
Defined.

(** ** Filtering *)

Lemma rename_keys_AB v visits :
  yields_ok labels_3_4_5 [("AB"%string, v)] visits = true →
  Isomers.rename_keys labels_3_4_5 1 [("AB"%string, v)] visits =
  Ok [("AB"%string, v)].
Proof.
  induction visits as [|key rest IH]; [done|].
  cbn [yields_ok Isomers.rename_keys Isomers.dict_get length Nat.eqb negb].
  destruct (String.eqb_spec "AB" key) as [<-|Hne]; [|done].
  change (Isomers._transform_to_letter labels_3_4_5 "AB") with (@Ok string "AB"%string).
  cbn [res_bind].
  change (Isomers.dict_set (Isomers.dict_pop [("AB"%string, v)] "AB") "AB" v)
    with [("AB"%string, v)].
  apply IH.
Qed.

(** Whatever keys the iterator yields, the renaming loop turns the dict
    [{'VSe2SnSe': v}] into [{'AB': v}]. *)
Lemma rename_keys_VSe2SnSe v visits :
  valid_visits labels_3_4_5 [("VSe2SnSe"%string, v)] visits = true →
  Isomers.rename_keys labels_3_4_5 1 [("VSe2SnSe"%string, v)] visits =
  Ok [("AB"%string, v)].
Proof.
  destruct visits as [|key rest]; [done|].
  cbn [valid_visits yields_ok Isomers.rename_keys Isomers.dict_get length Nat.eqb negb].
  destruct (String.eqb_spec "VSe2SnSe" key) as [<-|Hne]; [|done].
  change (Isomers._transform_to_letter labels_3_4_5 "VSe2SnSe")
    with (@Ok string "AB"%string).
  cbn [res_bind].
  change (Isomers.dict_set (Isomers.dict_pop [("VSe2SnSe"%string, v)] "VSe2SnSe") "AB" v)
    with [("AB"%string, v)].
  apply rename_keys_AB.
Qed.

(** With the labels of the unit tests the result for the condition
    [{'VSe2SnSe': v}] does not depend on the keys that the iterator
    yields. *)
Lemma subset_VSe2SnSe (iso : Isomers.t) (v : cval) (visits : list string) :
  Isomers._elements iso = Some labels_3_4_5 →
  valid_visits labels_3_4_5 [("VSe2SnSe"%string, v)] visits = true →
  ∀ tuples,
    Isomers._filter_interface iso tuples [("VSe2SnSe"%string, v)] visits =
    Isomers.apply_interface iso tuples [("AB"%string, v)].
Proof.
  intros Hel Hvs tuples. unfold Isomers._filter_interface.
  rewrite Hel. cbn [length]. by rewrite (rename_keys_VSe2SnSe _ _ Hvs).
Qed.

Lemma isomers_3_4_5_labels (iso : Isomers.t) :
  isomers_3_4_5 = Ok iso → Isomers._elements iso = Some labels_3_4_5.
Proof.
  intros H.
  assert (res_bind isomers_3_4_5 (λ iso, Ok (Isomers._elements iso)) =
          Ok (Some labels_3_4_5)) as E by (vm_compute; reflexivity).
  rewrite H in E. cbn [res_bind] in E. by injection E.
Qed.

Lemma subset_visits (r : res Isomers.t) (visits : list string) :
  (∀ iso, r = Ok iso → Isomers._elements iso = Some labels_3_4_5) →
  valid_visits labels_3_4_5 [("VSe2SnSe"%string, VBool false)] visits = true →
  res_bind r (λ iso,
    res_bind (Isomers.get_isomer_subset iso CNone
                (CDict [("VSe2SnSe"%string, VBool false)]) visits)
             (λ l, Ok (length l))) =
  res_bind r (λ iso,
    res_bind (Isomers.get_isomer_subset iso CNone
                (CDict [("VSe2SnSe"%string, VBool false)]) ["VSe2SnSe"%string])
             (λ l, Ok (length l))).
Proof.
  intros Hr Hvalid. destruct r as [iso| |]; [|done|done]. cbn [res_bind].
  specialize (Hr iso eq_refl). unfold Isomers.get_isomer_subset.
  destruct (Isomers._as_tuples iso) as [tuples| |]; [|done|done].
  cbn [res_bind Isomers.pair_ints fmap list_fmap].
  by rewrite (subset_VSe2SnSe iso _ visits Hr Hvalid),
             (subset_VSe2SnSe iso _ ["VSe2SnSe"%string] Hr eq_refl).
Qed.

(** C9: on the object built from [[3, 4, 5]] with the labels of the
    unit tests (it lists 1224 isomers), the interface condition
    [{'VSe2SnSe': False}] returns exactly 55 results, whatever keys the
    iterator of the renaming loop yields; the thickness condition
    [{'SnSe2': 4}] returns no result at all: "_filter_thickness" raises
    [NameError], for the name [thickness_conditons] that its first
    statement reads is bound nowhere. *)
Theorem C9_filters_3_4_5 (visits : list string) :
  valid_visits labels_3_4_5 [("VSe2SnSe"%string, VBool false)] visits = true →
  res_bind isomers_3_4_5 (λ iso, Ok (length (Isomers.isomers iso))) =
    Ok 1224%nat ∧
  res_bind isomers_3_4_5 (λ iso,
    res_bind (Isomers.get_isomer_subset iso CNone
                (CDict [("VSe2SnSe"%string, VBool false)]) visits)
             (λ l, Ok (length l))) = Ok 55%nat ∧
  res_bind isomers_3_4_5 (λ iso,
    Isomers.get_isomer_subset iso (CDict [("SnSe2"%string, VInt 4)]) CNone visits) =
    Raise NameError.
Proof.
  intros Hvalid. split_and!; [vm_compute; reflexivity| |vm_compute; reflexivity].
  rewrite (subset_visits isomers_3_4_5 visits isomers_3_4_5_labels Hvalid).
  vm_compute. reflexivity.
Qed.

(** An instance of [C9_filters_3_4_5]: the iterator yields the one key
    of the dict and stops. *)
Lemma C9_filters_3_4_5_witness :
  res_bind isomers_3_4_5 (λ iso, Ok (length (Isomers.isomers iso))) =
    Ok 1224%nat ∧
  res_bind isomers_3_4_5 (λ iso,
    res_bind (Isomers.get_isomer_subset iso CNone
                (CDict [("VSe2SnSe"%string, VBool false)]) ["VSe2SnSe"%string])
             (λ l, Ok (length l))) = Ok 55%nat ∧
  res_bind isomers_3_4_5 (λ iso,
    Isomers.get_isomer_subset iso (CDict [("SnSe2"%string, VInt 4)]) CNone
      ["VSe2SnSe"%string]) =
    Raise NameError.
Proof. apply (C9_filters_3_4_5 ["VSe2SnSe"%string]). reflexivity. Defined.

(** ** Objects without labels *)

Lemma as_tuple_loop_cons curr k l :
  ∃ x rest, as_tuple_loop curr k l = x :: rest.
Proof.
  revert curr k. induction l as [|b l IH]; intros curr k; simpl; [by eexists _, _|].
  destruct (b =? curr); [apply IH|by eexists _, _].
Qed.

Lemma as_tuples_no_labels (self : Isomers.t) :
  Isomers._elements self = None →
  Isomers._as_tuples self =
    match bracelets (Isomers._bracelets self) with
    | [] => Ok []
    | _ :: _ => Raise TypeError
    end.
Proof.
  intros Hel. unfold Isomers._as_tuples, as_tuple. rewrite Hel.
  destruct (bracelets (Isomers._bracelets self)) as [|y l]; [done|].
  csimpl. unfold as_tuple1.
  destruct (as_tuple_loop_cons 0 1 (drop 1 y)) as ([s c] & rest & ->). done.
Qed.

Lemma init_no_labels a self :
  Isomers.init a ENone = Ok self → Isomers._elements self = None.
Proof.
  unfold Isomers.init. destruct (Isomers.check_composition a); [|done|done].
  cbn [res_bind Isomers.check_elements].
  destruct (Bracelets_init a) as [b| |]; [|done|done]. cbn [res_bind].
  destruct (Isomers._isomers_from_bracelets None b); [|done|done].
  cbn [res_bind]. by intros [= <-].
Qed.

Lemma filter_interface_nil self d visits :
  Isomers._elements self = None →
  Isomers._filter_interface self [] d visits = Ok [].
Proof. intros Hel. unfold Isomers._filter_interface. by rewrite Hel. Qed.

(** C10 as stated fails: the object built from [[2, 0]] without labels
    lists no bracelet, and "get_isomer_subset" returns the empty list. *)
Lemma C10_empty_list_counterexample :
  ∃ self, Isomers.init (AList [PInt 2; PInt 0]) ENone = Ok self ∧
          Isomers.get_isomer_subset self CNone CNone [] = Ok [].
Proof. eexists. split; vm_compute; reflexivity. Qed.

(** C10, amended: on an object built without labels,
    "get_isomer_subset" raises [TypeError], whatever the conditions,
    exactly when the object lists at least one bracelet. *)
Theorem C10_no_labels_type_error (a : pyarg) (self : Isomers.t) (th ic : conds)
    (visits : list string) :
  Isomers.init a ENone = Ok self →
  (Isomers.get_isomer_subset self th ic visits = Raise TypeError ↔
   bracelets (Isomers._bracelets self) ≠ []).
Proof.
  intros Hinit. pose proof (init_no_labels _ _ Hinit) as Hel.
  unfold Isomers.get_isomer_subset. rewrite (as_tuples_no_labels _ Hel).
  destruct (bracelets (Isomers._bracelets self)) as [|y l].
  - cbn [res_bind]. split; [|done]. intros H. exfalso.
    destruct th; cbn [res_bind] in H; try done.
    destruct ic; cbn [res_bind] in H; try done.
    rewrite (filter_interface_nil _ _ _ Hel) in H. done.
  - done.
Qed.

(** An instance of [C10_no_labels_type_error]. *)
Lemma C10_no_labels_type_error_witness :
  ∃ self, Isomers.init (AList [PInt 1; PInt 2; PInt 3]) ENone = Ok self ∧
    (Isomers.get_isomer_subset self CNone
       (CDict [("AB"%string, VBool false)]) ["AB"%string] = Raise TypeError ↔
     bracelets (Isomers._bracelets self) ≠ []).
Proof.
  eexists. split; [vm_compute; reflexivity|].
  refine (C10_no_labels_type_error (AList [PInt 1; PInt 2; PInt 3]) _ CNone _ _ _).
  vm_compute. reflexivity.
Defined.

(** ** The run-length tracker *)

(** X1: on the encoding of a non-empty list of runs with positive
    lengths and distinct neighbours, [update_run_length(j, lenenc)]
    returns the encoding of a list of runs of the same kind that expands
    to the old expansion followed by [j]. *)
Theorem X1_update_run_length_appends (runs : list (Z * Z)) (j : Z) :
  runs ≠ [] → runs_pos runs → runs_adj runs →
  ∃ runs', update_run_length j (lenenc_of runs) = Ok (lenenc_of runs') ∧
           expand runs' = expand runs ++ [j] ∧
           runs' ≠ [] ∧ runs_pos runs' ∧ runs_adj runs'.
Proof.
  intros Hne Hpos Hadj. exists (rle_snoc runs j). split_and!.
  - by apply update_run_length_spec.
  - by apply expand_snoc.
  - apply rle_snoc_nonempty.
  - by apply runs_pos_snoc.
  - by apply runs_adj_snoc.
Qed.

(** An instance of [X1_update_run_length_appends]. *)
Lemma X1_update_run_length_appends_witness :
  ∃ runs', update_run_length 1 (lenenc_of [(0, 1); (1, 2)]) = Ok (lenenc_of runs') ∧
           expand runs' = expand [(0, 1); (1, 2)] ++ [1] ∧
           runs' ≠ [] ∧ runs_pos runs' ∧ runs_adj runs'.
Proof.
  apply (X1_update_run_length_appends [(0, 1); (1, 2)] 1).
  - done.
  - exact (runs_pos_rle [0; 1; 1]).
  - exact (runs_adj_rle [0; 1; 1]).
Defined.

(** X2: on the encoding of a non-empty list of runs with positive
    lengths, [restore_run_length] undoes [update_run_length(j, .)], for
    every symbol [j]. *)
Theorem X2_restore_undoes_update (runs : list (Z * Z)) (j : Z) :
  runs ≠ [] → runs_pos runs →
  res_bind (update_run_length j (lenenc_of runs)) restore_run_length =
  Ok (lenenc_of runs).
Proof.
  intros Hne Hpos. rewrite update_run_length_spec by done. cbn [res_bind].
  by apply restore_run_length_spec.
Qed.

(** An instance of [X2_restore_undoes_update]. *)
Lemma X2_restore_undoes_update_witness :
  res_bind (update_run_length 2 (lenenc_of [(0, 1); (1, 2)])) restore_run_length =
  Ok (lenenc_of [(0, 1); (1, 2)]).
Proof.
  apply (X2_restore_undoes_update [(0, 1); (1, 2)] 2); [done|].
  exact (runs_pos_rle [0; 1; 1]).
Defined.

(** The loop of [check_rev] stops at the first pair of runs that differ,
    or past the middle. *)
Lemma check_rev_loop_full runs fuel i :
  let m := Z.of_nat (length runs) in
  1 ≤ i → 2 * i ≤ m + 2 → i ≤ m → m + 2 - 2 * i < 2 * Z.of_nat fuel →
  ∃ i', check_rev_loop fuel (lenenc_of runs) m i = Ok i' ∧
        i ≤ i' ∧ 2 * i' ≤ m + 2 ∧ i' ≤ m ∧
        (∀ k, i ≤ k < i' → runs !! Z.to_nat (k - 1) = runs !! Z.to_nat (m - k)) ∧
        (2 * i' ≤ m → runs !! Z.to_nat (i' - 1) ≠ runs !! Z.to_nat (m - i')).
Proof.
  intros m. revert i. induction fuel as [|fuel IH]; intros i H1 H2 H3 H4; [lia|].
  destruct (lookup_runs runs i) as [x Hx]; [lia|].
  destruct (lookup_runs runs (m - i + 1)) as [y Hy]; [lia|].
  cbn [check_rev_loop].
  assert (1 ≤ m - i + 1) as H5 by lia.
  rewrite (getitem_lenenc _ _ _ H1 Hx), (getitem_lenenc _ _ _ H5 Hy).
  cbn [res_bind].
  replace (m - i + 1 - 1) with (m - i) in Hy by lia.
  destruct (item_eqb (run_item x) (run_item y)) eqn:Heq; cbn [andb].
  - destruct (Z.leb_spec (2 * i) m).
    + destruct (IH (i + 1)) as (i' & E & ? & ? & ? & Hk & Hmis); try lia.
      exists i'. split_and!; try done; try lia.
      intros k Hki. destruct (decide (k = i)) as [->|]; [|apply Hk; lia].
      apply item_eqb_run in Heq. subst y. by rewrite Hx, Hy.
    + exists i. split_and!; try done; lia.
  - exists i. split_and!; try done; try lia.
    intros _. rewrite Hx, Hy. intros [= ->].
    destruct y as [s l]. unfold item_eqb, run_item in Heq. simpl in Heq.
    rewrite !Z.eqb_refl in Heq. done.
Qed.

Lemma reverse_eq_lookup {A} (l : list A) :
  reverse l = l ↔ ∀ i : nat, (i < length l)%nat → l !! (length l - S i)%nat = l !! i.
Proof.
  split.
  - intros H i Hi. rewrite <- reverse_lookup by done. by rewrite H.
  - intros H. apply list_eq. intros i.
    destruct (decide (i < length l)%nat) as [Hi|Hi].
    + rewrite reverse_lookup by done. by apply H.
    + rewrite !lookup_ge_None_2; [done|lia|rewrite length_reverse; lia].
Qed.

(** X3: on the encoding of a non-empty list of runs [check_rev] raises
    nothing and returns 0, 1 or -1; it returns 0 exactly when the list of
    runs reads the same in both directions. *)
Theorem X3_check_rev_palindrome (runs : list (Z * Z)) :
  runs ≠ [] →
  ∃ c, check_rev (lenenc_of runs) = Ok c ∧ (c = 0 ∨ c = 1 ∨ c = -1) ∧
       (c = 0 ↔ reverse runs = runs).
Proof.
  intros Hne. set (m := Z.of_nat (length runs)).
  assert (1 ≤ m) as Hm by (destruct runs; [done|simpl in *; lia]).
  unfold check_rev. rewrite getitem_lenenc_0. cbn [res_bind item_int]. fold m.
  destruct (check_rev_loop_full runs (S (Z.to_nat m)) 1)
    as (i & E & Hi1 & Hi2 & Hi3 & Hk & Hmis); try (fold m; lia).
  fold m in E, Hi2, Hi3, Hk, Hmis. rewrite E. cbn [res_bind].
  destruct (Z.gtb_spec (2 * i) m) as [Hgt|Hle].
  - exists 0. split_and!; [done|by left|]. split; [intros _|done].
    apply reverse_eq_lookup. intros idx Hidx.
    assert (∀ k : nat, (k < length runs)%nat → 2 * (Z.of_nat k + 1) ≤ m →
              runs !! k = runs !! (length runs - S k)%nat) as Hsym.
    { intros k Hk1 Hk2. specialize (Hk (Z.of_nat k + 1) ltac:(lia)).
      replace (Z.to_nat (Z.of_nat k + 1 - 1)) with k in Hk by lia.
      replace (Z.to_nat (m - (Z.of_nat k + 1))) with (length runs - S k)%nat in Hk
        by (subst m; lia).
      done. }
    destruct (decide (2 * (Z.of_nat idx + 1) ≤ m)) as [Hlo|Hhi].
    + symmetry. by apply Hsym.
    + destruct (decide (length runs - S idx = idx)%nat) as [->|Hmid]; [done|].
      rewrite (Hsym (length runs - S idx)%nat); [|lia|subst m; lia].
      f_equal. lia.
  - assert (∀ c, (c = 1 ∨ c = -1) →
      ∃ c0, Ok c = Ok c0 ∧ (c0 = 0 ∨ c0 = 1 ∨ c0 = -1) ∧
            (c0 = 0 ↔ reverse runs = runs)) as Hfin.
    { intros c Hc. exists c. split_and!; [done|lia|]. split; [lia|].
      intros Hrev. exfalso. apply (Hmis Hle).
      rewrite reverse_eq_lookup in Hrev.
      rewrite <- (Hrev (Z.to_nat (i - 1))) by (subst m; lia).
      f_equal. subst m. lia. }
    destruct (lookup_runs runs i) as [[x0 x1] Hx]; [lia|].
    destruct (lookup_runs runs (m - i + 1)) as [[y0 y1] Hy]; [lia|].
    destruct (lookup_runs runs (i + 1)) as [[u0 u1] Hu]; [lia|].
    destruct (lookup_runs runs (m - i)) as [[w0 w1] Hw]; [lia|].
    assert (1 ≤ m - i + 1) as H5 by lia.
    assert (1 ≤ i + 1) as H6 by lia.
    assert (1 ≤ m - i) as H7 by lia.
    rewrite (getitem_lenenc _ _ _ Hi1 Hx), (getitem_lenenc _ _ _ H5 Hy).
    cbn [res_bind item0 item1 run_item fst snd].
    destruct (x0 <? y0); [apply Hfin; lia|].
    destruct (x0 >? y0); [apply Hfin; lia|].
    destruct (x1 <? y1).
    + rewrite (getitem_lenenc _ _ _ H6 Hu).
      cbn [res_bind item0 item1 run_item fst snd int_lt_item]. apply Hfin; lia.
    + cbn [res_bind]. destruct (x1 >? y1).
      * rewrite (getitem_lenenc _ _ _ H7 Hw).
        cbn [res_bind item0 item1 run_item fst snd].
        destruct (x0 <? w0); apply Hfin; lia.
      * cbn [res_bind]. apply Hfin; lia.
Qed.

(** An instance of [X3_check_rev_palindrome]. *)
Lemma X3_check_rev_palindrome_witness :
  ∃ c, check_rev (lenenc_of [(0, 1); (1, 2); (0, 1)]) = Ok c ∧
       (c = 0 ∨ c = 1 ∨ c = -1) ∧
       (c = 0 ↔ reverse [(0, 1); (1, 2); (0, 1)] = [(0, 1); (1, 2); (0, 1)]).
Proof. apply (X3_check_rev_palindrome [(0, 1); (1, 2); (0, 1)]). done. Defined.

(** ** The ring under [remove] and [add] *)

Lemma add_all_snoc js j d :
  add_all (js ++ [j]) d = res_bind (add_all js d) (add j).
Proof.
  revert d. induction js as [|x js IH]; intros d; simpl.
  - by destruct (add j d).
  - destruct (add x d); simpl; [apply IH|done|done].
Qed.

Lemma filter_all {A} (P : A → Prop) `{∀ x, Decision (P x)} (l : list A) :
  Forall P l → filter P l = l.
Proof.
  induction 1 as [|x l Hx Hl IH]; [done|].
  rewrite filter_cons_True by done. by rewrite IH.
Qed.

Lemma filter_ring_split K av1 j av2 d :
  ring K (av1 ++ j :: av2) d →
  filter (λ s, s ≠ j) (av1 ++ j :: av2) = av1 ++ av2.
Proof.
  intros Hring. rewrite filter_app, filter_cons_False by (intros H; by apply H).
  rewrite <- filter_app. apply filter_all. apply Forall_forall.
  intros x Hx. by apply (ring_split_notin _ _ _ _ _ _ Hring).
Qed.

Lemma set_n_same d : set_n d (n d) = d.
Proof. by destruct d. Qed.

(** X4: whatever the multiplicities, the constructor of
    [DoubleLinkedList] links every symbol: the traversal from [head()] is
    [k-1, ..., 0] for [k] multiplicities, also for symbols with
    multiplicity 0, and [head()] is [k - 1] ([-1] for an empty list). *)
Theorem X4_init_links_every_symbol (c : list Z) :
  traversal (init c) = desc (length c) ∧
  (∀ s, s ∈ traversal (init c) ↔ 0 ≤ s < Z.of_nat (length c)) ∧
  head (init c) = Z.of_nat (length c) - 1 ∧
  n (init c) = c.
Proof.
  pose proof (traversal_ring _ _ _ (ring_init c)) as Ht.
  split; [done|]. split; [|done].
  intros s. rewrite Ht. apply elem_of_desc.
Qed.

(** X5: on a well-formed ring that holds [j], [remove(j)] succeeds and
    unlinks [j] and nothing else: the traversal loses [j] and keeps its
    order, the counts are untouched, and [head()] is the first symbol of
    what is left, or [-1] when nothing is left. *)
Theorem X5_remove_unlinks (K : nat) (av : list Z) (d : DLL) (j : Z) :
  ring K av d → j ∈ traversal d →
  ∃ d1, remove j d = Ok d1 ∧
        traversal d1 = filter (λ s, s ≠ j) (traversal d) ∧
        head d1 = hd (-1) (traversal d1) ∧
        n d1 = n d.
Proof.
  intros Hring Hj. rewrite (traversal_ring _ _ _ Hring) in *.
  apply list_elem_of_split in Hj as (av1 & av2 & ->).
  pose proof (ring_remove _ _ _ _ _ Hring) as Hring1.
  eexists. split; [by apply (remove_ring _ _ _ _ _ Hring)|].
  rewrite (traversal_ring _ _ _ Hring1). split_and!.
  - by rewrite (filter_ring_split _ _ _ _ _ Hring).
  - unfold head. by rewrite (ring_head _ _ _ Hring1).
  - done.
Qed.

(** An instance of [X5_remove_unlinks]: the head is removed. *)
Lemma X5_remove_unlinks_witness :
  ∃ d1, remove 2 (init [3; 4; 5]) = Ok d1 ∧
        traversal d1 = filter (λ s, s ≠ 2) (traversal (init [3; 4; 5])) ∧
        head d1 = hd (-1) (traversal d1) ∧
        n d1 = n (init [3; 4; 5]).
Proof.
  apply (X5_remove_unlinks 3 [2; 1; 0] (init [3; 4; 5]) 2).
  - exact (ring_init [3; 4; 5]).
  - vm_compute. apply elem_of_cons. by left.
Defined.

Lemma remove_all_add_all K : ∀ js av d,
  ring K av d → NoDup js → (∀ j, j ∈ js → j ∈ av) →
  ∃ d1 d2, remove_all js d = Ok d1 ∧ add_all (reverse js) d1 = Ok d2 ∧
           ring K (filter (λ s, s ∉ js) av) d1 ∧ n d1 = n d ∧
           dll_equiv K d d2.
Proof.
  induction js as [|j js IH]; intros av d Hring Hnd Hsub.
  - exists d, d. split_and!; [done|done| |done|apply dll_equiv_refl].
    rewrite filter_all; [done|]. apply Forall_forall. intros x _. apply not_elem_of_nil.
  - apply NoDup_cons in Hnd as [Hj Hnd].
    destruct (list_elem_of_split av j) as (av1 & av2 & ->); [apply Hsub; by left|].
    pose proof (ring_remove _ _ _ _ _ Hring) as Hring1.
    pose proof (remove_ring _ _ _ _ _ Hring) as Hrem.
    set (e := removed K j d (List.last av1 (Z.of_nat K)) (hd (-1) av2)) in *.
    destruct (IH (av1 ++ av2) e Hring1 Hnd) as (d1 & d2 & H1 & H2 & Hr1 & Hn1 & He).
    { intros x Hx. assert (x ∈ av1 ++ j :: av2) as Hin by (apply Hsub; by right).
      rewrite elem_of_app, elem_of_cons in Hin. rewrite elem_of_app.
      destruct Hin as [?|[->|?]]; [by left|done|by right]. }
    destruct (add_restore K av1 j av2 d d2 Hring He) as (d3 & Hadd & Hn3 & He3).
    assert (n d2 = n d) as Hn2 by (by rewrite <- (eq_n _ _ _ He)).
    rewrite Hn2, set_n_same in He3.
    exists d1, d3. split_and!.
    + simpl. by rewrite Hrem.
    + rewrite reverse_cons, add_all_snoc, H2. done.
    + replace (filter (λ s, s ∉ j :: js) (av1 ++ j :: av2))
        with (filter (λ s, s ∉ js) (av1 ++ av2)); [done|].
      rewrite <- (filter_ring_split _ _ _ _ _ Hring), list_filter_filter.
      apply list_filter_iff. intros x. rewrite not_elem_of_cons. tauto.
    + by rewrite Hn1.
    + done.
Qed.

(** X6: on a well-formed ring, removing distinct members one after
    another and then adding them back in the opposite order succeeds at
    every step; in between the traversal is the old one without the
    removed symbols, and at the end the traversal, [head()] and the
    counts are what they were. *)
Theorem X6_remove_add_nested (K : nat) (av : list Z) (d : DLL) (js : list Z) :
  ring K av d → NoDup js → (∀ j, j ∈ js → j ∈ traversal d) →
  ∃ d1 d2, remove_all js d = Ok d1 ∧ add_all (reverse js) d1 = Ok d2 ∧
           traversal d1 = filter (λ s, s ∉ js) (traversal d) ∧
           traversal d2 = traversal d ∧ head d2 = head d ∧ n d2 = n d.
Proof.
  intros Hring Hnd Hsub. rewrite (traversal_ring _ _ _ Hring) in *.
  destruct (remove_all_add_all K js av d Hring Hnd Hsub)
    as (d1 & d2 & H1 & H2 & Hr1 & Hn1 & He).
  exists d1, d2. split_and!; try done.
  - by apply (traversal_ring K).
  - apply (traversal_ring K). by apply (ring_equiv K av d).
  - unfold head. by rewrite (eq_head _ _ _ He).
  - by rewrite (eq_n _ _ _ He).
Qed.

(** An instance of [X6_remove_add_nested]: the head and the last symbol
    are removed, and added back in the opposite order. *)
Lemma X6_remove_add_nested_witness :
  ∃ d1 d2, remove_all [2; 0] (init [3; 4; 5]) = Ok d1 ∧
           add_all (reverse [2; 0]) d1 = Ok d2 ∧
           traversal d1 = filter (λ s, s ∉ [2; 0]) (traversal (init [3; 4; 5])) ∧
           traversal d2 = traversal (init [3; 4; 5]) ∧
           head d2 = head (init [3; 4; 5]) ∧ n d2 = n (init [3; 4; 5]).
Proof.
  apply (X6_remove_add_nested 3 [2; 1; 0] (init [3; 4; 5]) [2; 0]).
  - exact (ring_init [3; 4; 5]).
  - apply NoDup_cons. split; [|apply NoDup_singleton].
    intros H. apply list_elem_of_singleton in H. discriminate H.
  - intros j Hj. vm_compute. apply elem_of_cons in Hj as [->|Hj].
    + apply elem_of_cons. by left.
    + apply list_elem_of_singleton in Hj as ->.
      apply elem_of_cons. right. apply elem_of_cons. right. apply elem_of_cons. by left.
Defined.

(** ** The run-length form of [as_tuple] *)

Lemma foldl_rle_snoc_as_tuple_loop l : ∀ init curr k,
  foldl rle_snoc (init ++ [(curr, k)]) l = init ++ as_tuple_loop curr k l.
Proof.
  induction l as [|b l IH]; intros init curr k; [done|].
  cbn [foldl as_tuple_loop]. rewrite rle_snoc_app, (Z.eqb_sym b curr).
  destruct (curr =? b) eqn:E.
  - apply Z.eqb_eq in E as ->. apply IH.
  - change [(curr, k); (b, 1)] with ([(curr, k)] ++ [(b, 1)]).
    rewrite app_assoc, IH, <- app_assoc. done.
Qed.

Lemma as_tuple1_rle y : as_tuple1 y = rle (0 :: drop 1 y).
Proof.
  unfold as_tuple1, rle. cbn [foldl rle_snoc].
  by rewrite (foldl_rle_snoc_as_tuple_loop _ [] 0 1).
Qed.

(** X7: for every object, [as_tuple] gives for a bracelet [y] runs of
    positive lengths, neighbours with different symbols, that expand to
    [y] with its first entry replaced by 0 (to [[0]] for an empty [y]):
    the first entry of a bracelet is never read. *)
Theorem X7_as_tuple_canonical (B : Bracelets.t) :
  expand <$> as_tuple B = (λ y, 0 :: drop 1 y) <$> bracelets B ∧
  Forall (λ runs, runs ≠ [] ∧ runs_pos runs ∧ runs_adj runs) (as_tuple B).
Proof.
  unfold as_tuple. split.
  - rewrite <- list_fmap_compose. apply list_fmap_ext. intros i y _. simpl.
    by rewrite as_tuple1_rle, expand_rle.
  - apply Forall_fmap, Forall_forall. intros y _. simpl. rewrite as_tuple1_rle.
    split_and!; [by apply rle_nonempty|apply runs_pos_rle|apply runs_adj_rle].
Qed.

(** ** The generator as a whole *)

(** X8: for a content vector of at least two positive multiplicities
    the generator [get_bracelets] runs to its end and yields its bracelets
    in strictly decreasing lexicographic order; the list of the object is
    the yielded list in the opposite order, so that [sorted] in [__init__]
    only reverses it. *)
Theorem X8_yield_order (c : list Z) :
  valid_content c →
  ∃ out σ', get_bracelets (init c) = Ok (out, σ') ∧
            StronglySorted (λ x y, lex y x) out ∧
            sorted out = reverse out ∧
            Bracelets_of c = Ok (Bracelets.mk c (reverse out)).
Proof.
  intros Hv. destruct (get_bracelets_spec c Hv) as (out & σ' & Hg & _ & Hsort & _).
  pose proof (sorted_decreasing out Hsort) as Hrev.
  exists out, σ'. split_and!; [done| |done|].
  - eapply StronglySorted_mono; [|exact Hsort]. intros x y Hxy. by apply lex_lt_lex.
  - unfold Bracelets_of, Bracelets_init. rewrite length_fmap.
    destruct Hv as [Hlen _].
    destruct (Z.ltb_spec (Z.of_nat (length c)) 2); [lia|].
    rewrite as_numbers_PInt. unfold construct. rewrite Hg. cbn [res_bind].
    by rewrite Hrev.
Qed.

(** An instance of [X8_yield_order]. *)
Lemma X8_yield_order_witness :
  ∃ out σ', get_bracelets (init [1; 2; 3]) = Ok (out, σ') ∧
            StronglySorted (λ x y, lex y x) out ∧
            sorted out = reverse out ∧
            Bracelets_of [1; 2; 3] = Ok (Bracelets.mk [1; 2; 3] (reverse out)).
Proof.
  apply (X8_yield_order [1; 2; 3]).
  split; [simpl; lia|]. repeat constructor; lia.
Defined.

(** *** Symbols of a bracelet *)

Lemma sum_indicator (K : nat) (x : Z) :
  sum ((λ s : nat, if x =? Z.of_nat s then 1 else 0) <$> seq 0 K) =
  if bool_decide (0 ≤ x < Z.of_nat K) then 1 else 0.
Proof.
  induction K as [|K IH]; [by case_bool_decide; [lia|]|].
  rewrite seq_S, fmap_app. unfold sum in *. rewrite foldr_app. simpl.
  assert (∀ (l : list Z) a, foldr Z.add a l = foldr Z.add 0 l + a) as Hf.
  { induction l as [|y l IHl]; intros a; simpl; [lia|]. rewrite IHl. lia. }
  rewrite Hf, IH.
  destruct (Z.eqb_spec x (Z.of_nat K)); repeat case_bool_decide; lia.
Qed.

Lemma sum_fmap_add {A} (f g : A → Z) (l : list A) :
  sum ((λ a, f a + g a) <$> l) = sum (f <$> l) + sum (g <$> l).
Proof.
  unfold sum. induction l as [|a l IH]; [done|]. csimpl. rewrite IH. lia.
Qed.

(** The counts of the symbols below [K] add up to the number of entries
    in that range. *)
Lemma sum_counts (K : nat) (y : list Z) :
  sum ((λ s : nat, count (Z.of_nat s) y) <$> seq 0 K) =
  Z.of_nat (length (filter (λ v, 0 ≤ v < Z.of_nat K) y)).
Proof.
  induction y as [|x y IH].
  - unfold sum. simpl. induction (seq 0 K) as [|a l IHl]; [done|]. csimpl. lia.
  - cbn [count]. rewrite (sum_fmap_add (λ s : nat, if x =? Z.of_nat s then 1 else 0)
                            (λ s : nat, count (Z.of_nat s) y)).
    rewrite IH, sum_indicator. case_bool_decide.
    + rewrite filter_cons_True by done. simpl. lia.
    + rewrite filter_cons_False by done. lia.
Qed.

Lemma filter_length_all {A} (P : A → Prop) `{∀ x, Decision (P x)} (l : list A) :
  length (filter P l) = length l → Forall P l.
Proof.
  induction l as [|x l IH]; [done|]. intros Hlen.
  pose proof (length_filter P l) as Hle.
  destruct (decide (P x)).
  - rewrite filter_cons_True in Hlen by done. simpl in Hlen.
    constructor; [done|]. apply IH. lia.
  - rewrite filter_cons_False in Hlen by done. simpl in Hlen. lia.
Qed.

Lemma good_out_range c pre y :
  0 ≤ sum c → good_out c pre y → Forall (λ v, 0 ≤ v < Z.of_nat (length c)) y.
Proof.
  intros Hsum [Hlen _ Hcount].
  apply (filter_length_all (λ v, 0 ≤ v < Z.of_nat (length c))).
  apply Nat2Z.inj. rewrite <- sum_counts, Hlen.
  replace ((λ s : nat, count (Z.of_nat s) y) <$> seq 0 (length c)) with c; [lia|].
  apply list_eq. intros i. rewrite list_lookup_fmap.
  destruct (c !! i) as [x|] eqn:Hx.
  - rewrite lookup_seq_lt by (by eapply lookup_lt_Some). simpl.
    by rewrite (Hcount _ _ Hx).
  - apply lookup_ge_None in Hx. rewrite lookup_seq_ge by done. done.
Qed.

(** X9: for a content vector of at least two positive multiplicities
    every bracelet of the object starts with symbol 0, and each of its
    entries is a symbol of [range(k)], [k] the number of
    multiplicities. *)
Theorem X9_symbols_in_range (c : list Z) :
  valid_content c →
  ∃ B, Bracelets_of c = Ok B ∧
       Forall (λ y, y !! 0%nat = Some 0 ∧
                    Forall (λ v, 0 ≤ v < Z.of_nat (length c)) y)
              (bracelets B).
Proof.
  intros Hv. destruct (Bracelets_of_valid c Hv) as (out & HB & Hgood & _).
  eexists. split; [exact HB|]. unfold bracelets. simpl.
  apply Forall_reverse. eapply Forall_impl; [exact Hgood|].
  intros y Hy. split.
  - destruct (good_out_zero _ _ Hy) as [rest ->]. done.
  - eapply good_out_range; [|exact Hy]. by apply sum_nonneg_valid.
Qed.

(** An instance of [X9_symbols_in_range]. *)
Lemma X9_symbols_in_range_witness :
  ∃ B, Bracelets_of [3; 4; 5] = Ok B ∧
       Forall (λ y, y !! 0%nat = Some 0 ∧
                    Forall (λ v, 0 ≤ v < Z.of_nat (length [3; 4; 5])) y)
              (bracelets B).
Proof.
  apply (X9_symbols_in_range [3; 4; 5]).
  split; [simpl; lia|]. repeat constructor; lia.
Defined.

(** *** The shared objects after a generation *)

(** X10: for a content vector of at least two positive multiplicities,
    when the generator has run to its end the shared objects are as at
    the first call of [build_bracelets]: the counts are the content with
    one symbol 0 taken, the run-length encoding is [[1, [0, 1]]], [run]
    has [sum(content)] entries, and the ring holds exactly the symbols
    with a positive count, in decreasing order from [head()]. *)
Theorem X10_generator_restores_state (c : list Z) :
  valid_content c →
  ∃ out σ' x0 rest,
    get_bracelets (init c) = Ok (out, σ') ∧
    c = x0 :: rest ∧ n (dll σ') = (x0 - 1) :: rest ∧
    lenenc σ' = [Cnt 1; Run 0 1] ∧
    Z.of_nat (length (run σ')) = sum c ∧
    ring_sound (dll σ').
Proof.
  intros Hv. pose proof Hv as [Hlen Hpos].
  destruct (get_bracelets_post c Hv) as (out & σ' & av1 & x0 & Hg & Hav1 & Hx0 & Hpost & _).
  destruct Hpost as [[He Hle Hrun] _ _ _]. cbn [dll lenenc run] in He, Hle, Hrun.
  pose proof (ring_init c) as Hring. rewrite Hav1 in Hring.
  pose proof (avail_init c Hpos) as Hav. rewrite Hav1 in Hav.
  assert (n (init c) !! Z.to_nat 0 = Some x0) as Hn0 by done.
  pose proof (placed_dinv c [] av1 0 [] (init c) x0 (dinv_init c Hpos) Hring Hav Hn0) as Hd.
  pose proof (placed_ring_ok (length c) av1 0 [] (init c) x0 Hring Hav Hn0) as Hok.
  destruct c as [|y rest]; [done|]. injection Hx0 as ->.
  exists out, σ', x0, rest. split_and!; try done.
  - rewrite <- (eq_n _ _ _ He). unfold placed.
    by destruct (x0 - 1 =? 0).
  - rewrite <- Hrun, length_replicate.
    pose proof (sum_nonneg_valid _ Hv). lia.
  - apply (ring_ok_sound (length (x0 :: rest))). by eapply ring_ok_equiv.
Qed.

(** An instance of [X10_generator_restores_state]. *)
Lemma X10_generator_restores_state_witness :
  ∃ out σ' x0 rest,
    get_bracelets (init [1; 2; 3]) = Ok (out, σ') ∧
    [1; 2; 3] = x0 :: rest ∧ n (dll σ') = (x0 - 1) :: rest ∧
    lenenc σ' = [Cnt 1; Run 0 1] ∧
    Z.of_nat (length (run σ')) = sum [1; 2; 3] ∧
    ring_sound (dll σ').
Proof.
  apply (X10_generator_restores_state [1; 2; 3]).
  split; [simpl; lia|]. repeat constructor; lia.
Defined.

(** *** [as_string] *)

Lemma getitem_ascii_uppercase (v : Z) :
  0 ≤ v < 26 → getitem ascii_uppercase v = Ok (String (letter_of v) EmptyString).
Proof.
  intros Hv. unfold letter_of.
  replace v with (Z.of_nat (Z.to_nat v)) at 1 by lia.
  assert (Z.to_nat v < 26)%nat as Hk by lia. revert Hk.
  generalize (Z.to_nat v). intros k Hk.
  do 26 (destruct k as [|k]; [reflexivity|]). lia.
Qed.

Lemma str_app_assoc (s1 s2 s3 : string) :
  ((s1 ++ s2) ++ s3 = s1 ++ (s2 ++ s3))%string.
Proof. induction s1 as [|a s1 IH]; simpl; [done|]. by rewrite IH. Qed.

Lemma str_app_nil_r (s : string) : (s ++ "")%string = s.
Proof. induction s as [|a s IH]; simpl; [done|]. by rewrite IH. Qed.

Lemma as_string_loop (y : list Z) : ∀ acc,
  Forall (λ v, 0 ≤ v < 26) y →
  foldl (λ acc s,
           res_bind acc (λ str,
           res_bind (getitem ascii_uppercase s) (λ letter,
           Ok (str ++ letter)%string)))
        (Ok acc) y =
  Ok (acc ++ string_of_list_ascii (letter_of <$> y))%string.
Proof.
  induction y as [|v y IH]; intros acc Hy.
  - simpl. by rewrite str_app_nil_r.
  - apply Forall_cons in Hy as [Hv Hy]. cbn [foldl res_bind].
    rewrite (getitem_ascii_uppercase v Hv). cbn [res_bind].
    rewrite IH by done. by rewrite str_app_assoc.
Qed.

Lemma res_map_Forall2 {A B} (f : A → res B) (g : A → B) (l : list A) :
  Forall (λ a, f a = Ok (g a)) l → res_map f l = Ok (g <$> l).
Proof.
  induction 1 as [|a l Ha Hl IH]; [done|]. simpl. by rewrite Ha, IH.
Qed.

(** X11: for a content vector of at least two and at most 26 positive
    multiplicities [as_string] returns one string per bracelet, in the
    order of the list; the characters of a string are the letters
    [chr(65 + s)] of the symbols [s] of its bracelet, in order. *)
Theorem X11_as_string (c : list Z) :
  valid_content c → (length c ≤ 26)%nat →
  ∃ B, Bracelets_of c = Ok B ∧
       Bracelets_as_string B =
         Ok ((λ y, string_of_list_ascii (letter_of <$> y)) <$> bracelets B).
Proof.
  intros Hv H26. destruct (Bracelets_of_valid c Hv) as (out & HB & Hgood & _).
  eexists. split; [exact HB|]. unfold Bracelets_as_string, bracelets. cbn [_bracelets].
  apply res_map_Forall2. apply Forall_reverse.
  eapply Forall_impl; [exact Hgood|]. intros y Hy. simpl.
  rewrite as_string_loop; [done|].
  eapply Forall_impl; [eapply good_out_range; [|exact Hy]|].
  - by apply sum_nonneg_valid.
  - simpl. lia.
Qed.

(** An instance of [X11_as_string]. *)
Lemma X11_as_string_witness :
  ∃ B, Bracelets_of [1; 2; 3] = Ok B ∧
       Bracelets_as_string B =
         Ok ((λ y, string_of_list_ascii (letter_of <$> y)) <$> bracelets B).
Proof.
  apply (X11_as_string [1; 2; 3]).
  - split; [simpl; lia|]. repeat constructor; lia.
  - simpl. lia.
Defined.

(** ** Objects of the class [Isomers] *)

Lemma res_map_length {A B} (f : A → res B) (l : list A) r :
  res_map f l = Ok r → length r = length l.
Proof.
  revert r. induction l as [|x l IH]; intros r; simpl; [by intros [= <-]|].
  destruct (f x); [|done|done]. simpl.
  destruct (res_map f l) as [ys| |]; [|done|done]. simpl.
  intros [= <-]. simpl. f_equal. by apply IH.
Qed.

(** What [__init__] has checked when it returns. *)
Lemma init_inv a e self :
  Isomers.init a e = Ok self →
  ∃ l els b all,
    a = AList l ∧ Isomers.check_composition a = Ok tt ∧
    Isomers.check_elements a e = Ok els ∧ Bracelets_init a = Ok b ∧
    Isomers._isomers_from_bracelets els b = Ok all ∧
    self = Isomers.mk a els b all.
Proof.
  unfold Isomers.init.
  destruct (Isomers.check_composition a) as [[]| |] eqn:Hc; [|done|done].
  cbn [res_bind].
  destruct (Isomers.check_elements a e) as [els| |] eqn:He; [|done|done].
  cbn [res_bind].
  destruct (Bracelets_init a) as [b| |] eqn:Hb; [|done|done]. cbn [res_bind].
  destruct (Isomers._isomers_from_bracelets els b) as [all| |] eqn:Hi; [|done|done].
  cbn [res_bind]. intros [= <-].
  destruct a as [l|l|v]; [|done|done]. by exists l, els, b, all.
Qed.

Lemma check_composition_inv l :
  Isomers.check_composition (AList l) = Ok tt →
  (2 ≤ length l ≤ 26)%nat ∧ forallb is_int l = true.
Proof.
  unfold Isomers.check_composition.
  destruct (Z.ltb_spec (Z.of_nat (length l)) 2); [done|].
  destruct (Z.gtb_spec (Z.of_nat (length l)) 26); [done|].
  destruct (forallb is_int l); [|done]. intros _. split; [lia|done].
Qed.

Lemma filter_two {A} (P : A → Prop) `{∀ x, Decision (P x)} (l : list A) i j x y :
  (i < j)%nat → l !! i = Some x → l !! j = Some y → P x → P y →
  (2 ≤ length (filter P l))%nat.
Proof.
  revert i j. induction l as [|a l IH]; intros i j Hij Hx Hy Px Py; [done|].
  destruct i as [|i].
  - simpl in Hx. injection Hx as ->. destruct j as [|j]; [lia|]. simpl in Hy.
    rewrite filter_cons_True by done. simpl.
    apply list_elem_of_lookup_2 in Hy.
    assert (y ∈ filter P l) as Hin by (by apply list_elem_of_filter).
    destruct (filter P l); [by apply elem_of_nil in Hin|simpl; lia].
  - destruct j as [|j]; [lia|]. simpl in Hx, Hy.
    pose proof (IH i j ltac:(lia) Hx Hy Px Py) as Hle.
    destruct (decide (P a)).
    + rewrite filter_cons_True by done. simpl. lia.
    + by rewrite filter_cons_False.
Qed.

Lemma lookup_removelast {A} (l : list A) (i : nat) :
  (S i < length l)%nat → removelast l !! i = l !! i.
Proof.
  revert i. induction l as [|a l IH]; intros i Hi; [simpl in Hi; lia|].
  destruct l as [|b l]; [simpl in Hi; lia|].
  change (removelast (a :: b :: l)) with (a :: removelast (b :: l)).
  destruct i as [|i]; [done|]. simpl. apply IH. simpl in *. lia.
Qed.

(** The test of [__init__] for duplicates looks at [elements[:-1]] only;
    this is enough. *)
Lemma no_duplicates (l : list string) :
  existsb (λ e, Isomers.str_list_count l e >? 1) (removelast l) = false →
  NoDup l.
Proof.
  intros Hex. apply NoDup_alt. intros i j x Hi Hj.
  destruct (decide (i = j)) as [|Hne]; [done|]. exfalso.
  assert (∃ i' j', (i' < j')%nat ∧ l !! i' = Some x ∧ l !! j' = Some x)
    as (i' & j' & Hlt & Hi' & Hj').
  { destruct (decide (i < j)%nat); [by exists i, j|].
    exists j, i. split; [lia|done]. }
  pose proof (lookup_lt_Some _ _ _ Hj') as Hlen.
  assert (removelast l !! i' = Some x) as Hrl.
  { rewrite lookup_removelast by lia. done. }
  apply list_elem_of_lookup_2, list_elem_of_In in Hrl.
  assert (existsb (λ e, Isomers.str_list_count l e >? 1) (removelast l) = true)
    as Htrue; [|congruence].
  apply existsb_exists. exists x. split; [done|].
  unfold Isomers.str_list_count.
  pose proof (filter_two (λ y, String.eqb y x = true) l i' j' x x Hlt Hi' Hj'
                (String.eqb_refl x) (String.eqb_refl x)) as H2.
  apply Z.gtb_lt. lia.
Qed.

(** The labels of an object are at most 26 and pairwise distinct. *)
Lemma labels_of_init a e self els :
  Isomers.init a e = Ok self → Isomers._elements self = Some els →
  (length els ≤ 26)%nat ∧ NoDup els.
Proof.
  intros Hinit Hel.
  destruct (init_inv _ _ _ Hinit) as (l & els' & b & all & -> & Hc & He & Hb & Hi & ->).
  cbn in Hel. subst els'.
  destruct (check_composition_inv l Hc) as [Hlen _].
  unfold Isomers.check_elements in He.
  assert (∀ ll, (if negb (Isomers.len_arg (AList l) =? Z.of_nat (length ll))
                 then Raise (Invalid KValueError
                        "Elements must be of the same size as composition.")
                 else if existsb (λ e, Isomers.str_list_count ll e >? 1) (removelast ll)
                      then Raise (Invalid KValueError "Element list contains duplicates.")
                      else Ok (Some ll)) = Ok (Some els) →
                (length els ≤ 26)%nat ∧ NoDup els) as Hll.
  { intros ll. cbn [Isomers.len_arg].
    destruct (Z.eqb_spec (Z.of_nat (length l)) (Z.of_nat (length ll))) as [Heq|];
      cbn [negb]; [|done].
    destruct (existsb _ (removelast ll)) eqn:Hex; [done|]. intros [= <-].
    split; [lia|by apply no_duplicates]. }
  destruct e as [|ll|ll|]; [done|by apply (Hll ll)|by apply (Hll ll)|done].
Qed.

(** The labels of an object are as many as the entries of its
    composition. *)
Lemma labels_length a e self els :
  Isomers.init a e = Ok self → Isomers._elements self = Some els →
  ∃ l, a = AList l ∧ length els = length l ∧ forallb is_int l = true.
Proof.
  intros Hinit Hel.
  destruct (init_inv _ _ _ Hinit) as (l & els' & b & all & -> & Hc & He & Hb & Hi & ->).
  cbn in Hel. subst els'.
  destruct (check_composition_inv l Hc) as [_ Hint].
  exists l. split; [done|]. split; [|done].
  unfold Isomers.check_elements in He. cbn [Isomers.len_arg] in He.
  destruct e as [|ll|ll|]; [done| | |done].
  - destruct (Z.eqb_spec (Z.of_nat (length l)) (Z.of_nat (length ll))); cbn [negb] in He;
      [|done].
    destruct (existsb _ (removelast ll)); [done|]. injection He as <-. lia.
  - destruct (Z.eqb_spec (Z.of_nat (length l)) (Z.of_nat (length ll))); cbn [negb] in He;
      [|done].
    destruct (existsb _ (removelast ll)); [done|]. injection He as <-. lia.
Qed.

(** X12: when [Isomers(composition, elements)] returns an object,
    [composition] is a list of 2 to 26 entries, all instances of [int];
    the object lists one isomer string per bracelet; and the labels, when
    given, are as many as the entries and pairwise distinct (the test on
    [elements[:-1]] also finds a duplicate of the last label). *)
Theorem X12_init_invariants (a : pyarg) (e : elements_arg) (self : Isomers.t) :
  Isomers.init a e = Ok self →
  ∃ l, a = AList l ∧ Isomers._composition self = a ∧
       (2 ≤ length l ≤ 26)%nat ∧ forallb is_int l = true ∧
       Bracelets_init a = Ok (Isomers._bracelets self) ∧
       length (Isomers.isomers self) = length (bracelets (Isomers._bracelets self)) ∧
       match Isomers._elements self with
       | None => e = ENone
       | Some els => (e = EList els ∨ e = ETuple els) ∧
                     length els = length l ∧ NoDup els
       end.
Proof.
  intros Hinit.
  destruct (init_inv _ _ _ Hinit) as (l & els & b & all & -> & Hc & He & Hb & Hi & ->).
  destruct (check_composition_inv l Hc) as [Hlen Hint].
  exists l. cbn [Isomers._composition Isomers._bracelets Isomers._elements Isomers.isomers
                 Isomers._all_isomers].
  split_and!; try done; try lia.
  - unfold Isomers._isomers_from_bracelets in Hi. apply res_map_length in Hi.
    rewrite Hi. unfold as_tuple. by rewrite length_fmap.
  - unfold Isomers.check_elements in He.
    assert (∀ ll, (if negb (Isomers.len_arg (AList l) =? Z.of_nat (length ll))
                   then Raise (Invalid KValueError
                          "Elements must be of the same size as composition.")
                   else if existsb (λ e, Isomers.str_list_count ll e >? 1) (removelast ll)
                        then Raise (Invalid KValueError "Element list contains duplicates.")
                        else Ok (Some ll)) = Ok els →
                  els = Some ll ∧ length ll = length l ∧ NoDup ll) as Hll.
    { intros ll. cbn [Isomers.len_arg].
      destruct (Z.eqb_spec (Z.of_nat (length l)) (Z.of_nat (length ll))) as [Heq|];
        cbn [negb]; [|done].
      destruct (existsb _ (removelast ll)) eqn:Hex; [done|]. intros [= <-].
      split_and!; [done|lia|by apply no_duplicates]. }
    destruct e as [|ll|ll|].
    + by injection He as <-.
    + destruct (Hll ll He) as (-> & ? & ?). split_and!; [by left|done|done].
    + destruct (Hll ll He) as (-> & ? & ?). split_and!; [by right|done|done].
    + done.
Qed.

(** An instance of [X12_init_invariants]. *)
Lemma X12_init_invariants_witness :
  ∃ self l,
    Isomers.init (AList [PInt 1; PInt 2; PInt 3]) (EList ["X"; "Y"; "Z"]%string) = Ok self ∧
    AList [PInt 1; PInt 2; PInt 3] = AList l ∧
    Isomers._composition self = AList [PInt 1; PInt 2; PInt 3] ∧
    (2 ≤ length l ≤ 26)%nat ∧ forallb is_int l = true ∧
    Bracelets_init (AList [PInt 1; PInt 2; PInt 3]) = Ok (Isomers._bracelets self) ∧
    length (Isomers.isomers self) = length (bracelets (Isomers._bracelets self)) ∧
    match Isomers._elements self with
    | None => EList ["X"; "Y"; "Z"]%string = ENone
    | Some els => (EList ["X"; "Y"; "Z"]%string = EList els ∨
                   EList ["X"; "Y"; "Z"]%string = ETuple els) ∧
                  length els = length l ∧ NoDup els
    end.
Proof.
  assert (∃ self, Isomers.init (AList [PInt 1; PInt 2; PInt 3])
                    (EList ["X"; "Y"; "Z"]%string) = Ok self) as [self Hs].
  { eexists. vm_compute. reflexivity. }
  exists self.
  destruct (X12_init_invariants _ _ _ Hs) as (l & H).
  exists l. split; [exact Hs|exact H].
Defined.

(** *** The two ways to the isomer strings *)

Lemma format_runs_join els brace : ∀ acc,
  Isomers.format_runs (Some els) brace acc =
  res_bind (label_runs els brace) (λ runs, Ok (acc ++ Isomers.join_runs runs)%string).
Proof.
  unfold label_runs.
  induction brace as [|[s c] rest IH]; intros acc.
  - simpl. by rewrite str_app_nil_r.
  - cbn [Isomers.format_runs res_map].
    destruct (getitem els s) as [e| |]; [|done|done]. cbn [res_bind].
    destruct rest as [|[s2 c2] rest].
    + done.
    + rewrite IH.
      destruct (res_map (λ '(s, c), res_bind (getitem els s) (λ e, Ok (e, c)))
                  ((s2, c2) :: rest)) as [ys| |] eqn:Hys; [|done|done].
      cbn [res_bind]. apply res_map_length in Hys.
      destruct ys as [|y ys]; [done|].
      cbn [Isomers.join_runs]. destruct y as [e2 c2'].
      f_equal. rewrite !str_app_assoc. done.
Qed.

Lemma as_tuples_labels (self : Isomers.t) els :
  Isomers._elements self = Some els →
  Isomers._as_tuples self =
  res_map (label_runs els) (as_tuple (Isomers._bracelets self)).
Proof. intros Hel. unfold Isomers._as_tuples. by rewrite Hel. Qed.

Lemma isomers_from_bracelets_tuples els (bs : list (list (Z * Z))) : ∀ all,
  res_map (λ brace, Isomers.format_runs (Some els) brace EmptyString) bs = Ok all →
  ∃ tuples, res_map (label_runs els) bs = Ok tuples ∧
            Isomers.join_runs <$> tuples = all.
Proof.
  induction bs as [|b bs IH]; intros all; simpl.
  - intros [= <-]. by exists [].
  - rewrite format_runs_join.
    destruct (label_runs els b) as [runs| |]; [|done|done]. cbn [res_bind].
    destruct (res_map _ bs) as [ys| |]; [|done|done]. cbn [res_bind].
    intros [= <-]. destruct (IH ys eq_refl) as (tuples & -> & Ht).
    exists (runs :: tuples). split; [done|]. csimpl. by rewrite Ht.
Qed.

(** On an object with labels [_as_tuples] returns, and its tuples print
    as the isomer strings of the object. *)
Lemma as_tuples_init a e self els :
  Isomers.init a e = Ok self → Isomers._elements self = Some els →
  ∃ tuples, Isomers._as_tuples self = Ok tuples ∧
            Isomers._isomers_from_tuples tuples = Isomers.isomers self.
Proof.
  intros Hinit Hel. rewrite (as_tuples_labels _ _ Hel).
  destruct (init_inv _ _ _ Hinit) as (l & els' & b & all & -> & Hc & He & Hb & Hi & ->).
  cbn in Hel. subst els'. cbn [Isomers._bracelets Isomers.isomers Isomers._all_isomers].
  by apply isomers_from_bracelets_tuples.
Qed.

(** *** [_transform_to_letter] *)

Lemma element_index_bound (els : list string) (x : string) :
  x ∈ els → 0 ≤ Isomers.element_index els x < Z.of_nat (length els).
Proof.
  induction els as [|y els IH]; intros Hx; [by apply elem_of_nil in Hx|].
  cbn [Isomers.element_index length]. destruct (String.eqb_spec y x) as [|Hne]; [lia|].
  apply elem_of_cons in Hx as [->|Hx]; [done|]. specialize (IH Hx). lia.
Qed.

Lemma elem_of_str_insert_sorted x a l :
  x ∈ str_insert_sorted a l → x = a ∨ x ∈ l.
Proof.
  induction l as [|y l IH]; simpl.
  - intros H. apply list_elem_of_singleton in H. by left.
  - destruct (String.leb a y).
    + intros H. apply elem_of_cons in H as [->|H]; [by left|by right].
    + intros H. apply elem_of_cons in H as [->|H]; [right; by left|].
      destruct (IH H) as [->|?]; [by left|right; by right].
Qed.

Lemma elem_of_str_sorted x l : x ∈ str_sorted l → x ∈ l.
Proof.
  induction l as [|a l IH]; [done|]. unfold str_sorted. cbn [foldr].
  intros H. apply elem_of_str_insert_sorted in H as [->|H]; [by left|].
  right. by apply IH.
Qed.

Lemma transform_loop els (l : list string) : ∀ acc,
  (length els ≤ 26)%nat → (∀ x, x ∈ l → x ∈ els) →
  ∃ r, foldl (λ acc element,
                res_bind acc (λ str,
                res_bind (getitem ascii_uppercase (Isomers.element_index els element))
                  (λ letter, Ok (str_replace str element letter))))
             (Ok acc) l = Ok r.
Proof.
  induction l as [|x l IH]; intros acc H26 Hsub; [by eexists|].
  cbn [foldl res_bind].
  pose proof (element_index_bound els x (Hsub x ltac:(by left))) as Hb.
  rewrite getitem_ascii_uppercase by lia. cbn [res_bind].
  apply IH; [done|]. intros y Hy. apply Hsub. by right.
Qed.

(** With at most 26 labels, [_transform_to_letter] raises nothing. *)
Lemma transform_to_letter_total els s :
  (length els ≤ 26)%nat → ∃ r, Isomers._transform_to_letter els s = Ok r.
Proof.
  intros H26. unfold Isomers._transform_to_letter. apply transform_loop; [done|].
  intros x Hx. apply list_elem_of_In, in_rev, list_elem_of_In in Hx.
  by apply elem_of_str_sorted.
Qed.

(** X13: on an object built with labels, [get_isomer_subset] without
    conditions returns exactly the list [isomers]: the strings that
    [_isomers_from_tuples] prints from the tuples of [_as_tuples] are those
    that [_isomers_from_bracelets] has printed, in the same order. *)
Theorem X13_no_condition_all_isomers (a : pyarg) (e : elements_arg)
    (self : Isomers.t) (els : list string) (visits : list string) :
  Isomers.init a e = Ok self → Isomers._elements self = Some els →
  Isomers.get_isomer_subset self CNone CNone visits = Ok (Isomers.isomers self).
Proof.
  intros Hinit Hel.
  destruct (as_tuples_init _ _ _ _ Hinit Hel) as (tuples & Ht & Hall).
  unfold Isomers.get_isomer_subset. rewrite Ht. cbn [res_bind]. by rewrite Hall.
Qed.

(** An instance of [X13_no_condition_all_isomers]. *)
Lemma X13_no_condition_all_isomers_witness :
  ∃ self,
    Isomers.init (AList [PInt 1; PInt 2; PInt 3]) (EList ["X"; "Y"; "Z"]%string) = Ok self ∧
    Isomers.get_isomer_subset self CNone CNone [] = Ok (Isomers.isomers self).
Proof.
  assert (∃ self, Isomers.init (AList [PInt 1; PInt 2; PInt 3])
                    (EList ["X"; "Y"; "Z"]%string) = Ok self ∧
                  Isomers._elements self = Some ["X"; "Y"; "Z"]%string)
    as (self & Hs & Hel).
  { eexists. split; vm_compute; reflexivity. }
  exists self. split; [exact Hs|].
  exact (X13_no_condition_all_isomers _ _ _ _ [] Hs Hel).
Defined.

(** *** [get_formula] *)

Lemma foldl_res_raise {A B} (f : A → B → res A) (e : exn) (l : list B) :
  foldl (λ acc x, res_bind acc (λ a, f a x)) (Raise e) l = Raise e.
Proof. induction l as [|x l IH]; [done|]. simpl. apply IH. Qed.

(** X14: on an object built without labels [get_formula] raises
    [TypeError], whatever the composition: the first pass of its loop
    reads [self._elements[0]], and [_elements] is [None]. *)
Theorem X14_get_formula_no_labels (a : pyarg) (self : Isomers.t) :
  Isomers.init a ENone = Ok self →
  Isomers.get_formula self = Raise TypeError.
Proof.
  intros Hinit.
  destruct (init_inv _ _ _ Hinit) as (l & els & b & all & -> & Hc & He & Hb & Hi & ->).
  destruct (check_composition_inv l Hc) as [Hlen _].
  cbn in He. injection He as <-.
  unfold Isomers.get_formula. cbn [Isomers._composition Isomers._elements Isomers.len_arg].
  unfold range. rewrite seqZ_cons by lia. cbn [foldl res_bind].
  apply (foldl_res_raise (λ formula_string i,
    res_bind (Raise TypeError) (λ e : string,
    res_bind (getitem (Isomers.composition_items (AList l)) i) (λ v,
    res_bind (Isomers.format_d v) (λ d,
    Ok (formula_string ++ "(" ++ e ++ ")" ++ d)%string))))).
Qed.

(** An instance of [X14_get_formula_no_labels]: the composition
    [[3, 4, 5]] without labels. *)
Lemma X14_get_formula_no_labels_witness :
  ∃ self, Isomers.init (AList [PInt 3; PInt 4; PInt 5]) ENone = Ok self ∧
          Isomers.get_formula self = Raise TypeError.
Proof.
  assert (∃ self, Isomers.init (AList [PInt 3; PInt 4; PInt 5]) ENone = Ok self)
    as (self & Hs).
  { eexists. vm_compute. reflexivity. }
  exists self. split; [exact Hs|].
  exact (X14_get_formula_no_labels _ _ Hs).
Defined.

Lemma format_d_int v : is_int v = true → Isomers.format_d v = Ok (str_int (int_value v)).
Proof. destruct v as [|z|z|[]|s|]; try done. Qed.

Lemma foldr_append_snoc (l : list string) (s : string) :
  foldr String.append EmptyString (l ++ [s]) =
  (foldr String.append EmptyString l ++ s)%string.
Proof.
  induction l as [|x l IH]; simpl; [by rewrite str_app_nil_r|].
  by rewrite IH, str_app_assoc.
Qed.

Lemma get_formula_loop (els : list string) (l : list pyval) :
  length els = length l → forallb is_int l = true →
  ∀ m : nat, (m ≤ length l)%nat →
  foldl (λ acc i,
           res_bind acc (λ formula_string,
           res_bind (getitem els i) (λ e : string,
           res_bind (getitem l i) (λ v,
           res_bind (Isomers.format_d v) (λ d,
           Ok (formula_string ++ "(" ++ e ++ ")" ++ d)%string)))))
        (Ok EmptyString) (seqZ 0 (Z.of_nat m)) =
  Ok (formula_of (take m els) (take m l)).
Proof.
  intros Hlen Hint. induction m as [|m IH]; intros Hm; [done|].
  rewrite seqZ_S, foldl_snoc, IH by lia. cbn [res_bind]. rewrite Z.add_0_l.
  destruct (lookup_lt_is_Some_2 els m) as [e He]; [lia|].
  destruct (lookup_lt_is_Some_2 l m) as [v Hv]; [lia|].
  rewrite (getitem_nonneg els (Z.of_nat m) e) by (try lia; by rewrite Nat2Z.id).
  rewrite (getitem_nonneg l (Z.of_nat m) v) by (try lia; by rewrite Nat2Z.id).
  cbn [res_bind]. rewrite format_d_int.
  2:{ rewrite forallb_forall in Hint. apply Hint.
      apply list_elem_of_In. by eapply list_elem_of_lookup_2. }
  cbn [res_bind]. unfold formula_of.
  rewrite (take_S_r els m e He), (take_S_r l m v Hv).
  rewrite zip_with_app by (rewrite !length_take; lia).
  cbn [zip_with]. by rewrite foldr_append_snoc.
Qed.

(** X15: on an object built with labels [get_formula] returns; the
    string is made of one piece [(label)count] per entry of the
    composition, in order, with [True] and [False] printed as 1 and 0. *)
Theorem X15_get_formula_labels (a : pyarg) (e : elements_arg)
    (self : Isomers.t) (els : list string) :
  Isomers.init a e = Ok self → Isomers._elements self = Some els →
  Isomers.get_formula self = Ok (formula_of els (Isomers.composition_items a)).
Proof.
  intros Hinit Hel.
  destruct (labels_length a e self els Hinit Hel) as (l & -> & Hlen & Hint).
  assert (Isomers._composition self = AList l) as Hcomp.
  { destruct (init_inv _ _ _ Hinit) as (l' & els' & b & all & Ha & _ & _ & _ & _ & ->).
    done. }
  unfold Isomers.get_formula. rewrite Hel, Hcomp.
  cbn [Isomers.composition_items Isomers.len_arg]. unfold range.
  rewrite (get_formula_loop els l Hlen Hint (length l)) by done.
  rewrite firstn_all. rewrite <- Hlen at 1. by rewrite firstn_all.
Qed.

(** An instance of [X15_get_formula_labels]: the labels of the unit
    tests. *)
Lemma X15_get_formula_labels_witness :
  ∃ self,
    Isomers.init (AList [PInt 3; PInt 4; PInt 5])
                 (EList ["VSe2"; "SnSe"; "SnSe2"]%string) = Ok self ∧
    Isomers.get_formula self =
      Ok (formula_of ["VSe2"; "SnSe"; "SnSe2"]%string
            (Isomers.composition_items (AList [PInt 3; PInt 4; PInt 5]))).
Proof.
  assert (∃ self, Isomers.init (AList [PInt 3; PInt 4; PInt 5])
                    (EList ["VSe2"; "SnSe"; "SnSe2"]%string) = Ok self ∧
                  Isomers._elements self = Some ["VSe2"; "SnSe"; "SnSe2"]%string)
    as (self & Hs & Hel).
  { eexists. split; vm_compute; reflexivity. }
  exists self. split; [exact Hs|].
  exact (X15_get_formula_labels _ _ _ _ Hs Hel).
Defined.

(** *** Conditions *)

(** X16: on an object built with labels, [get_isomer_subset] with a
    dict of thickness conditions raises [NameError], whatever the dict
    (also an empty one) and the interface conditions: the first statement
    of [_filter_thickness] reads a name that is bound nowhere.  With
    thickness conditions that are no dict it raises the [ValueError] of
    its check. *)
Theorem X16_thickness_conditions (a : pyarg) (e : elements_arg)
    (self : Isomers.t) (els : list string) (d : list (string * cval)) (ic : conds)
    (visits : list string) :
  Isomers.init a e = Ok self → Isomers._elements self = Some els →
  Isomers.get_isomer_subset self (CDict d) ic visits = Raise NameError ∧
  Isomers.get_isomer_subset self COther ic visits =
    Raise (Invalid KValueError "Thickness conditions must be a dictionary.").
Proof.
  intros Hinit Hel.
  destruct (as_tuples_init _ _ _ _ Hinit Hel) as (tuples & Ht & _).
  unfold Isomers.get_isomer_subset. rewrite Ht. done.
Qed.

(** An instance of [X16_thickness_conditions]. *)
Lemma X16_thickness_conditions_witness :
  ∃ self,
    Isomers.init (AList [PInt 1; PInt 2; PInt 3]) (EList ["X"; "Y"; "Z"]%string) = Ok self ∧
    Isomers.get_isomer_subset self (CDict [("Y"%string, VPair 1 2)]) CNone [] =
      Raise NameError ∧
    Isomers.get_isomer_subset self COther CNone [] =
      Raise (Invalid KValueError "Thickness conditions must be a dictionary.").
Proof.
  assert (∃ self, Isomers.init (AList [PInt 1; PInt 2; PInt 3])
                    (EList ["X"; "Y"; "Z"]%string) = Ok self ∧
                  Isomers._elements self = Some ["X"; "Y"; "Z"]%string)
    as (self & Hs & Hel).
  { eexists. split; vm_compute; reflexivity. }
  exists self. split; [exact Hs|].
  exact (X16_thickness_conditions _ _ _ _ [("Y"%string, VPair 1 2)] CNone [] Hs Hel).
Defined.

Lemma res_map_marked {A B} (g : A → res (A * B)) (l : list A) :
  (∀ x y, g x = Ok y → y.1 = x) →
  ∀ marked, res_map g l = Ok marked → fst <$> marked = l.
Proof.
  intros Hg. induction l as [|x l IH]; intros marked; simpl; [by intros [= <-]|].
  destruct (g x) as [y| |] eqn:Hy; [|done|done]. cbn [res_bind].
  destruct (res_map g l) as [ys| |]; [|done|done]. cbn [res_bind].
  intros [= <-]. csimpl. by rewrite (IH ys), (Hg x y Hy).
Qed.

Lemma apply_interface_sublist self tuples inter_cond r :
  Isomers.apply_interface self tuples inter_cond = Ok r → sublist r tuples.
Proof.
  unfold Isomers.apply_interface.
  destruct (res_map _ tuples) as [marked| |] eqn:Hm; [|done|done].
  cbn [res_bind]. intros [= <-].
  assert (fst <$> marked = tuples) as <-.
  { revert Hm. apply res_map_marked. intros isomer y.
    destruct (match Isomers._elements self with
              | None => Ok _
              | Some els => _
              end) as [istring| |]; [|done|done].
    cbn [res_bind].
    destruct (Isomers.interface_loop istring inter_cond); [|done|done].
    by intros [= <-]. }
  apply fmap_sublist, sublist_filter.
Qed.

Lemma filter_interface_sublist self tuples d visits r :
  Isomers._filter_interface self tuples d visits = Ok r → sublist r tuples.
Proof.
  unfold Isomers._filter_interface.
  destruct (match Isomers._elements self with
            | None => Ok d
            | Some els => _
            end) as [inter_cond| |]; [|done|done].
  cbn [res_bind]. apply apply_interface_sublist.
Qed.

(** X17: whatever the conditions and the keys that the iterator of the
    renaming loop yields, when [get_isomer_subset] returns a list, that
    list is a sublist of [isomers]: it holds isomer strings of the object
    only, in the order of [isomers]. *)
Theorem X17_subset_is_sublist (a : pyarg) (e : elements_arg) (self : Isomers.t)
    (th ic : conds) (visits : list string) (r : list string) :
  Isomers.init a e = Ok self →
  Isomers.get_isomer_subset self th ic visits = Ok r →
  sublist r (Isomers.isomers self).
Proof.
  intros Hinit. unfold Isomers.get_isomer_subset.
  assert (∃ tuples, Isomers._as_tuples self = Ok tuples ∧
                    sublist (Isomers._isomers_from_tuples tuples) (Isomers.isomers self) ∨
          Isomers._as_tuples self = Raise TypeError) as Hcases.
  { destruct (Isomers._elements self) as [els|] eqn:Hel.
    - destruct (as_tuples_init _ _ _ _ Hinit Hel) as (tuples & Ht & Hall).
      exists tuples. left. split; [done|]. by rewrite Hall.
    - rewrite (as_tuples_no_labels _ Hel).
      destruct (bracelets (Isomers._bracelets self)).
      + exists []. left. split; [done|]. apply sublist_nil_l.
      + exists []. by right. }
  destruct Hcases as (tuples & [[-> Hsub]| ->]); [|done]. cbn [res_bind].
  destruct th as [|dt|]; [|done|done]. cbn [res_bind].
  destruct ic as [|di|]; [| |done].
  - cbn [res_bind]. by intros [= <-].
  - destruct (Isomers._filter_interface self tuples (Isomers.pair_ints di) visits)
      as [r'| |] eqn:Hf; [|done|done].
    cbn [res_bind]. intros [= <-].
    apply filter_interface_sublist in Hf.
    etrans; [|exact Hsub]. unfold Isomers._isomers_from_tuples.
    by apply fmap_sublist.
Qed.

(** An instance of [X17_subset_is_sublist]. *)
Lemma X17_subset_is_sublist_witness :
  ∃ self r,
    Isomers.init (AList [PInt 1; PInt 2; PInt 3]) (EList ["X"; "Y"; "Z"]%string) = Ok self ∧
    Isomers.get_isomer_subset self CNone (CDict [("XY"%string, VBool false)])
      ["XY"%string] = Ok r ∧
    sublist r (Isomers.isomers self).
Proof.
  assert (∃ self r,
            Isomers.init (AList [PInt 1; PInt 2; PInt 3])
              (EList ["X"; "Y"; "Z"]%string) = Ok self ∧
            Isomers.get_isomer_subset self CNone
              (CDict [("XY"%string, VBool false)]) ["XY"%string] = Ok r)
    as (self & r & Hs & Hr).
  { eexists _, _. split; vm_compute; reflexivity. }
  exists self, r. split; [exact Hs|]. split; [exact Hr|].
  exact (X17_subset_is_sublist _ _ _ _ _ _ _ Hs Hr).
Defined.

(** *** The values of interface conditions *)

Lemma str_count_go_nonneg key : ∀ s skip, 0 ≤ str_count_go key skip s.
Proof.
  induction s as [|ch s IH]; intros skip; cbn [str_count_go]; [done|].
  destruct skip as [|k]; [|apply IH].
  destruct (String.prefix key (String ch s)); [|apply IH].
  specialize (IH (String.length key - 1)%nat). lia.
Qed.

Lemma str_count_nonneg s key : 0 ≤ str_count s key.
Proof.
  unfold str_count. destruct key; [lia|]. apply str_count_go_nonneg.
Qed.

Lemma str_count_go_in key : key ≠ EmptyString → ∀ s,
  (str_count_go key 0 s <? 1) = negb (str_in key s).
Proof.
  intros Hkey. induction s as [|ch s IH].
  - simpl. by destruct key.
  - cbn [str_count_go str_in].
    destruct (String.prefix key (String ch s)) eqn:Hp.
    + cbn [orb negb]. pose proof (str_count_go_nonneg key s (String.length key - 1)).
      apply Z.ltb_ge. lia.
    + cbn [orb]. apply IH.
Qed.

(** [s.count(key) < 1] exactly when [key in s] is false. *)
Lemma str_count_in s key : (str_count s key <? 1) = negb (str_in key s).
Proof.
  unfold str_count. destruct key as [|ch key].
  - destruct s; simpl; [done|]. apply Z.ltb_ge. lia.
  - by apply str_count_go_in.
Qed.

Lemma interface_rejects_true istring key :
  Isomers.interface_rejects istring key (VBool true) =
  Isomers.interface_rejects istring key (VPair 1 0).
Proof.
  unfold Isomers.interface_rejects. f_equal.
  change (0 >? 0) with false. cbn [andb]. rewrite orb_false_r.
  pose proof (str_count_in istring key) as H1.
  pose proof (str_count_in istring (str_rev key)) as H2.
  pose proof (str_count_nonneg istring key) as N1.
  pose proof (str_count_nonneg istring (str_rev key)) as N2.
  destruct (String.eqb_spec key (str_rev key)) as [Heq|Hne]; cbn [negb].
  - rewrite <- Heq, H1. by destruct (str_in key istring).
  - destruct (str_in key istring), (str_in (str_rev key) istring);
      cbn [negb orb Bool.eqb] in *.
    + symmetry. apply Z.ltb_ge. apply Z.ltb_ge in H1. lia.
    + symmetry. apply Z.ltb_ge. apply Z.ltb_ge in H1. lia.
    + symmetry. apply Z.ltb_ge. apply Z.ltb_ge in H2. lia.
    + symmetry. apply Z.ltb_lt. apply Z.ltb_lt in H1, H2. lia.
Qed.

Lemma interface_rejects_true_as_pair istring key v :
  Isomers.interface_rejects istring key (true_as_pair v) =
  Isomers.interface_rejects istring key v.
Proof.
  destruct v as [[]|z|lo hi]; try done. symmetry. apply interface_rejects_true.
Qed.

Lemma interface_loop_true_as_pair istring d :
  Isomers.interface_loop istring (dict_true_as_pair d) =
  Isomers.interface_loop istring d.
Proof.
  induction d as [|[k v] d IH]; [done|]. cbn [dict_true_as_pair fmap list_fmap].
  cbn [Isomers.interface_loop]. rewrite interface_rejects_true_as_pair.
  destruct (Isomers.interface_rejects istring k v) as [[]| |]; cbn [res_bind];
    first [done|apply IH].
Qed.

Lemma pair_ints_true_as_pair d :
  Isomers.pair_ints (dict_true_as_pair d) = dict_true_as_pair (Isomers.pair_ints d).
Proof.
  unfold Isomers.pair_ints, dict_true_as_pair. rewrite <- !list_fmap_compose.
  apply list_fmap_ext. intros i [k v] _. simpl. by destruct v as [[]| |].
Qed.

Lemma dict_pop_true_as_pair d k :
  Isomers.dict_pop (dict_true_as_pair d) k = dict_true_as_pair (Isomers.dict_pop d k).
Proof.
  unfold Isomers.dict_pop, dict_true_as_pair.
  induction d as [|[k' v] d IH]; [done|]. rewrite fmap_cons.
  destruct (String.eqb k' k) eqn:E.
  - rewrite !filter_cons_False by (by rewrite E). apply IH.
  - rewrite !filter_cons_True by done. rewrite fmap_cons. by rewrite IH.
Qed.

Lemma dict_set_true_as_pair d k v :
  Isomers.dict_set (dict_true_as_pair d) k (true_as_pair v) =
  dict_true_as_pair (Isomers.dict_set d k v).
Proof.
  unfold Isomers.dict_set, dict_true_as_pair.
  assert (existsb (λ '(k', _), String.eqb k' k) ((λ '(k, v), (k, true_as_pair v)) <$> d) =
          existsb (λ '(k', _), String.eqb k' k) d) as ->.
  { induction d as [|[k' v'] d IH]; [done|]. csimpl. by rewrite IH. }
  destruct (existsb _ d).
  - rewrite <- !list_fmap_compose. apply list_fmap_ext. intros i [k' v'] _. simpl.
    by destruct (String.eqb k' k).
  - by rewrite fmap_app.
Qed.

Lemma dict_get_true_as_pair d k :
  Isomers.dict_get (dict_true_as_pair d) k = true_as_pair <$> Isomers.dict_get d k.
Proof.
  induction d as [|[k' v] d IH]; [done|]. cbn [dict_true_as_pair fmap list_fmap].
  cbn [Isomers.dict_get]. destruct (String.eqb k' k); [done|apply IH].
Qed.

Lemma rename_keys_true_as_pair els size (visits : list string) : ∀ d,
  Isomers.rename_keys els size (dict_true_as_pair d) visits =
  res_bind (Isomers.rename_keys els size d visits) (λ d', Ok (dict_true_as_pair d')).
Proof.
  induction visits as [|key rest IH]; intros d; cbn [Isomers.rename_keys];
    unfold dict_true_as_pair at 1; rewrite length_fmap;
    destruct (negb (Nat.eqb (length d) size)); try done.
  destruct (Isomers._transform_to_letter els key) as [newkey| |]; [|done|done].
  cbn [res_bind]. rewrite dict_get_true_as_pair.
  destruct (Isomers.dict_get d key) as [val|]; [|done]. cbn [fmap option_fmap option_map].
  rewrite dict_pop_true_as_pair, dict_set_true_as_pair. apply IH.
Qed.

Lemma res_map_ext {A B} (f g : A → res B) (l : list A) :
  (∀ x, f x = g x) → res_map f l = res_map g l.
Proof. intros H. induction l as [|x l IH]; [done|]. simpl. by rewrite H, IH. Qed.

Lemma apply_interface_true_as_pair self tuples d :
  Isomers.apply_interface self tuples (dict_true_as_pair d) =
  Isomers.apply_interface self tuples d.
Proof.
  unfold Isomers.apply_interface. erewrite res_map_ext; [done|].
  intros isomer. cbv beta.
  destruct (match Isomers._elements self with
            | None => Ok _
            | Some els => _
            end) as [istring| |]; [|done|done].
  cbn [res_bind]. by rewrite interface_loop_true_as_pair.
Qed.

Lemma filter_interface_true_as_pair self tuples d visits :
  Isomers._filter_interface self tuples (dict_true_as_pair d) visits =
  Isomers._filter_interface self tuples d visits.
Proof.
  unfold Isomers._filter_interface.
  destruct (Isomers._elements self) as [els|].
  - rewrite rename_keys_true_as_pair.
    unfold dict_true_as_pair at 1. rewrite length_fmap.
    destruct (Isomers.rename_keys els (length d) d visits) as [d'| |]; [|done|done].
    cbn [res_bind]. apply apply_interface_true_as_pair.
  - cbn [res_bind]. apply apply_interface_true_as_pair.
Qed.

(** X18: in a dict of interface conditions the value [True] and the
    pair [(1, 0)] mean the same: replacing every [True] by [(1, 0)]
    changes neither the result of [get_isomer_subset] nor the exception
    it raises, whatever the object, the other conditions and the keys that
    the iterator of the renaming loop yields. *)
Theorem X18_true_is_one_zero (self : Isomers.t) (th : conds)
    (d : list (string * cval)) (visits : list string) :
  Isomers.get_isomer_subset self th (CDict (dict_true_as_pair d)) visits =
  Isomers.get_isomer_subset self th (CDict d) visits.
Proof.
  unfold Isomers.get_isomer_subset.
  destruct (Isomers._as_tuples self) as [tuples| |]; [|done|done]. cbn [res_bind].
  destruct (match th with
            | CNone => Ok tuples
            | CDict d0 => _
            | COther => _
            end) as [subset| |]; [|done|done].
  cbn [res_bind]. by rewrite pair_ints_true_as_pair, filter_interface_true_as_pair.
Qed.

Lemma pair_ints_no_bound d :
  Forall (λ x, no_bound x.2) d → Forall (λ x, no_bound_pair x.2) (Isomers.pair_ints d).
Proof.
  intros H. unfold Isomers.pair_ints. apply Forall_fmap.
  eapply Forall_impl; [exact H|]. intros [k v] Hv. simpl in *.
  destruct v as [b|z|lo hi]; simpl in *; [done| |].
  - exists z, z. done.
  - exists lo, hi. done.
Qed.

Lemma dict_pop_Forall {V} (P : string * V → Prop) d k :
  Forall P d → Forall P (Isomers.dict_pop d k).
Proof.
  unfold Isomers.dict_pop. intros H. apply Forall_forall. intros x Hx.
  apply list_elem_of_filter in Hx as [_ Hx]. rewrite Forall_forall in H. by apply H.
Qed.

Lemma dict_set_Forall {V} (P : V → Prop) (d : list (string * V)) k v :
  Forall (λ x, P x.2) d → P v → Forall (λ x, P x.2) (Isomers.dict_set d k v).
Proof.
  intros Hd Hv. unfold Isomers.dict_set. destruct (existsb _ d).
  - apply Forall_fmap. eapply Forall_impl; [exact Hd|]. intros [k' v'] Hv'. simpl in *.
    by destruct (String.eqb k' k).
  - apply Forall_app. split; [done|]. by constructor.
Qed.

Lemma dict_get_Forall {V} (P : V → Prop) (d : list (string * V)) k v :
  Forall (λ x, P x.2) d → Isomers.dict_get d k = Some v → P v.
Proof.
  induction 1 as [|[k' v'] d Hv Hd IH]; [done|]. cbn [Isomers.dict_get].
  destruct (String.eqb k' k); [by intros [= <-]|apply IH].
Qed.

(** The renaming loop raises [RuntimeError] or returns a dict with
    values of the dict it was given. *)
Lemma rename_keys_Forall {P : cval → Prop} els size (visits : list string) : ∀ d,
  (length els ≤ 26)%nat → Forall (λ x, P x.2) d →
  yields_ok els d visits = true →
  (∃ d', Isomers.rename_keys els size d visits = Ok d' ∧ Forall (λ x, P x.2) d') ∨
  Isomers.rename_keys els size d visits = Raise RuntimeError.
Proof.
  induction visits as [|key rest IH]; intros d H26 Hd Hy; cbn [Isomers.rename_keys];
    destruct (negb (Nat.eqb (length d) size)); try (by right).
  - left. by exists d.
  - cbn [yields_ok] in Hy.
    destruct (transform_to_letter_total els key H26) as [newkey Hnew].
    rewrite Hnew in Hy |- *. cbn [res_bind].
    destruct (Isomers.dict_get d key) as [val|] eqn:Hget; [|done].
    apply IH; [done| |done].
    apply dict_set_Forall; [by apply dict_pop_Forall|].
    by apply (dict_get_Forall P d key).
Qed.

(** On a dict with one key the renaming loop raises nothing. *)
Lemma rename_keys_single {P : cval → Prop} els (visits : list string) : ∀ k v,
  (length els ≤ 26)%nat → P v →
  yields_ok els [(k, v)] visits = true →
  ∃ d', Isomers.rename_keys els 1 [(k, v)] visits = Ok d' ∧ Forall (λ x, P x.2) d'.
Proof.
  induction visits as [|key rest IH]; intros k v H26 Hv Hy;
    cbn [Isomers.rename_keys length Nat.eqb negb].
  - exists [(k, v)]. split; [done|]. by constructor.
  - cbn [yields_ok] in Hy.
    destruct (transform_to_letter_total els key H26) as [newkey Hnew].
    rewrite Hnew in Hy |- *. cbn [res_bind Isomers.dict_get] in Hy |- *.
    destruct (String.eqb_spec k key) as [->|Hne]; [|done].
    assert (Isomers.dict_set (Isomers.dict_pop [(key, v)] key) newkey v = [(newkey, v)])
      as Hset.
    { unfold Isomers.dict_pop. rewrite filter_cons_False; [done|].
      by rewrite String.eqb_refl. }
    rewrite Hset in Hy |- *. by apply IH.
Qed.

Lemma interface_rejects_no_bound istring key v :
  no_bound_pair v → Isomers.interface_rejects istring key v = Ok false.
Proof.
  intros (lo & hi & -> & Hlo & Hhi). unfold Isomers.interface_rejects. f_equal.
  pose proof (str_count_nonneg istring key).
  pose proof (str_count_nonneg istring (str_rev key)).
  apply orb_false_iff. split.
  - apply Z.ltb_ge. destruct (negb _); lia.
  - apply andb_false_iff. left. destruct (Z.gtb_spec hi 0); [lia|done].
Qed.

Lemma interface_loop_no_bound istring d :
  Forall (λ x, no_bound_pair x.2) d → Isomers.interface_loop istring d = Ok true.
Proof.
  induction 1 as [|[k v] d Hv Hd IH]; [done|]. cbn [Isomers.interface_loop].
  rewrite interface_rejects_no_bound by done. cbn [res_bind]. apply IH.
Qed.

Lemma apply_interface_no_bound (self : Isomers.t) els tuples d :
  Isomers._elements self = Some els → (length els ≤ 26)%nat →
  Forall (λ x, no_bound_pair x.2) d →
  Isomers.apply_interface self tuples d = Ok tuples.
Proof.
  intros Hel H26 Hd. unfold Isomers.apply_interface. rewrite Hel.
  assert (res_map (λ isomer : list (string * Z),
            res_bind (Isomers._transform_to_letter els
                        (foldr String.append EmptyString
                           ((λ '(e, c), str_mul e c) <$> isomer)))
              (λ istring, res_bind (Isomers.interface_loop istring d)
                 (λ keep, Ok (isomer, keep)))) tuples =
          Ok ((λ isomer, (isomer, true)) <$> tuples)) as ->.
  { apply res_map_Forall2. apply Forall_forall. intros isomer _.
    destruct (transform_to_letter_total els
                (foldr String.append EmptyString ((λ '(e, c), str_mul e c) <$> isomer))
                H26) as [r ->].
    cbn [res_bind]. by rewrite interface_loop_no_bound. }
  cbn [res_bind]. f_equal.
  induction tuples as [|t tuples IH]; [done|].
  rewrite fmap_cons, filter_cons_True by done. rewrite fmap_cons, IH. done.
Qed.

(** X19: on an object built with labels, take a dict of interface
    conditions whose values are all integers [<= 0] or pairs of two such
    integers.  Whatever keys the iterator of the renaming loop yields,
    [get_isomer_subset] returns the whole list [isomers], or it raises the
    [RuntimeError] of an iteration over a dict that has shrunk (a key was
    renamed to another key of the dict); with at most one key it returns
    the whole list.  In particular the value 0 does not ask for zero
    occurrences of its key. *)
Theorem X19_no_bound_filters_nothing (a : pyarg) (e : elements_arg)
    (self : Isomers.t) (els : list string) (d : list (string * cval))
    (visits : list string) :
  Isomers.init a e = Ok self → Isomers._elements self = Some els →
  Forall (λ x, no_bound x.2) d →
  valid_visits els (Isomers.pair_ints d) visits = true →
  (Isomers.get_isomer_subset self CNone (CDict d) visits = Ok (Isomers.isomers self) ∨
   Isomers.get_isomer_subset self CNone (CDict d) visits = Raise RuntimeError) ∧
  ((length d ≤ 1)%nat →
   Isomers.get_isomer_subset self CNone (CDict d) visits = Ok (Isomers.isomers self)).
Proof.
  intros Hinit Hel Hd Hvalid.
  destruct (as_tuples_init _ _ _ _ Hinit Hel) as (tuples & Ht & Hall).
  destruct (labels_of_init a e self els Hinit Hel) as [H26 _].
  pose proof (pair_ints_no_bound d Hd) as Hpd.
  assert (yields_ok els (Isomers.pair_ints d) visits = true) as Hy.
  { unfold valid_visits in Hvalid.
    destruct (Isomers.pair_ints d), visits; try done. }
  unfold Isomers.get_isomer_subset, Isomers._filter_interface.
  rewrite Ht, Hel. cbn [res_bind].
  assert (∀ d', Forall (λ x, no_bound_pair x.2) d' →
            res_bind (res_bind (Ok d') (λ inter_cond,
                        Isomers.apply_interface self tuples inter_cond))
              (λ subset, Ok (Isomers._isomers_from_tuples subset)) =
            Ok (Isomers.isomers self)) as Hok.
  { intros d' Hd'. cbn [res_bind].
    rewrite (apply_interface_no_bound self els) by done. cbn [res_bind]. by rewrite Hall. }
  split.
  - destruct (rename_keys_Forall (P := no_bound_pair) els
                (length (Isomers.pair_ints d)) visits (Isomers.pair_ints d) H26 Hpd Hy)
      as [(d' & -> & Hd')| ->]; [left; by apply Hok|by right].
  - intros Hlen.
    destruct (Isomers.pair_ints d) as [|[k v] [|x rest]] eqn:Hp.
    + destruct visits as [|key rest]; [|done]. cbn [Isomers.rename_keys length Nat.eqb negb].
      by apply Hok.
    + apply Forall_cons in Hpd as [Hv _].
      destruct (rename_keys_single (P := no_bound_pair) els visits k v H26 Hv Hy)
        as (d' & Hr & Hd').
      cbn [length]. rewrite Hr. by apply Hok.
    + apply (f_equal length) in Hp. unfold Isomers.pair_ints in Hp.
      rewrite length_fmap in Hp. simpl in Hp. lia.
Qed.

(** An instance of [X19_no_bound_filters_nothing]: the condition
    [{'XY': 0}]. *)
Lemma X19_no_bound_filters_nothing_witness :
  ∃ self,
    Isomers.init (AList [PInt 1; PInt 2; PInt 3]) (EList ["X"; "Y"; "Z"]%string) = Ok self ∧
    (Isomers.get_isomer_subset self CNone (CDict [("XY"%string, VInt 0)]) ["XY"%string] =
       Ok (Isomers.isomers self) ∨
     Isomers.get_isomer_subset self CNone (CDict [("XY"%string, VInt 0)]) ["XY"%string] =
       Raise RuntimeError) ∧
    ((length [("XY"%string, VInt 0)] ≤ 1)%nat →
     Isomers.get_isomer_subset self CNone (CDict [("XY"%string, VInt 0)]) ["XY"%string] =
       Ok (Isomers.isomers self)).
Proof.
  assert (∃ self, Isomers.init (AList [PInt 1; PInt 2; PInt 3])
                    (EList ["X"; "Y"; "Z"]%string) = Ok self ∧
                  Isomers._elements self = Some ["X"; "Y"; "Z"]%string)
    as (self & Hs & Hel).
  { eexists. split; vm_compute; reflexivity. }
  exists self. split; [exact Hs|].
  apply (X19_no_bound_filters_nothing _ _ _ _ [("XY"%string, VInt 0)] ["XY"%string] Hs Hel).
  - apply Forall_cons. split; [simpl; lia|apply Forall_nil_2].
  - reflexivity.
Defined.

(** *** The constructor on a valid content *)

Lemma label_runs_in_range els runs :
  Forall (λ x, 0 ≤ x.1 < Z.of_nat (length els)) runs →
  label_runs els runs = Ok ((λ '(s, n), (label_of els s, n)) <$> runs).
Proof.
  intros H. unfold label_runs. apply res_map_Forall2.
  eapply Forall_impl; [exact H|]. intros [s n] Hs. simpl in Hs.
  destruct (lookup_lt_is_Some_2 els (Z.to_nat s)) as [x Hx]; [lia|].
  rewrite (getitem_nonneg els s x) by (try lia; done). cbn [res_bind].
  unfold label_of. by rewrite Hx.
Qed.

Lemma runs_symbols runs x :
  runs_pos runs → x ∈ runs → x.1 ∈ expand runs.
Proof.
  intros Hpos Hx. induction runs as [|[s l] runs IH]; [by apply elem_of_nil in Hx|].
  apply Forall_cons in Hpos as [Hl Hpos]. rewrite expand_cons.
  apply elem_of_app. apply elem_of_cons in Hx as [->|Hx]; [left|right; by apply IH].
  simpl in *. destruct (Z.to_nat l) as [|k] eqn:E; [lia|]. by left.
Qed.

Lemma as_tuple1_range (K : nat) y rest :
  y = 0 :: rest → Forall (λ v, 0 ≤ v < Z.of_nat K) y →
  Forall (λ x, 0 ≤ x.1 < Z.of_nat K) (as_tuple1 y).
Proof.
  intros Hy Hr. apply Forall_forall. intros x Hx.
  assert (x.1 ∈ expand (as_tuple1 y)) as Hin.
  { apply runs_symbols; [|done]. rewrite as_tuple1_rle. apply runs_pos_rle. }
  rewrite (expand_as_tuple1 y rest Hy) in Hin.
  rewrite Forall_forall in Hr. by apply Hr.
Qed.

Lemma format_runs_no_labels brace : ∀ acc,
  Isomers.format_runs None brace acc =
  Isomers.format_runs (Some ascii_uppercase) brace acc.
Proof.
  induction brace as [|[s c] rest IH]; intros acc; [done|].
  cbn [Isomers.format_runs]. destruct (getitem ascii_uppercase s); [|done|done].
  cbn [res_bind]. apply IH.
Qed.

Lemma isomers_from_bracelets_range els labels (bs : list (list (Z * Z))) :
  (els = Some labels ∨ els = None ∧ labels = ascii_uppercase) →
  Forall (Forall (λ x, 0 ≤ x.1 < Z.of_nat (length labels))) bs →
  res_map (λ brace, Isomers.format_runs els brace EmptyString) bs =
  Ok (isomer_string labels <$> bs).
Proof.
  intros Hels Hbs. apply res_map_Forall2.
  eapply Forall_impl; [exact Hbs|]. intros brace Hb. cbv beta.
  assert (Isomers.format_runs els brace EmptyString =
          Isomers.format_runs (Some labels) brace EmptyString) as ->.
  { destruct Hels as [->|[-> ->]]; [done|apply format_runs_no_labels]. }
  rewrite format_runs_join, (label_runs_in_range _ _ Hb). done.
Qed.

Lemma filter_none {A} (P : A → Prop) `{∀ x, Decision (P x)} (l : list A) :
  Forall (λ x, ¬ P x) l → filter P l = [].
Proof.
  induction 1 as [|x l Hx Hl IH]; [done|]. by rewrite filter_cons_False.
Qed.

Lemma str_list_count_NoDup (l : list string) (x : string) :
  NoDup l → Isomers.str_list_count l x ≤ 1.
Proof.
  unfold Isomers.str_list_count. induction 1 as [|y l Hy Hl IH]; [done|].
  destruct (String.eqb_spec y x) as [->|Hne].
  - rewrite filter_cons_True by apply String.eqb_refl.
    assert (filter (λ y, String.eqb y x = true) l = []) as ->; [|simpl; lia].
    apply filter_none. apply Forall_forall. intros z Hz Heq.
    apply String.eqb_eq in Heq as ->. done.
  - rewrite filter_cons_False; [done|]. by intros H%String.eqb_eq.
Qed.

Lemma check_elements_NoDup (l : list pyval) (els : list string) :
  length els = length l → NoDup els →
  Isomers.check_elements (AList l) (EList els) = Ok (Some els).
Proof.
  intros Hlen Hnd. unfold Isomers.check_elements. cbn [Isomers.len_arg].
  rewrite Hlen, Z.eqb_refl. cbn [negb].
  assert (existsb (λ e, Isomers.str_list_count els e >? 1) (removelast els) = false) as ->;
    [|done].
  generalize (removelast els). intros l'.
  induction l' as [|x l' IH]; [done|]. cbn [existsb]. rewrite IH, orb_false_r.
  pose proof (str_list_count_NoDup els x Hnd).
  destruct (Z.gtb_spec (Isomers.str_list_count els x) 1); [lia|done].
Qed.

Lemma check_composition_valid (c : list Z) :
  (2 ≤ length c ≤ 26)%nat → Isomers.check_composition (AList (PInt <$> c)) = Ok tt.
Proof.
  intros Hlen. unfold Isomers.check_composition. rewrite length_fmap.
  destruct (Z.ltb_spec (Z.of_nat (length c)) 2); [lia|].
  destruct (Z.gtb_spec (Z.of_nat (length c)) 26); [lia|].
  assert (forallb is_int (PInt <$> c) = true) as ->; [|done].
  clear. induction c as [|x c IH]; [done|]. csimpl. apply IH.
Qed.

Lemma Bracelets_of_runs_range c :
  valid_content c →
  ∃ B, Bracelets_of c = Ok B ∧
       Forall (Forall (λ x, 0 ≤ x.1 < Z.of_nat (length c))) (as_tuple B).
Proof.
  intros Hv. destruct (Bracelets_of_valid c Hv) as (out & HB & Hgood & _).
  eexists. split; [exact HB|]. unfold as_tuple, bracelets. cbn [_bracelets].
  apply Forall_fmap, Forall_reverse. eapply Forall_impl; [exact Hgood|].
  intros y Hy. simpl. destruct (good_out_zero _ _ Hy) as [rest Hrest].
  apply (as_tuple1_range _ y rest Hrest).
  eapply good_out_range; [|exact Hy]. by apply sum_nonneg_valid.
Qed.

(** X20: for a content vector of 2 to 26 positive multiplicities and
    as many pairwise distinct labels, [Isomers(composition, elements)]
    returns an object; its list [isomers] holds, for each bracelet in
    order, the runs of [as_tuple] printed as [(label)length] and joined
    by [-]. *)
Theorem X20_init_with_labels (c : list Z) (els : list string) :
  valid_content c → (length c ≤ 26)%nat →
  length els = length c → NoDup els →
  ∃ B self, Bracelets_of c = Ok B ∧
            Isomers.init (AList (PInt <$> c)) (EList els) = Ok self ∧
            Isomers._bracelets self = B ∧ Isomers._elements self = Some els ∧
            Isomers.isomers self = isomer_string els <$> as_tuple B.
Proof.
  intros Hv H26 Hlen Hnd. pose proof Hv as [H2 _].
  destruct (Bracelets_of_runs_range c Hv) as (B & HB & Hrange).
  exists B. eexists. split; [exact HB|].
  unfold Isomers.init. rewrite check_composition_valid by lia. cbn [res_bind].
  rewrite check_elements_NoDup by (try rewrite length_fmap; done). cbn [res_bind].
  unfold Bracelets_of in HB. rewrite HB. cbn [res_bind].
  unfold Isomers._isomers_from_bracelets.
  rewrite (isomers_from_bracelets_range (Some els) els); [|by left|by rewrite Hlen].
  cbn [res_bind]. done.
Qed.

(** An instance of [X20_init_with_labels]. *)
Lemma X20_init_with_labels_witness :
  ∃ B self, Bracelets_of [1; 2; 3] = Ok B ∧
            Isomers.init (AList (PInt <$> [1; 2; 3])) (EList ["X"; "Y"; "Z"]%string) = Ok self ∧
            Isomers._bracelets self = B ∧
            Isomers._elements self = Some ["X"; "Y"; "Z"]%string ∧
            Isomers.isomers self = isomer_string ["X"; "Y"; "Z"]%string <$> as_tuple B.
Proof.
  apply (X20_init_with_labels [1; 2; 3] ["X"; "Y"; "Z"]%string).
  - split; [simpl; lia|]. repeat constructor; lia.
  - simpl. lia.
  - reflexivity.
  - apply NoDup_cons. split.
    { intros H. apply elem_of_cons in H as [H|H]; [discriminate H|].
      apply list_elem_of_singleton in H. discriminate H. }
    apply NoDup_cons. split.
    { intros H. apply list_elem_of_singleton in H. discriminate H. }
    apply NoDup_singleton.
Defined.

(** X21: for a content vector of 2 to 26 positive multiplicities,
    [Isomers(composition)] without labels returns an object whose list
    [isomers] is the one of an object with the labels A, B, C, ...: the
    symbol [s] is printed as the letter [ascii_uppercase[s]]. *)
Theorem X21_init_without_labels (c : list Z) :
  valid_content c → (length c ≤ 26)%nat →
  ∃ B self, Bracelets_of c = Ok B ∧
            Isomers.init (AList (PInt <$> c)) ENone = Ok self ∧
            Isomers._bracelets self = B ∧ Isomers._elements self = None ∧
            Isomers.isomers self = isomer_string ascii_uppercase <$> as_tuple B.
Proof.
  intros Hv H26. pose proof Hv as [H2 _].
  destruct (Bracelets_of_runs_range c Hv) as (B & HB & Hrange).
  exists B. eexists. split; [exact HB|].
  unfold Isomers.init. rewrite check_composition_valid by lia.
  cbn [res_bind Isomers.check_elements].
  unfold Bracelets_of in HB. rewrite HB. cbn [res_bind].
  unfold Isomers._isomers_from_bracelets.
  rewrite (isomers_from_bracelets_range None ascii_uppercase); [|by right|].
  - cbn [res_bind]. done.
  - eapply Forall_impl; [exact Hrange|]. intros runs Hr.
    eapply Forall_impl; [exact Hr|]. intros x Hx. simpl in *. lia.
Qed.

(** An instance of [X21_init_without_labels]. *)
Lemma X21_init_without_labels_witness :
  ∃ B self, Bracelets_of [1; 2; 3] = Ok B ∧
            Isomers.init (AList (PInt <$> [1; 2; 3])) ENone = Ok self ∧
            Isomers._bracelets self = B ∧ Isomers._elements self = None ∧
            Isomers.isomers self = isomer_string ascii_uppercase <$> as_tuple B.
Proof.
  apply (X21_init_without_labels [1; 2; 3]).
  - split; [simpl; lia|]. repeat constructor; lia.
  - simpl. lia.
Defined.
